(** * PortalSync: gesture classification, touch synchronisation and event bus

    A shallow embedding of the touch-facing core of the repository, followed
    by the properties proved about it.

    The program:
    - [Constants]         utils/Constants.ts (thresholds and enums);
    - [Collab]            systems/CollaborationSystem.ts (proximity-gated
                          challenges, synchronized touch, energy relay);
    - [Net]               systems/NetworkManager.ts (event queue, dispatch);
    - [Input]             core/InputController.ts, touch tracking and the
                          discrete gestures (tap, double-tap, long-press)
                          with the deferred tap callback;
    - [Dispatch]          core/InputController.ts, [on], [off], [emitGesture];
    - [Rotation]          core/InputController.ts, the two-finger rotation
                          classifier, over the real numbers;
    - [RotationBinary64]  its arithmetic on binary64 numbers;
    - [Game]              core/GameController.ts, the clock the coordinator
                          reads and the tap callback that calls it;
    - [Remote]            a consumer of touch envelopes, which the sources
                          do not contain;
    - [Link]              systems/NetworkManager.ts, [disconnect] and the
                          manager in use;
    - [Quality]           systems/PerformanceMonitor.ts, the automatic
                          quality adjustment;
    - [Portals]           core/PortalManager.ts, the creation of a portal.

    The vocabulary of the properties and the scenarios they are run on:
    [CollabSpec], [InputSpec], [DispatchSpec], [RotationSpec], [GameSpec],
    [RemoteSpec], [TapScenarios], [InputEdgeSpec], [CollabEdgeSpec],
    [LinkSpec], [QualitySpec], [PortalsSpec].

    The properties: [CollabFacts], [GameFacts], [NetFacts], [RemoteFacts],
    [InputFacts], [DispatchFacts], [RotationFacts], [InputEdgeFacts],
    [UnregisterFacts], [CollabEdgeFacts], [LinkFacts], [RotationEdgeFacts],
    [QualityFacts], [PortalsFacts].

    Conventions.  [Date.now()] is an explicit argument [now : Z]
    (milliseconds).  JavaScript numbers that hold counts and times are [Z];
    coordinates and the relay multiplier are exact rationals [Q]; angles are
    reals.  A [Map<string, _>] is a [gmap string _], a [Set<string>] is a
    [gset string]; the challenge table keeps its insertion order as a list
    because the source iterates over it with side effects. *)

From Stdlib Require Import ZArith QArith Lia Lqa.
From Stdlib Require Import Reals Lra.
From Stdlib Require Import Floats.
From stdpp Require Import gmap strings list fin_maps.

(* ===================================================================== *)
(** * utils/Constants.ts *)
(* ===================================================================== *)

Module Constants.

Inductive HapticPattern :=
| PORTAL_RESIZE | PORTAL_ROTATE | PORTAL_PAINT | PORTAL_ACTIVATE
| DISCOVERY | SUCCESS | FAILURE
| RELAY_PERFECT | RELAY_GOOD | RELAY_MISS
| SHAKE_FEEDBACK | COLLABORATION_START | COLLABORATION_SYNC.

Inductive GestureType :=
| UNKNOWN | TAP | DOUBLE_TAP | LONG_PRESS | SWIPE | PINCH | ZOOM | ROTATE
| TWO_FINGER_TAP | THREE_FINGER_PRESS.

#[export] Instance GestureType_eq_dec : EqDecision GestureType.
Proof. solve_decision. Defined.

Module GESTURE_THRESHOLDS.
Definition TAP_DURATION : Z := 200.
Definition LONG_PRESS_DURATION : Z := 500.
Definition PINCH_THRESHOLD : Z := 10.
Definition ROTATION_THRESHOLD : Z := 5.
Definition DOUBLE_TAP_INTERVAL : Z := 300.
End GESTURE_THRESHOLDS.

Module COLLAB_CONFIG.
Definition PERFECT_TIMING_THRESHOLD : Z := 100.
Definition GOOD_TIMING_THRESHOLD : Z := 300.
Definition MAX_SYNC_DELAY : Z := 500.
Definition PROXIMITY_RADIUS : Q := 5.
Definition MIN_PLAYERS_FOR_COLLAB : Z := 2.
Definition MAX_PLAYERS_FOR_COLLAB : Z := 4.
End COLLAB_CONFIG.

End Constants.

(* ===================================================================== *)
(** * systems/CollaborationSystem.ts *)
(* ===================================================================== *)

Module Collab.
Import Constants.

Local Open Scope Z_scope.

Record Vector3 := mkVector3 { v3x : Q; v3y : Q; v3z : Q }.

(** [Vector3.distance(a, b) <= r].  The source takes the square root of
    the sum of squares; on exact numbers that is at most [r] exactly when
    [r] is not negative and the sum of squares is at most [r * r]. *)
Definition distance_le (a b : Vector3) (r : Q) : bool :=
  let dx := (v3x a - v3x b)%Q in
  let dy := (v3y a - v3y b)%Q in
  let dz := (v3z a - v3z b)%Q in
  Qle_bool 0 r && Qle_bool (dx * dx + dy * dy + dz * dz) (r * r).

Record Player := mkPlayer {
  id : string;
  name : string;
  position : Vector3;
  isTouching : bool;
  touchTimestamp : option Z;
  deviceId : option string
}.

Inductive CollabChallengeType :=
| SYNCHRONIZED_TOUCH | ENERGY_RELAY | PORTAL_NETWORK | DUAL_ACTIVATION
| TEAM_PUZZLE.

Definition is_synchronized_touch (t : CollabChallengeType) : bool :=
  match t with SYNCHRONIZED_TOUCH => true | _ => false end.

Record CollabChallenge := mkChallenge {
  cid : string;
  ctype : CollabChallengeType;
  requiredPlayers : Z;
  participants : gset string;
  isActive : bool;
  isCompleted : bool;
  startTime : option Z;
  cposition : Vector3;
  proximityRadius : Q
}.

Inductive RelayTiming := PERFECT | GOOD | MISS.

Record RelayEvent := mkRelayEvent {
  fromPlayerId : string;
  toPlayerId : string;
  timestamp : Z;
  timing : RelayTiming
}.

(** What the coordinator hands to its collaborators, in call order:
    [hapticController.play], [hapticController.broadcast],
    [MetaHorizon.sendTo] and [MetaHorizon.broadcast].  Console output and
    sound playback return nothing and are not recorded.  A list of player
    ids taken from a participant set is in the order of [elements], not in
    the insertion order of the JavaScript [Set]. *)
Inductive Message :=
| challenge_activated (challengeId : string) (type : CollabChallengeType)
                      (required : Z)
| challenge_completed (challengeId : string) (who : list string)
| challenge_reward (challengeId : string) (type : CollabChallengeType)
                   (who : list string) (points : Z)
| touch_event (playerId : string) (stamp : Z) (touching : bool)
| haptic_event (pattern : HapticPattern) (stamp : Z).

Inductive Effect :=
| HapticPlay (pattern : HapticPattern)
| HapticBroadcast (pattern : HapticPattern) (who : list string)
| NetSendTo (who : list string) (m : Message)
| NetBroadcast (m : Message)
| RelayEffect (e : RelayEvent).

Record CollaborationSystem := mkSystem {
  challenges : list CollabChallenge;
  activePlayers : gmap string Player;
  relayChain : list string;
  relayMultiplier : Q;
  playerTouches : gmap string Z;
  (** [MetaHorizon.getLocalPlayer().id], read by [sendHapticToPlayer] *)
  localPlayerId : string;
  (** the calls made to the collaborators so far, oldest first *)
  outbox : list Effect
}.

(** [new CollaborationSystem(hapticController)] *)
Definition init (localId : string) : CollaborationSystem :=
  {| challenges := []; activePlayers := ∅; relayChain := [];
     relayMultiplier := 1; playerTouches := ∅;
     localPlayerId := localId; outbox := [] |}.

(** ** Field updates *)

Definition with_participants (ps : gset string) (c : CollabChallenge) :=
  {| cid := cid c; ctype := ctype c; requiredPlayers := requiredPlayers c;
     participants := ps; isActive := isActive c;
     isCompleted := isCompleted c; startTime := startTime c;
     cposition := cposition c; proximityRadius := proximityRadius c |}.

Definition with_touch (touching : bool) (ts : option Z) (p : Player) :=
  {| id := id p; name := name p; position := position p;
     isTouching := touching; touchTimestamp := ts; deviceId := deviceId p |}.

(** ** registerPlayer / unregisterPlayer *)

Definition registerPlayer (player : Player) (s : CollaborationSystem)
  : CollaborationSystem :=
  {| challenges := challenges s;
     activePlayers := <[id player := player]> (activePlayers s);
     relayChain := relayChain s; relayMultiplier := relayMultiplier s;
     playerTouches := playerTouches s;
     localPlayerId := localPlayerId s; outbox := outbox s |}.

Definition unregisterPlayer (playerId : string) (s : CollaborationSystem)
  : CollaborationSystem :=
  {| challenges :=
       map (fun c => with_participants (participants c ∖ {[playerId]}) c)
           (challenges s);
     activePlayers := delete playerId (activePlayers s);
     relayChain := relayChain s; relayMultiplier := relayMultiplier s;
     playerTouches := delete playerId (playerTouches s);
     localPlayerId := localPlayerId s; outbox := outbox s |}.

(** ** createChallenge

    [generateChallengeId] reads the clock and [Math.random]; the generated
    identifier is the argument [newId].  [Map.set] replaces the value of a
    key that is present and appends a new key otherwise. *)

Fixpoint challenges_set (c : CollabChallenge) (l : list CollabChallenge)
  : list CollabChallenge :=
  match l with
  | [] => [c]
  | d :: l' =>
      if String.eqb (cid d) (cid c) then c :: l'
      else d :: challenges_set c l'
  end.

Definition createChallenge (newId : string) (type : CollabChallengeType)
    (pos : Vector3) (required : Z) (s : CollaborationSystem)
  : CollaborationSystem :=
  let challenge :=
    {| cid := newId; ctype := type; requiredPlayers := required;
       participants := ∅; isActive := false; isCompleted := false;
       startTime := None; cposition := pos;
       proximityRadius := COLLAB_CONFIG.PROXIMITY_RADIUS |} in
  {| challenges := challenges_set challenge (challenges s);
     activePlayers := activePlayers s;
     relayChain := relayChain s; relayMultiplier := relayMultiplier s;
     playerTouches := playerTouches s;
     localPlayerId := localPlayerId s; outbox := outbox s |}.

(** ** sendHapticToPlayer *)

Definition sendHapticToPlayer (localId playerId : string)
    (pattern : HapticPattern) (now : Z) : Effect :=
  if String.eqb playerId localId then HapticPlay pattern
  else NetSendTo [playerId] (haptic_event pattern now).

(** ** updatePlayerProximity / activateChallenge *)

Definition activateChallenge (localId : string) (now : Z)
    (c : CollabChallenge) : CollabChallenge * list Effect :=
  ({| cid := cid c; ctype := ctype c; requiredPlayers := requiredPlayers c;
      participants := participants c; isActive := true;
      isCompleted := isCompleted c; startTime := Some now;
      cposition := cposition c; proximityRadius := proximityRadius c |},
   NetSendTo (elements (participants c))
             (challenge_activated (cid c) (ctype c) (requiredPlayers c))
   :: map (fun p => sendHapticToPlayer localId p COLLABORATION_START now)
          (elements (participants c))).

(** The participant set recomputed from scratch: the [id] of every active
    player within the radius of the challenge. *)
Definition nearby (players : gmap string Player) (c : CollabChallenge)
  : gset string :=
  list_to_set
    (map id
       (filter (fun p => distance_le (position p) (cposition c)
                             (proximityRadius c) = true)
               (map snd (map_to_list players)))).

Definition proximity_one (players : gmap string Player) (localId : string)
    (now : Z) (c : CollabChallenge) : CollabChallenge * list Effect :=
  if isCompleted c then (c, [])
  else
    let c1 := with_participants (nearby players c) c in
    if (requiredPlayers c1 <=? Z.of_nat (size (participants c1)))
       && negb (isActive c1)
    then activateChallenge localId now c1
    else (c1, []).

Definition updatePlayerProximity (now : Z) (s : CollaborationSystem)
  : CollaborationSystem :=
  let rs := map (proximity_one (activePlayers s) (localPlayerId s) now)
                (challenges s) in
  {| challenges := map fst rs;
     activePlayers := activePlayers s;
     relayChain := relayChain s; relayMultiplier := relayMultiplier s;
     playerTouches := playerTouches s;
     localPlayerId := localPlayerId s;
     outbox := outbox s ++ concat (map snd rs) |}.

(** ** completeChallenge *)

Definition completeChallenge (c : CollabChallenge)
  : CollabChallenge * list Effect :=
  ({| cid := cid c; ctype := ctype c; requiredPlayers := requiredPlayers c;
      participants := participants c; isActive := false;
      isCompleted := true; startTime := startTime c;
      cposition := cposition c; proximityRadius := proximityRadius c |},
   [ HapticBroadcast SUCCESS (elements (participants c));
     NetBroadcast (challenge_reward (cid c) (ctype c)
                     (elements (participants c))
                     (100 * requiredPlayers c));
     NetSendTo (elements (participants c))
               (challenge_completed (cid c) (elements (participants c))) ]).

(** ** checkTouchSynchronization

    [Math.min(...ts)] and [Math.max(...ts)] of a non-empty list.  The
    empty list cannot reach them: fewer than two player ids return
    [false] first. *)
Definition Math_min (t : Z) (ts : list Z) : Z := fold_right Z.min t ts.
Definition Math_max (t : Z) (ts : list Z) : Z := fold_right Z.max t ts.

Definition checkTouchSynchronization (touches : gmap string Z)
    (playerIds : list string) : bool :=
  if (length playerIds <? 2)%nat then false
  else
    let timestamps := omap (fun i => touches !! i) playerIds in
    if (length timestamps <? length playerIds)%nat then false
    else
      match timestamps with
      | [] => false
      | t :: ts =>
          let minTime := Math_min t ts in
          let maxTime := Math_max t ts in
          let timeDiff := maxTime - minTime in
          timeDiff <=? COLLAB_CONFIG.MAX_SYNC_DELAY
      end.

(** ** checkSynchronizedTouch *)

Definition touchingPlayers (touches : gmap string Z) (c : CollabChallenge)
  : list string :=
  filter (fun p => is_Some (touches !! p)) (elements (participants c)).

Definition check_one (touches : gmap string Z) (c : CollabChallenge)
  : CollabChallenge * list Effect :=
  if negb (is_synchronized_touch (ctype c)) || negb (isActive c)
     || isCompleted c
  then (c, [])
  else
    let touching := touchingPlayers touches c in
    if requiredPlayers c <=? Z.of_nat (length touching) then
      if checkTouchSynchronization touches touching
      then completeChallenge c
      else (c, [])
    else (c, []).

Definition checkSynchronizedTouch (s : CollaborationSystem)
  : CollaborationSystem :=
  let rs := map (check_one (playerTouches s)) (challenges s) in
  {| challenges := map fst rs;
     activePlayers := activePlayers s;
     relayChain := relayChain s; relayMultiplier := relayMultiplier s;
     playerTouches := playerTouches s;
     localPlayerId := localPlayerId s;
     outbox := outbox s ++ concat (map snd rs) |}.

(** ** onPlayerTouch / onPlayerTouchRelease *)

Definition onPlayerTouch (playerId : string) (now : Z)
    (s : CollaborationSystem) : CollaborationSystem :=
  match activePlayers s !! playerId with
  | None => s
  | Some player =>
      let stamp := now in
      let s1 :=
        {| challenges := challenges s;
           activePlayers :=
             <[playerId := with_touch true (Some stamp) player]>
               (activePlayers s);
           relayChain := relayChain s;
           relayMultiplier := relayMultiplier s;
           playerTouches := <[playerId := stamp]> (playerTouches s);
           localPlayerId := localPlayerId s; outbox := outbox s |} in
      let s2 := checkSynchronizedTouch s1 in
      {| challenges := challenges s2;
         activePlayers := activePlayers s2;
         relayChain := relayChain s2;
         relayMultiplier := relayMultiplier s2;
         playerTouches := playerTouches s2;
         localPlayerId := localPlayerId s2;
         outbox := outbox s2
                   ++ [NetBroadcast (touch_event playerId stamp true)] |}
  end.

Definition onPlayerTouchRelease (playerId : string)
    (s : CollaborationSystem) : CollaborationSystem :=
  match activePlayers s !! playerId with
  | None => s
  | Some player =>
      {| challenges := challenges s;
         activePlayers :=
           <[playerId := with_touch false None player]> (activePlayers s);
         relayChain := relayChain s;
         relayMultiplier := relayMultiplier s;
         playerTouches := delete playerId (playerTouches s);
         localPlayerId := localPlayerId s; outbox := outbox s |}
  end.

(** ** initiateEnergyRelay *)

Definition getRelayHapticPattern (t : RelayTiming) : HapticPattern :=
  match t with
  | PERFECT => RELAY_PERFECT
  | GOOD => RELAY_GOOD
  | MISS => RELAY_MISS
  end.

(** The reference time of the next hand-off: the touch-map entry of the
    last player pushed on the chain.  [if (lastRelayTime)] is false for
    [undefined] and for the number [0]. *)
Definition lastRelayTime (s : CollaborationSystem) : option Z :=
  match last (relayChain s) with
  | None => None
  | Some p =>
      match playerTouches s !! p with
      | None => None
      | Some t => if t =? 0 then None else Some t
      end
  end.

(** The block that computes [timing] and updates [relayMultiplier]. *)
Definition classifyRelay (s : CollaborationSystem) (now : Z)
  : RelayTiming * Q :=
  match lastRelayTime s with
  | None => (GOOD, relayMultiplier s)
  | Some t =>
      let timeDiff := now - t in
      if timeDiff <? COLLAB_CONFIG.PERFECT_TIMING_THRESHOLD
      then (PERFECT, (relayMultiplier s + (1 # 2))%Q)
      else if timeDiff <? COLLAB_CONFIG.GOOD_TIMING_THRESHOLD
      then (GOOD, relayMultiplier s)
      else (MISS, 1%Q)
  end.

Definition initiateEnergyRelay (fromId toId : string) (now : Z)
    (s : CollaborationSystem) : CollaborationSystem :=
  match activePlayers s !! fromId, activePlayers s !! toId with
  | Some _, Some _ =>
      let stamp := now in
      let '(tm, mult) := classifyRelay s stamp in
      {| challenges := challenges s;
         activePlayers := activePlayers s;
         relayChain := relayChain s ++ [toId];
         relayMultiplier := mult;
         playerTouches := <[toId := stamp]> (playerTouches s);
         localPlayerId := localPlayerId s;
         outbox := outbox s
           ++ [ RelayEffect {| fromPlayerId := fromId; toPlayerId := toId;
                               timestamp := stamp; timing := tm |};
                sendHapticToPlayer (localPlayerId s) toId
                  (getRelayHapticPattern tm) now ] |}
  | _, _ => s
  end.

(** ** resetRelayChain and the getters *)

Definition resetRelayChain (s : CollaborationSystem) : CollaborationSystem :=
  {| challenges := challenges s;
     activePlayers := activePlayers s;
     relayChain := []; relayMultiplier := 1;
     playerTouches := playerTouches s;
     localPlayerId := localPlayerId s; outbox := outbox s |}.

Definition getChallenge (i : string) (s : CollaborationSystem)
  : option CollabChallenge :=
  List.find (fun c => String.eqb (cid c) i) (challenges s).

Definition getActiveChallenges (s : CollaborationSystem)
  : list CollabChallenge :=
  List.filter isActive (challenges s).

Definition getRelayMultiplier (s : CollaborationSystem) : Q :=
  relayMultiplier s.

(** ** The public interface as a labelled transition system *)

Inductive Op :=
| RegisterPlayer (p : Player)
| UnregisterPlayer (playerId : string)
| CreateChallenge (newId : string) (type : CollabChallengeType)
                  (pos : Vector3) (required : Z)
| UpdatePlayerProximity (now : Z)
| OnPlayerTouch (playerId : string) (now : Z)
| OnPlayerTouchRelease (playerId : string)
| InitiateEnergyRelay (fromId toId : string) (now : Z)
| ResetRelayChain.

Definition step (o : Op) (s : CollaborationSystem) : CollaborationSystem :=
  match o with
  | RegisterPlayer p => registerPlayer p s
  | UnregisterPlayer i => unregisterPlayer i s
  | CreateChallenge i t pos r => createChallenge i t pos r s
  | UpdatePlayerProximity now => updatePlayerProximity now s
  | OnPlayerTouch i now => onPlayerTouch i now s
  | OnPlayerTouchRelease i => onPlayerTouchRelease i s
  | InitiateEnergyRelay a b now => initiateEnergyRelay a b now s
  | ResetRelayChain => resetRelayChain s
  end.

Definition run (ops : list Op) (s : CollaborationSystem)
  : CollaborationSystem :=
  fold_left (fun st o => step o st) ops s.

End Collab.

(* ===================================================================== *)
(** * systems/NetworkManager.ts *)
(* ===================================================================== *)

Module Net.

Inductive NetworkEventType :=
| PLAYER_JOIN | PLAYER_LEAVE | PLAYER_MOVE
| PORTAL_CREATE | PORTAL_ACTIVATE | PORTAL_TRAVERSE
| ENERGY_COLLECT | TOUCH_EVENT | HAPTIC_EVENT
| COLLAB_START | COLLAB_COMPLETE | CHAT_MESSAGE.

#[export] Instance NetworkEventType_eq_dec : EqDecision NetworkEventType.
Proof. solve_decision. Defined.

Definition type_code (t : NetworkEventType) : nat :=
  match t with
  | PLAYER_JOIN => 0 | PLAYER_LEAVE => 1 | PLAYER_MOVE => 2
  | PORTAL_CREATE => 3 | PORTAL_ACTIVATE => 4 | PORTAL_TRAVERSE => 5
  | ENERGY_COLLECT => 6 | TOUCH_EVENT => 7 | HAPTIC_EVENT => 8
  | COLLAB_START => 9 | COLLAB_COMPLETE => 10 | CHAT_MESSAGE => 11
  end.

Definition type_of_code (n : nat) : NetworkEventType :=
  match n with
  | 0 => PLAYER_JOIN | 1 => PLAYER_LEAVE | 2 => PLAYER_MOVE
  | 3 => PORTAL_CREATE | 4 => PORTAL_ACTIVATE | 5 => PORTAL_TRAVERSE
  | 6 => ENERGY_COLLECT | 7 => TOUCH_EVENT | 8 => HAPTIC_EVENT
  | 9 => COLLAB_START | 10 => COLLAB_COMPLETE | _ => CHAT_MESSAGE
  end.

#[export] Instance NetworkEventType_countable : Countable NetworkEventType.
Proof.
  apply (inj_countable' type_code type_of_code). intros []; reflexivity.
Defined.

Section Bus.

(** [Data] is the payload ([data: any]); [World] is whatever the
    registered handlers act on.  A handler does not call back into the
    manager. *)
Context {Data World : Type}.

Record NetworkEvent := mkNetworkEvent {
  type : NetworkEventType;
  senderId : string;
  timestamp : Z;
  data : Data
}.

Definition NetworkEventCallback := NetworkEvent -> World -> World.

Record NetworkManager := mkNetworkManager {
  localPlayerId : string;
  eventCallbacks : gmap NetworkEventType (list NetworkEventCallback);
  isConnected : bool;
  pendingEvents : list NetworkEvent
}.

(** [new NetworkManager(localPlayerId)]; [initialize] connects. *)
Definition create (localId : string) : NetworkManager :=
  {| localPlayerId := localId; eventCallbacks := ∅; isConnected := true;
     pendingEvents := [] |}.

Definition on (t : NetworkEventType) (callback : NetworkEventCallback)
    (nm : NetworkManager) : NetworkManager :=
  {| localPlayerId := localPlayerId nm;
     eventCallbacks :=
       <[t := default [] (eventCallbacks nm !! t) ++ [callback]]>
         (eventCallbacks nm);
     isConnected := isConnected nm;
     pendingEvents := pendingEvents nm |}.

(** [callbacks.forEach(callback => callback(event))] *)
Definition handleNetworkEvent (nm : NetworkManager) (event : NetworkEvent)
    (w : World) : World :=
  fold_left (fun w' callback => callback event w')
            (default [] (eventCallbacks nm !! type event)) w.

(** The [while] loop that shifts the queue until it is empty. *)
Definition processPendingEvents (nm : NetworkManager) (w : World)
  : NetworkManager * World :=
  ({| localPlayerId := localPlayerId nm;
      eventCallbacks := eventCallbacks nm;
      isConnected := isConnected nm;
      pendingEvents := [] |},
   fold_left (fun w' event => handleNetworkEvent nm event w')
             (pendingEvents nm) w).

(** The periodic tick. *)
Definition update (nm : NetworkManager) (w : World)
  : NetworkManager * World :=
  if isConnected nm then processPendingEvents nm w else (nm, w).

Definition receiveEvent (event : NetworkEvent) (nm : NetworkManager)
  : NetworkManager :=
  if String.eqb (senderId event) (localPlayerId nm) then nm
  else
    {| localPlayerId := localPlayerId nm;
       eventCallbacks := eventCallbacks nm;
       isConnected := isConnected nm;
       pendingEvents := pendingEvents nm ++ [event] |}.

(** The envelope built by [sendEvent]. *)
Definition sendEvent (t : NetworkEventType) (d : Data) (now : Z)
    (nm : NetworkManager) : NetworkEvent :=
  {| type := t; senderId := localPlayerId nm; timestamp := now; data := d |}.

End Bus.

Arguments NetworkEvent : clear implicits.
Arguments NetworkManager : clear implicits.
Arguments NetworkEventCallback : clear implicits.


End Net.

(* ===================================================================== *)
(** * core/InputController.ts: touch tracking and discrete gestures

    The continuous classifiers (swipe, pinch, zoom, rotate) only emit
    events of their own types and write the pinch and rotation baselines,
    which the code below never reads; they are left out of this module.
    Registered callbacks are taken to return normally here: an emitted
    event is appended to [emitted].  Module [Dispatch] treats callbacks. *)
(* ===================================================================== *)

Module Input.
Import Constants.

Local Open Scope Z_scope.

Record Vector2 := mkVector2 { x : Q; y : Q }.

Definition subtract (a b : Vector2) : Vector2 :=
  mkVector2 (x a - x b) (y a - y b).

(** [Vector2.distance(a, b) < r], the square root removed by squaring. *)
Definition distance_lt (a b : Vector2) (r : Q) : bool :=
  let dx := (x a - x b)%Q in
  let dy := (y a - y b)%Q in
  negb (Qle_bool r 0) && negb (Qle_bool (r * r) (dx * dx + dy * dy)).

Module TouchPoint.
Record t := mk {
  (** identity of the JavaScript object: [onTouchStart] allocates a new
      object for every contact, and the deferred tap closure and the
      emitted events hold references to it *)
  obj : nat;
  id : Z;
  position : Vector2;
  startPosition : Vector2;
  deltaPosition : Vector2;
  velocity : Vector2;
  timestamp : Z;
  startTime : Z;
  duration : Z;
  tapCount : Z
}.
End TouchPoint.

Module GestureEvent.
Record t := mk {
  type : GestureType;
  touchPoints : list TouchPoint.t;
  position : Vector2;
  delta : option Vector2;
  scale : option Q;
  rotation : option Q;
  velocity : option Vector2
}.
End GestureEvent.

(** A DOM [Touch] of [event.changedTouches]. *)
Record Touch := mkTouch { identifier : Z; clientX : Q; clientY : Q }.

Record InputController := mkInputController {
  touchPoints : gmap Z TouchPoint.t;
  lastTapTime : Z;
  lastTapPosition : option Vector2;
  tapCount : Z;
  swipePoints : list Vector2;
  (** pending [setTimeout] callbacks, oldest first: the time at which each
      becomes due and the touch point its closure captured *)
  timers : list (Z * TouchPoint.t);
  (** the next object identity *)
  nextObj : nat;
  (** the events passed to [emitGesture], oldest first *)
  emitted : list GestureEvent.t
}.

Definition create : InputController :=
  {| touchPoints := ∅; lastTapTime := 0; lastTapPosition := None;
     tapCount := 0; swipePoints := []; timers := []; nextObj := 0%nat;
     emitted := [] |}.

(** ** Field updates *)

Definition set_touchPoints (m : gmap Z TouchPoint.t) (c : InputController) :=
  {| touchPoints := m; lastTapTime := lastTapTime c;
     lastTapPosition := lastTapPosition c; tapCount := tapCount c;
     swipePoints := swipePoints c; timers := timers c;
     nextObj := nextObj c; emitted := emitted c |}.

Definition set_tap (time : Z) (pos : option Vector2) (count : Z)
    (c : InputController) :=
  {| touchPoints := touchPoints c; lastTapTime := time;
     lastTapPosition := pos; tapCount := count;
     swipePoints := swipePoints c; timers := timers c;
     nextObj := nextObj c; emitted := emitted c |}.

Definition set_swipePoints (l : list Vector2) (c : InputController) :=
  {| touchPoints := touchPoints c; lastTapTime := lastTapTime c;
     lastTapPosition := lastTapPosition c; tapCount := tapCount c;
     swipePoints := l; timers := timers c;
     nextObj := nextObj c; emitted := emitted c |}.

Definition set_timers (l : list (Z * TouchPoint.t)) (c : InputController) :=
  {| touchPoints := touchPoints c; lastTapTime := lastTapTime c;
     lastTapPosition := lastTapPosition c; tapCount := tapCount c;
     swipePoints := swipePoints c; timers := l;
     nextObj := nextObj c; emitted := emitted c |}.

Definition set_nextObj (n : nat) (c : InputController) :=
  {| touchPoints := touchPoints c; lastTapTime := lastTapTime c;
     lastTapPosition := lastTapPosition c; tapCount := tapCount c;
     swipePoints := swipePoints c; timers := timers c;
     nextObj := n; emitted := emitted c |}.

(** ** emitGesture *)

Definition emitGesture (event : GestureEvent.t) (c : InputController) :=
  {| touchPoints := touchPoints c; lastTapTime := lastTapTime c;
     lastTapPosition := lastTapPosition c; tapCount := tapCount c;
     swipePoints := swipePoints c; timers := timers c;
     nextObj := nextObj c; emitted := emitted c ++ [event] |}.

(** The event literal of the three discrete gestures. *)
Definition discrete (g : GestureType) (touchPoint : TouchPoint.t)
  : GestureEvent.t :=
  {| GestureEvent.type := g;
     GestureEvent.touchPoints := [touchPoint];
     GestureEvent.position := TouchPoint.position touchPoint;
     GestureEvent.delta := None; GestureEvent.scale := None;
     GestureEvent.rotation := None; GestureEvent.velocity := None |}.

(** ** onTouchStart *)

Definition start_one (now : Z) (c : InputController) (touch : Touch)
  : InputController :=
  let position := mkVector2 (clientX touch) (clientY touch) in
  let touchPoint :=
    {| TouchPoint.obj := nextObj c;
       TouchPoint.id := identifier touch;
       TouchPoint.position := position;
       TouchPoint.startPosition := position;
       TouchPoint.deltaPosition := mkVector2 0 0;
       TouchPoint.velocity := mkVector2 0 0;
       TouchPoint.timestamp := now;
       TouchPoint.startTime := now;
       TouchPoint.duration := 0;
       TouchPoint.tapCount := 0 |} in
  set_nextObj (S (nextObj c))
    (set_touchPoints (<[identifier touch := touchPoint]> (touchPoints c)) c).

Definition onTouchStart (changedTouches : list Touch) (now : Z)
    (c : InputController) : InputController :=
  set_swipePoints [] (fold_left (start_one now) changedTouches c).

(** ** onTouchMove *)

Definition move_one (now : Z) (c : InputController) (touch : Touch)
  : InputController :=
  match touchPoints c !! identifier touch with
  | None => c
  | Some touchPoint =>
      let newPosition := mkVector2 (clientX touch) (clientY touch) in
      let deltaPosition :=
        subtract newPosition (TouchPoint.position touchPoint) in
      let deltaTime :=
        (inject_Z (now - TouchPoint.timestamp touchPoint) / 1000)%Q in
      let velocity :=
        if negb (Qle_bool deltaTime 0)
        then mkVector2 (x deltaPosition / deltaTime)
                       (y deltaPosition / deltaTime)
        else mkVector2 0 0 in
      let moved :=
        {| TouchPoint.obj := TouchPoint.obj touchPoint;
           TouchPoint.id := TouchPoint.id touchPoint;
           TouchPoint.position := newPosition;
           TouchPoint.startPosition := TouchPoint.startPosition touchPoint;
           TouchPoint.deltaPosition := deltaPosition;
           TouchPoint.velocity := velocity;
           TouchPoint.timestamp := now;
           TouchPoint.startTime := TouchPoint.startTime touchPoint;
           TouchPoint.duration := now - TouchPoint.startTime touchPoint;
           TouchPoint.tapCount := TouchPoint.tapCount touchPoint |} in
      let pushed := swipePoints c ++ [newPosition] in
      set_swipePoints
        (if (50 <? length pushed)%nat then tail pushed else pushed)
        (set_touchPoints (<[identifier touch := moved]> (touchPoints c)) c)
  end.

Definition onTouchMove (changedTouches : list Touch) (now : Z)
    (c : InputController) : InputController :=
  fold_left (move_one now) changedTouches c.

(** ** recognizeTap *)

(** The condition of the double-tap branch: a previous tap position
    exists, it is closer than 30, and less than [DOUBLE_TAP_INTERVAL] has
    passed since the previous tap. *)
Definition doubleTapCandidate (position : Vector2) (currentTime : Z)
    (c : InputController) : bool :=
  match lastTapPosition c with
  | None => false
  | Some lastPos =>
      distance_lt position lastPos 30
      && (currentTime - lastTapTime c
          <? GESTURE_THRESHOLDS.DOUBLE_TAP_INTERVAL)
  end.

Definition recognizeTap (touchPoint : TouchPoint.t) (now : Z)
    (c : InputController) : InputController :=
  let currentTime := now in
  let c1 :=
    if doubleTapCandidate (TouchPoint.position touchPoint) currentTime c then
      let count := tapCount c + 1 in
      if count =? 2 then
        set_tap (lastTapTime c) (lastTapPosition c) 0
          (emitGesture (discrete DOUBLE_TAP touchPoint)
             (set_tap (lastTapTime c) (lastTapPosition c) count c))
      else set_tap (lastTapTime c) (lastTapPosition c) count c
    else
      set_timers
        (timers c
         ++ [(currentTime + GESTURE_THRESHOLDS.DOUBLE_TAP_INTERVAL,
              touchPoint)])
        (set_tap (lastTapTime c) (lastTapPosition c) 1 c) in
  set_tap currentTime (Some (TouchPoint.position touchPoint)) (tapCount c1) c1.

(** The body of the deferred callback scheduled by [recognizeTap]. *)
Definition tapTimeout (touchPoint : TouchPoint.t) (c : InputController)
  : InputController :=
  if tapCount c =? 1 then emitGesture (discrete TAP touchPoint) c else c.

(** ** recognizeDiscreteGestures *)

Definition recognizeDiscreteGestures (touchPoint : TouchPoint.t) (now : Z)
    (c : InputController) : InputController :=
  let c1 :=
    if TouchPoint.duration touchPoint <? GESTURE_THRESHOLDS.TAP_DURATION
    then
      if distance_lt (TouchPoint.position touchPoint)
                     (TouchPoint.startPosition touchPoint) 10
      then recognizeTap touchPoint now c
      else c
    else c in
  if GESTURE_THRESHOLDS.LONG_PRESS_DURATION <? TouchPoint.duration touchPoint
  then emitGesture (discrete LONG_PRESS touchPoint) c1
  else c1.

(** ** onTouchEnd / onTouchCancel *)

(** [touchPoint.duration = currentTime - touchPoint.startTime] *)
Definition endedAt (currentTime : Z) (touchPoint : TouchPoint.t)
  : TouchPoint.t :=
  {| TouchPoint.obj := TouchPoint.obj touchPoint;
     TouchPoint.id := TouchPoint.id touchPoint;
     TouchPoint.position := TouchPoint.position touchPoint;
     TouchPoint.startPosition := TouchPoint.startPosition touchPoint;
     TouchPoint.deltaPosition := TouchPoint.deltaPosition touchPoint;
     TouchPoint.velocity := TouchPoint.velocity touchPoint;
     TouchPoint.timestamp := TouchPoint.timestamp touchPoint;
     TouchPoint.startTime := TouchPoint.startTime touchPoint;
     TouchPoint.duration := currentTime - TouchPoint.startTime touchPoint;
     TouchPoint.tapCount := TouchPoint.tapCount touchPoint |}.

Definition end_one (now : Z) (c : InputController) (touch : Touch)
  : InputController :=
  match touchPoints c !! identifier touch with
  | None => c
  | Some touchPoint =>
      let c1 := recognizeDiscreteGestures (endedAt now touchPoint) now c in
      set_touchPoints (delete (identifier touch) (touchPoints c1)) c1
  end.

Definition onTouchEnd (changedTouches : list Touch) (now : Z)
    (c : InputController) : InputController :=
  fold_left (end_one now) changedTouches c.

Definition cancel_one (c : InputController) (touch : Touch)
  : InputController :=
  set_touchPoints (delete (identifier touch) (touchPoints c)) c.

Definition onTouchCancel (changedTouches : list Touch)
    (c : InputController) : InputController :=
  fold_left cancel_one changedTouches c.

(** ** clear *)

Definition clear (c : InputController) : InputController :=
  set_swipePoints [] (set_touchPoints ∅ c).

(** ** The timer queue

    At time [now] the host runs, oldest first, the callbacks whose delay
    has elapsed.  A callback that is due runs before any input that is
    handled at or after [now]. *)
Definition is_due (now : Z) (entry : Z * TouchPoint.t) : bool :=
  fst entry <=? now.

Definition runTimers (now : Z) (c : InputController) : InputController :=
  fold_left (fun c' entry => tapTimeout (snd entry) c')
            (List.filter (is_due now) (timers c))
            (set_timers
               (List.filter (fun e => negb (is_due now e)) (timers c)) c).

(** ** The input stream *)

Inductive Input :=
| TouchStart (changedTouches : list Touch) (now : Z)
| TouchMove (changedTouches : list Touch) (now : Z)
| TouchEnd (changedTouches : list Touch) (now : Z)
| TouchCancel (changedTouches : list Touch)
| Clear
| Timeout (now : Z).

Definition step (i : Input) (c : InputController) : InputController :=
  match i with
  | TouchStart l now => onTouchStart l now c
  | TouchMove l now => onTouchMove l now c
  | TouchEnd l now => onTouchEnd l now c
  | TouchCancel l => onTouchCancel l c
  | Clear => clear c
  | Timeout now => runTimers now c
  end.

Definition run (inputs : list Input) (c : InputController)
  : InputController :=
  fold_left (fun c' i => step i c') inputs c.

(** ** Counting the discrete gestures of one contact *)

Definition carries (o : nat) (e : GestureEvent.t) : bool :=
  existsb (fun tp => Nat.eqb (TouchPoint.obj tp) o)
          (GestureEvent.touchPoints e).

Definition is_tap_or_double (g : GestureType) : bool :=
  match g with TAP | DOUBLE_TAP => true | _ => false end.

Definition is_long_press (g : GestureType) : bool :=
  match g with LONG_PRESS => true | _ => false end.

Definition taps_of (o : nat) (c : InputController) : nat :=
  length (List.filter
            (fun e => is_tap_or_double (GestureEvent.type e) && carries o e)
            (emitted c)).

Definition long_presses_of (o : nat) (c : InputController) : nat :=
  length (List.filter
            (fun e => is_long_press (GestureEvent.type e) && carries o e)
            (emitted c)).

Definition count_type (g : GestureType) (l : list GestureEvent.t) : nat :=
  length (List.filter
            (fun e => bool_decide (GestureEvent.type e = g)) l).

End Input.

(* ===================================================================== *)
(** * core/InputController.ts: on / off / emitGesture

    A callback acts on a [World] and either returns or throws; what it did
    before throwing stays done.  [ref] is the identity of the function
    object, which [off] looks up with [indexOf]. *)
(* ===================================================================== *)

Module Dispatch.
Import Constants.

Definition gesture_code (g : GestureType) : nat :=
  match g with
  | UNKNOWN => 0 | TAP => 1 | DOUBLE_TAP => 2 | LONG_PRESS => 3
  | SWIPE => 4 | PINCH => 5 | ZOOM => 6 | ROTATE => 7
  | TWO_FINGER_TAP => 8 | THREE_FINGER_PRESS => 9
  end.

Definition gesture_of_code (n : nat) : GestureType :=
  match n with
  | 0 => UNKNOWN | 1 => TAP | 2 => DOUBLE_TAP | 3 => LONG_PRESS
  | 4 => SWIPE | 5 => PINCH | 6 => ZOOM | 7 => ROTATE
  | 8 => TWO_FINGER_TAP | _ => THREE_FINGER_PRESS
  end.

#[export] Instance GestureType_countable : Countable GestureType.
Proof.
  apply (inj_countable' gesture_code gesture_of_code). intros []; reflexivity.
Defined.

Section Callbacks.

Context {World : Type}.

Inductive Completion :=
| Normal (w : World)
| Throw (error : string) (w : World).

Record GestureCallback := mkCallback {
  ref : nat;
  call : Input.GestureEvent.t -> World -> Completion
}.

(** [callbacks.forEach(callback => callback(event))]: an exception leaves
    the loop. *)
Fixpoint forEach (callbacks : list GestureCallback)
    (event : Input.GestureEvent.t) (w : World) : Completion :=
  match callbacks with
  | [] => Normal w
  | callback :: rest =>
      match call callback event w with
      | Normal w' => forEach rest event w'
      | Throw error w' => Throw error w'
      end
  end.

Definition emitGesture (gestureCallbacks : gmap GestureType (list GestureCallback))
    (event : Input.GestureEvent.t) (w : World) : Completion :=
  forEach (default [] (gestureCallbacks !! Input.GestureEvent.type event))
          event w.

Definition on (gestureType : GestureType) (callback : GestureCallback)
    (gestureCallbacks : gmap GestureType (list GestureCallback))
  : gmap GestureType (list GestureCallback) :=
  <[gestureType :=
      default [] (gestureCallbacks !! gestureType) ++ [callback]]>
    gestureCallbacks.



(** The callbacks that ran to completion or threw, in the order they were
    entered, when [callbacks] is dispatched from [w]. *)
Fixpoint entered (callbacks : list GestureCallback)
    (event : Input.GestureEvent.t) (w : World) : list nat :=
  match callbacks with
  | [] => []
  | callback :: rest =>
      ref callback ::
      match call callback event w with
      | Normal w' => entered rest event w'
      | Throw _ _ => []
      end
  end.

End Callbacks.

Arguments Completion : clear implicits.
Arguments GestureCallback : clear implicits.

End Dispatch.

(* ===================================================================== *)
(** * core/InputController.ts: two-finger rotation, over the reals *)
(* ===================================================================== *)

Module Rotation.

Local Open Scope R_scope.

Record Vector2 := mkVector2 { x : R; y : R }.

Definition midpoint (a b : Vector2) : Vector2 :=
  mkVector2 ((x a + x b) / 2) ((y a + y b) / 2).

(** [Math.atan2(y, x)] on real arguments: the angle of the point [(x, y)],
    in [(-PI, PI]]. *)
Definition atan2 (y x : R) : R :=
  if Rlt_dec 0 x then atan (y / x)
  else if Rlt_dec x 0 then
    if Rle_dec 0 y then atan (y / x) + PI else atan (y / x) - PI
  else if Rlt_dec 0 y then PI / 2
  else if Rlt_dec y 0 then - (PI / 2)
  else 0.

Definition calculateAngle (point1 point2 : Vector2) : R :=
  let dx := x point2 - x point1 in
  let dy := y point2 - y point1 in
  atan2 dy dx * (180 / PI).

Record RotationState := mkRotationState {
  initialRotationAngle : R;
  _currentRotationAngle : R
}.

(** The field initialisers of the class. *)
Definition create : RotationState :=
  {| initialRotationAngle := 0; _currentRotationAngle := 0 |}.

Record RotateEvent := mkRotateEvent {
  position : Vector2;
  rotation : R
}.

(** [touchArray] holds the positions of the active touch points, in the
    order of the touch map. *)
Definition initializeRotationGesture (touchArray : list Vector2)
    (s : RotationState) : RotationState :=
  match touchArray with
  | [p0; p1] =>
      {| initialRotationAngle := calculateAngle p0 p1;
         _currentRotationAngle := 0 |}
  | _ => s
  end.

(** The reset of [onTouchEnd] when fewer than two touches remain. *)
Definition resetRotation (s : RotationState) : RotationState :=
  {| initialRotationAngle := 0;
     _currentRotationAngle := _currentRotationAngle s |}.

(** The two normalisation statements, one after the other. *)
Definition normalize (angleDelta : R) : R :=
  let a1 := if Rgt_dec angleDelta 180 then angleDelta - 360 else angleDelta in
  if Rlt_dec a1 (-180) then a1 + 360 else a1.

Definition ROTATION_THRESHOLD : R :=
  IZR Constants.GESTURE_THRESHOLDS.ROTATION_THRESHOLD.

(** [initialRotationAngle] is a number, so the [=== null] branch of the
    source is never taken. *)
Definition recognizeRotationGesture (touchArray : list Vector2)
    (s : RotationState) : RotationState * option RotateEvent :=
  match touchArray with
  | [p0; p1] =>
      let currentAngle := calculateAngle p0 p1 in
      let angleDelta := normalize (currentAngle - initialRotationAngle s) in
      if Rgt_dec (Rabs angleDelta) ROTATION_THRESHOLD then
        ({| initialRotationAngle := initialRotationAngle s;
            _currentRotationAngle := angleDelta |},
         Some {| position := midpoint p0 p1; rotation := angleDelta |})
      else (s, None)
  | _ => (s, None)
  end.

End Rotation.

(** The arithmetic of the rotation classifier once more, on binary64
    numbers as the program runs it.  [Math.atan2] is not available here;
    [Math.atan2(0, -1)] is [Math.PI] and [Math.atan2(0, 1)] is [0]. *)
Module RotationBinary64.

Local Open Scope float_scope.

Definition Math_PI : float := 0x1.921fb54442d18p+1.

(** [radians * (180 / Math.PI)], the conversion in [calculateAngle] *)
Definition toDegrees (radians : float) : float := radians * (180 / Math_PI).

Definition normalize (angleDelta : float) : float :=
  let a1 := if 180 <? angleDelta then angleDelta - 360 else angleDelta in
  if a1 <? -180 then a1 + 360 else a1.

(** The value handed to [emitGesture], if any. *)
Definition emittedRotation (currentAngle initialRotationAngle : float)
  : option float :=
  let angleDelta := normalize (currentAngle - initialRotationAngle) in
  if 5 <? abs angleDelta then Some angleDelta else None.

End RotationBinary64.

(* ===================================================================== *)
(** * core/GameController.ts: the clock and the collaboration tap callback

    The methods of the coordinator take no time from their caller:
    [onPlayerTouch(playerId)], [initiateEnergyRelay(from, to)] and
    [activateChallenge] call [Date.now()] themselves.  Here the clock is
    part of the [World] the methods run in, and a [Call] names a public
    method with the arguments the source gives it. *)
(* ===================================================================== *)

Module Game.
Import Constants Collab.

Local Open Scope Z_scope.

Record World := mkWorld {
  (** what [Date.now()] returns *)
  clock : Z;
  (** what the next call of [getLocalPlayerId()] of the game controller
      returns: in the source a placeholder for the id the host API will
      supply, [local_player_] followed by nine characters drawn at random
      at every call *)
  getLocalPlayerId : string;
  collaborationSystem : CollaborationSystem
}.

(** The public methods of [CollaborationSystem] that change its state.
    [newId] is the identifier [generateChallengeId] produces. *)
Inductive Call :=
| Register (player : Player)
| Unregister (playerId : string)
| Create (newId : string) (type : CollabChallengeType) (position : Vector3)
         (requiredPlayers : Z)
| Proximity
| Touch (playerId : string)
| Release (playerId : string)
| Relay (fromPlayerId toPlayerId : string)
| ResetRelay.

(** The method call [c] when [Date.now()] reads [now]. *)
Definition at_reading (now : Z) (c : Call) : Op :=
  match c with
  | Register player => RegisterPlayer player
  | Unregister playerId => UnregisterPlayer playerId
  | Create newId type position requiredPlayers =>
      CreateChallenge newId type position requiredPlayers
  | Proximity => UpdatePlayerProximity now
  | Touch playerId => OnPlayerTouch playerId now
  | Release playerId => OnPlayerTouchRelease playerId
  | Relay fromPlayerId toPlayerId =>
      InitiateEnergyRelay fromPlayerId toPlayerId now
  | ResetRelay => ResetRelayChain
  end.

Definition call (c : Call) (w : World) : World :=
  {| clock := clock w; getLocalPlayerId := getLocalPlayerId w;
     collaborationSystem :=
       Collab.step (at_reading (clock w) c) (collaborationSystem w) |}.

(** The callback [setupInputHandlers] registers for TAP, "touch for
    collaboration":
    [(_event) => this.collaborationSystem.onPlayerTouch(this.getLocalPlayerId())]. *)
Definition touchForCollaboration (_event : Input.GestureEvent.t) (w : World)
  : World :=
  call (Touch (getLocalPlayerId w)) w.

(** What happens to a world: time passes, the identifier the next call of
    [getLocalPlayerId()] returns is drawn, the gesture dispatcher hands a
    TAP event to the callback, or a public method of the coordinator is
    called. *)
Inductive Input :=
| Elapse (ms : N)
| Identify (playerId : string)
| Tap (event : Input.GestureEvent.t)
| Invoke (c : Call).

Definition step (i : Input) (w : World) : World :=
  match i with
  | Elapse ms =>
      {| clock := clock w + Z.of_N ms;
         getLocalPlayerId := getLocalPlayerId w;
         collaborationSystem := collaborationSystem w |}
  | Identify playerId =>
      {| clock := clock w; getLocalPlayerId := playerId;
         collaborationSystem := collaborationSystem w |}
  | Tap event => touchForCollaboration event w
  | Invoke c => call c w
  end.

Definition run (inputs : list Input) (w : World) : World :=
  fold_left (fun w' i => step i w') inputs w.

End Game.

(* ===================================================================== *)
(** * A consumer of touch envelopes

    The repository registers no handler on the event bus: nothing under
    the sources calls [NetworkManager.on], and [handleNetworkEvent] is the
    only caller a handler would have. *)
(* ===================================================================== *)

Module Remote.
Import Net.




(** [receiveEvent] for each envelope of [events], in order. *)
Definition receiveAll {Data World : Type} (events : list (NetworkEvent Data))
    (nm : NetworkManager Data World) : NetworkManager Data World :=
  fold_left (fun nm' event => receiveEvent event nm') events nm.

End Remote.

(* ===================================================================== *)
(** * systems/NetworkManager.ts: disconnecting, and a bus in use *)
(* ===================================================================== *)

Module Link.
Import Net.

Section Bus.

Context {Data World : Type}.

(** [disconnect()].  The two player tables it also clears are not part of
    [NetworkManager] here. *)
Definition disconnect (nm : NetworkManager Data World)
  : NetworkManager Data World :=
  {| localPlayerId := localPlayerId nm;
     eventCallbacks := eventCallbacks nm;
     isConnected := false;
     pendingEvents := [] |}.

(** What happens to a manager and the world of its handlers.  The class
    has no method that connects again: [isConnected] becomes [true] in
    [initialize] only, which the constructor calls. *)
Inductive Action :=
| Receive (event : NetworkEvent Data)
| Tick
| On (t : NetworkEventType) (callback : NetworkEventCallback Data World)
| Disconnect.

Definition step (a : Action) (st : NetworkManager Data World * World)
  : NetworkManager Data World * World :=
  match a with
  | Receive event => (receiveEvent event (fst st), snd st)
  | Tick => update (fst st) (snd st)
  | On t callback => (on t callback (fst st), snd st)
  | Disconnect => (disconnect (fst st), snd st)
  end.

Definition run (actions : list Action)
    (st : NetworkManager Data World * World)
  : NetworkManager Data World * World :=
  fold_left (fun st' a => step a st') actions st.

End Bus.

Arguments Action : clear implicits.

End Link.

(* ===================================================================== *)
(** * systems/PerformanceMonitor.ts: automatic quality adjustment *)
(* ===================================================================== *)

Module Quality.

Local Open Scope Q_scope.

Inductive QualityPreset := LOW | MEDIUM | HIGH | AUTO.

#[export] Instance QualityPreset_eq_dec : EqDecision QualityPreset.
Proof. solve_decision. Defined.

Definition lowerQuality (current : QualityPreset) : QualityPreset :=
  match current with
  | HIGH => MEDIUM
  | MEDIUM => LOW
  | _ => LOW
  end.

Definition raiseQuality (current : QualityPreset) : QualityPreset :=
  match current with
  | LOW => MEDIUM
  | MEDIUM => HIGH
  | _ => HIGH
  end.

Record Monitor := mkMonitor {
  currentQuality : QualityPreset;
  autoQualityEnabled : bool
}.

(** The field initialisers of the class. *)
Definition create : Monitor :=
  {| currentQuality := AUTO; autoQualityEnabled := true |}.

Definition setQuality (quality : QualityPreset) (m : Monitor) : Monitor :=
  {| currentQuality := quality; autoQualityEnabled := autoQualityEnabled m |}.

Definition setAutoQuality (enabled : bool) (m : Monitor) : Monitor :=
  {| currentQuality := currentQuality m; autoQualityEnabled := enabled |}.

(** [adjustQuality]; [avgFps] is what [getAverageFPS()] returns. *)
Definition adjustQuality (avgFps : Q) (m : Monitor) : Monitor :=
  if negb (Qle_bool 45 avgFps)
     && negb (bool_decide (currentQuality m = LOW))
  then setQuality (lowerQuality (currentQuality m)) m
  else if negb (Qle_bool avgFps 58)
          && negb (bool_decide (currentQuality m = HIGH))
  then
    let higherQuality := raiseQuality (currentQuality m) in
    if negb (bool_decide (higherQuality = currentQuality m))
    then setQuality higherQuality m
    else m
  else m.

(** The last step of [updateFrame]. *)
Definition autoAdjust (avgFps : Q) (m : Monitor) : Monitor :=
  if autoQualityEnabled m then adjustQuality avgFps m else m.

End Quality.

(* ===================================================================== *)
(** * core/PortalManager.ts: creating a portal

    The preview, the particle boundary, sound and the network broadcast
    return nothing the manager reads and are left out; the haptic patterns
    it plays are recorded.  [validatePortal] reads the positions of the
    other portals and [MetaHorizon.raycast]; its outcome is an argument.
    Coordinates are left out: nothing here computes with them. *)
(* ===================================================================== *)

Module Portals.
Import Constants.

Local Open Scope Q_scope.

Definition MIN_RADIUS : Q := 1 # 2.
Definition MAX_RADIUS : Q := 5.
Definition BASE_RADIUS : Q := 2.

(** [Math.min] and [Math.max] of two numbers. *)
Definition Math_min (a b : Q) : Q := if Qle_bool a b then a else b.
Definition Math_max (a b : Q) : Q := if Qle_bool a b then b else a.

Record Portal := mkPortal {
  id : string;
  creatorId : string;
  (** [None] is [Quaternion.identity()], [Some angle] is
      [Quaternion.fromEuler(0, angle, 0)] *)
  rotation : option Q;
  radius : Q;
  isActive : bool;
  isValid : bool
}.

Record PortalManager := mkPortalManager {
  portals : gmap string Portal;
  currentPortal : option Portal;
  isCreatingPortal : bool;
  (** the patterns handed to [hapticController.play], oldest first *)
  played : list HapticPattern
}.

(** [new PortalManager(hapticController)] *)
Definition create : PortalManager :=
  {| portals := ∅; currentPortal := None; isCreatingPortal := false;
     played := [] |}.

Definition play (pattern : HapticPattern) (m : PortalManager)
  : PortalManager :=
  {| portals := portals m; currentPortal := currentPortal m;
     isCreatingPortal := isCreatingPortal m;
     played := played m ++ [pattern] |}.

Definition set_currentPortal (p : option Portal) (creating : bool)
    (m : PortalManager) : PortalManager :=
  {| portals := portals m; currentPortal := p; isCreatingPortal := creating;
     played := played m |}.

(** [newId] is what [generatePortalId] returns. *)
Definition startPortalCreation (newId playerId : string) (m : PortalManager)
  : PortalManager :=
  set_currentPortal
    (Some {| id := newId; creatorId := playerId; rotation := None;
             radius := BASE_RADIUS; isActive := false; isValid := false |})
    true m.

Definition onPinchGesture (scale : Q) (m : PortalManager) : PortalManager :=
  match currentPortal m with
  | None => m
  | Some p =>
      let newRadius := BASE_RADIUS * scale in
      play PORTAL_RESIZE
        (set_currentPortal
           (Some {| id := id p; creatorId := creatorId p;
                    rotation := rotation p;
                    radius := Math_max MIN_RADIUS (Math_min MAX_RADIUS newRadius);
                    isActive := isActive p; isValid := isValid p |})
           (isCreatingPortal m) m)
  end.

Definition onRotateGesture (angle : Q) (m : PortalManager) : PortalManager :=
  match currentPortal m with
  | None => m
  | Some p =>
      play PORTAL_ROTATE
        (set_currentPortal
           (Some {| id := id p; creatorId := creatorId p;
                    rotation := Some angle; radius := radius p;
                    isActive := isActive p; isValid := isValid p |})
           (isCreatingPortal m) m)
  end.

Definition onSwipeGesture (m : PortalManager) : PortalManager :=
  match currentPortal m with
  | None => m
  | Some _ => play PORTAL_PAINT m
  end.

Definition activatePortal (p : Portal) (m : PortalManager) : PortalManager :=
  let portal :=
    {| id := id p; creatorId := creatorId p; rotation := rotation p;
       radius := radius p; isActive := true; isValid := true |} in
  {| portals := <[id portal := portal]> (portals m);
     currentPortal := None; isCreatingPortal := false;
     played := played m ++ [PORTAL_ACTIVATE] |}.

(** [valid] is what [validatePortal(this.currentPortal)] returns. *)
Definition onDoubleTap (valid : bool) (m : PortalManager) : PortalManager :=
  match currentPortal m with
  | None => m
  | Some p => if valid then activatePortal p m else play FAILURE m
  end.

Definition cancelPortalCreation (m : PortalManager) : PortalManager :=
  match currentPortal m with
  | None => m
  | Some _ => set_currentPortal None false m
  end.

Inductive Call :=
| Start (newId playerId : string)
| Pinch (scale : Q)
| Rotate (angle : Q)
| Swipe
| DoubleTap (valid : bool)
| Cancel.

Definition step (c : Call) (m : PortalManager) : PortalManager :=
  match c with
  | Start newId playerId => startPortalCreation newId playerId m
  | Pinch scale => onPinchGesture scale m
  | Rotate angle => onRotateGesture angle m
  | Swipe => onSwipeGesture m
  | DoubleTap valid => onDoubleTap valid m
  | Cancel => cancelPortalCreation m
  end.

Definition run (calls : list Call) (m : PortalManager) : PortalManager :=
  fold_left (fun m' c => step c m') calls m.

End Portals.

(* ===================================================================== *)
(** * The vocabulary of the properties and the scenarios they use *)
(* ===================================================================== *)

Module CollabSpec.
Import Constants Collab.

Local Open Scope Z_scope.

(** ** The words of the specification *)

(** The touch timestamps of the participants of [c] that have one. *)
Definition touchStamps (touches : gmap string Z) (c : CollabChallenge)
  : list Z :=
  omap (fun p => touches !! p) (elements (participants c)).

(** [max(timestamps) - min(timestamps)]; [0] when there is none. *)
Definition skew (stamps : list Z) : Z :=
  match stamps with
  | [] => 0
  | t :: ts => Math_max t ts - Math_min t ts
  end.

(** A challenge the synchronized-touch check looks at. *)
Definition open_sync (c : CollabChallenge) : Prop :=
  ctype c = SYNCHRONIZED_TOUCH /\ isActive c = true /\ isCompleted c = false.

(** Every player is stored under its own id. *)
Definition players_keyed (s : CollaborationSystem) : Prop :=
  forall k p, activePlayers s !! k = Some p -> id p = k.

(** [createChallenge] is given an identifier that is not in use. *)
Definition op_ok (o : Op) (s : CollaborationSystem) : Prop :=
  match o with
  | CreateChallenge i _ _ _ => forall d, d ∈ challenges s -> cid d <> i
  | _ => True
  end.

(** ** Scenarios built through the public interface *)

Definition origin : Vector3 := mkVector3 0 0 0.

Definition newPlayer (i : string) : Player :=
  {| id := i; name := i; position := origin; isTouching := false;
     touchTimestamp := None; deviceId := None |}.

(** Players [a] and [b] stand at a synchronized-touch challenge that asks
    for [required] players; one proximity tick has run at time 10. *)
Definition duo (required : Z) : CollaborationSystem :=
  run [ RegisterPlayer (newPlayer "a"); RegisterPlayer (newPlayer "b");
        CreateChallenge "c1" SYNCHRONIZED_TOUCH origin required;
        UpdatePlayerProximity 10 ]
      (init "a").

(** Player [a] alone at a challenge that asks for one player. *)
Definition solo : CollaborationSystem :=
  run [ RegisterPlayer (newPlayer "a");
        CreateChallenge "c1" SYNCHRONIZED_TOUCH origin 1;
        UpdatePlayerProximity 10 ]
      (init "a").

Definition completedFlags (s : CollaborationSystem) : list bool :=
  map isCompleted (challenges s).

(** The challenge of [duo 2] after its activation at time 10. *)
Definition duoChallenge : CollabChallenge :=
  {| cid := "c1"; ctype := SYNCHRONIZED_TOUCH; requiredPlayers := 2;
     participants := {[ "a"; "b" ]}; isActive := true; isCompleted := false;
     startTime := Some 10; cposition := origin;
     proximityRadius := COLLAB_CONFIG.PROXIMITY_RADIUS |}.

(** What one operation does to a completed challenge. *)
Definition after_op (o : Op) (c : CollabChallenge) : CollabChallenge :=
  match o with
  | UnregisterPlayer p => with_participants (participants c ∖ {[p]}) c
  | _ => c
  end.

Fixpoint ops_ok (ops : list Op) (s : CollaborationSystem) : Prop :=
  match ops with
  | [] => True
  | o :: rest => op_ok o s /\ ops_ok rest (step o s)
  end.

(** The two touches of the scenario have completed the challenge of
    [duo 2]. *)
Definition duoCompleted : CollaborationSystem :=
  run [OnPlayerTouch "a" 0; OnPlayerTouch "b" 400] (duo 2).

(** The state [s] after [l] more calls to the collaborators. *)
Definition sending (l : list Effect) (s : CollaborationSystem)
  : CollaborationSystem :=
  {| challenges := challenges s; activePlayers := activePlayers s;
     relayChain := relayChain s; relayMultiplier := relayMultiplier s;
     playerTouches := playerTouches s; localPlayerId := localPlayerId s;
     outbox := outbox s ++ l |}.

End CollabSpec.

Module InputSpec.
Import Constants Input.

Local Open Scope Z_scope.

(** ** Bookkeeping per contact

    A contact is the touch point object [onTouchStart] allocates.  Its
    outcomes are the deferred tap callbacks still pending for it and the
    tap, double-tap and long-press events emitted for it. *)

Definition own (o : nat) (tp : TouchPoint.t) : bool :=
  Nat.eqb (TouchPoint.obj tp) o.

Definition timers_of (o : nat) (c : InputController) : nat :=
  length (List.filter (fun entry => own o (snd entry)) (timers c)).

Definition outcomes (o : nat) (c : InputController) : nat :=
  (timers_of o c + taps_of o c + long_presses_of o c)%nat.

Definition live (o : nat) (c : InputController) : Prop :=
  exists k tp, touchPoints c !! k = Some tp /\ TouchPoint.obj tp = o.

(** The invariant of the controller: tracked touch points are distinct
    objects allocated so far, and every object has at most one outcome,
    none while it is tracked or before it is allocated. *)
Record wf (c : InputController) : Prop := mk_wf {
  wf_bound : forall k tp,
    touchPoints c !! k = Some tp -> (TouchPoint.obj tp < nextObj c)%nat;
  wf_inj : forall k1 k2 tp1 tp2,
    touchPoints c !! k1 = Some tp1 -> touchPoints c !! k2 = Some tp2 ->
    TouchPoint.obj tp1 = TouchPoint.obj tp2 -> k1 = k2;
  wf_once : forall o, (outcomes o c <= 1)%nat;
  wf_live : forall o, live o c -> outcomes o c = 0%nat;
  wf_fresh : forall o, (nextObj c <= o)%nat -> outcomes o c = 0%nat
}.

(** What [recognizeDiscreteGestures] can have done for [tp]. *)
Inductive discrete_result (tp : TouchPoint.t) (now : Z)
    (c c1 : InputController) : Prop :=
| result_none :
    timers c1 = timers c -> emitted c1 = emitted c ->
    discrete_result tp now c c1
| result_timer :
    timers c1 = timers c ++ [(now + 300, tp)] -> emitted c1 = emitted c ->
    discrete_result tp now c c1
| result_event g :
    g = DOUBLE_TAP \/ g = LONG_PRESS ->
    timers c1 = timers c -> emitted c1 = emitted c ++ [discrete g tp] ->
    discrete_result tp now c c1.

(** A contact that has not moved and has lasted [d] milliseconds. *)
Definition stillPoint (d : Z) : TouchPoint.t :=
  {| TouchPoint.obj := 0; TouchPoint.id := 0;
     TouchPoint.position := mkVector2 0 0;
     TouchPoint.startPosition := mkVector2 0 0;
     TouchPoint.deltaPosition := mkVector2 0 0;
     TouchPoint.velocity := mkVector2 0 0;
     TouchPoint.timestamp := 0; TouchPoint.startTime := 0;
     TouchPoint.duration := d; TouchPoint.tapCount := 0 |}.

(** A touch point that ends at [t] as a tap candidate: shorter than
    [TAP_DURATION] and less than 10 away from where it began. *)
Definition qualifies (tp : TouchPoint.t) (t : Z) : Prop :=
  t - TouchPoint.startTime tp < GESTURE_THRESHOLDS.TAP_DURATION
  /\ distance_lt (TouchPoint.position tp) (TouchPoint.startPosition tp) 10
     = true.

(** The part of the state the tap recognizer reads and writes. *)
Definition tapState (c : InputController)
  : list (Z * TouchPoint.t) * list GestureEvent.t * Z * Z * option Vector2 :=
  (timers c, emitted c, tapCount c, lastTapTime c, lastTapPosition c).

(** Inputs that end no contact and run no callback due at [deadline] or
    later. *)
Definition quiet (deadline : Z) (i : Input) : Prop :=
  match i with
  | TouchStart _ _ | TouchMove _ _ | TouchCancel _ | Clear => True
  | Timeout u => u < deadline
  | TouchEnd _ _ => False
  end.

Definition not_before (deadline : Z) (c : InputController) : Prop :=
  Forall (fun entry => deadline <= fst entry) (timers c).

(** The touch point [onTouchStart] creates for a contact. *)
Definition freshPoint (o : nat) (i : Z) (p : Vector2) (a : Z) : TouchPoint.t :=
  {| TouchPoint.obj := o; TouchPoint.id := i;
     TouchPoint.position := p; TouchPoint.startPosition := p;
     TouchPoint.deltaPosition := mkVector2 0 0;
     TouchPoint.velocity := mkVector2 0 0;
     TouchPoint.timestamp := a; TouchPoint.startTime := a;
     TouchPoint.duration := 0; TouchPoint.tapCount := 0 |}.

End InputSpec.

Module DispatchSpec.
Import Constants Dispatch.

Section Registry.

Context {World : Type}.

(** The callbacks registered for [g], oldest first. *)
Definition callbacksOf (reg : gmap GestureType (list (GestureCallback World)))
    (g : GestureType) : list (GestureCallback World) :=
  default [] (reg !! g).

(** [on g] called for every callback of [l], in order. *)
Definition registerAll (g : GestureType) (l : list (GestureCallback World))
    (reg : gmap GestureType (list (GestureCallback World)))
  : gmap GestureType (list (GestureCallback World)) :=
  fold_left (fun r cb => on g cb r) l reg.

End Registry.

(** A callback that appends its own [ref] to a log and returns. *)
Definition logging (r : nat) : GestureCallback (list nat) :=
  {| ref := r; call := fun _ w => Normal (w ++ [r]) |}.

(** A callback that appends its own [ref] to the log and throws. *)
Definition failing (r : nat) : GestureCallback (list nat) :=
  {| ref := r; call := fun _ w => Throw "failed" (w ++ [r]) |}.

Definition aTap : Input.GestureEvent.t :=
  Input.discrete TAP
    {| Input.TouchPoint.obj := 0; Input.TouchPoint.id := 0;
       Input.TouchPoint.position := Input.mkVector2 0 0;
       Input.TouchPoint.startPosition := Input.mkVector2 0 0;
       Input.TouchPoint.deltaPosition := Input.mkVector2 0 0;
       Input.TouchPoint.velocity := Input.mkVector2 0 0;
       Input.TouchPoint.timestamp := 0; Input.TouchPoint.startTime := 0;
       Input.TouchPoint.duration := 0; Input.TouchPoint.tapCount := 0 |}.

End DispatchSpec.

Module RotationSpec.
Import Rotation.

Local Open Scope R_scope.

(** The baseline is a number of degrees between -180 and 180. *)
Definition baseline_ok (s : RotationState) : Prop :=
  -180 <= initialRotationAngle s <= 180.

(** Two fingers lying west to east, and the same fingers after half a
    turn. *)
Definition westward : list Vector2 := [mkVector2 1 0; mkVector2 0 0].

Definition eastward : list Vector2 := [mkVector2 0 0; mkVector2 1 0].

End RotationSpec.

(* ===================================================================== *)
(** * Vocabulary and scenarios for the clock and the consumer *)
(* ===================================================================== *)

Module GameSpec.
Import Constants Collab CollabSpec Game.

Local Open Scope Z_scope.

(** The inputs during which a timestamp is written to the touch map. *)
Definition takes_reading (i : Input) : bool :=
  match i with
  | Tap _ | Invoke (Touch _) | Invoke (Relay _ _) => true
  | _ => false
  end.

(** The clock readings at which the inputs of a run that write to the
    touch map are handled. *)
Fixpoint readings (inputs : list Input) (w : World) : list Z :=
  match inputs with
  | [] => []
  | i :: rest =>
      (if takes_reading i then [clock w] else []) ++ readings rest (step i w)
  end.

(** Two inputs that differ at most in the gesture event handed to the tap
    callback. *)
Definition same_but_event (i j : Input) : Prop :=
  match i, j with
  | Tap _, Tap _ => True
  | _, _ => i = j
  end.

(** An identifier as [getLocalPlayerId] builds it. *)
Definition me : string := "local_player_k3x9q2m1z".

(** The local player [me] and a player [a] stand at a synchronized-touch
    challenge for two; one proximity tick has run at time 10.  The clock
    reads 900, and [getLocalPlayerId()] returns the identifier under which
    the local player is registered. *)
Definition arena : World :=
  {| clock := 900; getLocalPlayerId := me;
     collaborationSystem :=
       Collab.run [ RegisterPlayer (newPlayer me);
                    RegisterPlayer (newPlayer "a");
                    CreateChallenge "c1" SYNCHRONIZED_TOUCH origin 2;
                    UpdatePlayerProximity 10 ]
                  (init me) |}.

(** The events the touch tracker emits for one contact at (5, 5) that
    begins at 1000 and ends at 1050, once the deferred tap callback has
    run at 1350. *)
Definition trackerEvents : list Input.GestureEvent.t :=
  Input.emitted
    (Input.run [ Input.TouchStart [Input.mkTouch 0 5 5] 1000;
                 Input.TouchEnd [Input.mkTouch 0 5 5] 1050;
                 Input.Timeout 1350 ]
               Input.create).

(** A tap event whose touch point carries the timestamp [t]. *)
Definition tapStamped (t : Z) : Input.GestureEvent.t :=
  Input.discrete TAP (InputSpec.freshPoint 0 0 (Input.mkVector2 5 5) t).

End GameSpec.

Module RemoteSpec.
Import Net Remote.

Local Open Scope Z_scope.

(** Whether [receiveEvent] queues the envelope. *)
Definition from_elsewhere {Data World : Type}
    (nm : NetworkManager Data World) (event : NetworkEvent Data) : bool :=
  negb (String.eqb (senderId event) (localPlayerId nm)).




End RemoteSpec.

(* ===================================================================== *)
(** * Tap scenarios *)
(* ===================================================================== *)

Module TapScenarios.
Import Constants Input.

Local Open Scope Z_scope.

(** The type of every emitted event with the contacts it carries; contacts
    are numbered from 0 in the order in which they began. *)
Definition outcome (c : InputController)
  : list (GestureType * list nat) :=
  map (fun e => (GestureEvent.type e,
                 map TouchPoint.obj (GestureEvent.touchPoints e)))
      (emitted c).

(** A finger taps at ([px], [py]): down at [start], up 50 ms later. *)
Definition tapAt (identifier : Z) (px py : Q) (start : Z) : list Input :=
  [ TouchStart [mkTouch identifier px py] start;
    TouchEnd [mkTouch identifier px py] (start + 50) ].

(** One tap that ends at 50, and the timers once 349 ms and once 350 ms
    have passed. *)
Definition oneTap (u : Z) : list Input := tapAt 0 5 5 0 ++ [Timeout u].

(** Two taps at the same position that end at 50 and 150. *)
Definition twoTaps : list Input :=
  tapAt 0 5 5 0 ++ tapAt 0 5 5 100 ++ [Timeout 350; Timeout 450].

(** A tap at (5, 5) that ends at 50 and a tap of another finger at
    (200, 200) that ends at 150. *)
Definition twoTapsApart : list Input :=
  tapAt 0 5 5 0 ++ tapAt 1 200 200 100 ++ [Timeout 350; Timeout 450].

(** Three taps at the same position that end at 50, 150 and 250. *)
Definition threeQuickTaps : list Input :=
  tapAt 0 5 5 0 ++ tapAt 0 5 5 100 ++ tapAt 0 5 5 200
  ++ [Timeout 350; Timeout 450; Timeout 550].

(** Two taps at (5, 5) that end at 50 and 250, and between them a tap of
    another finger at (200, 200) that ends at 150. *)
Definition tapBetweenTaps : list Input :=
  tapAt 0 5 5 0 ++ tapAt 1 200 200 100 ++ tapAt 0 5 5 200
  ++ [Timeout 350; Timeout 450; Timeout 550].

(** One tap at (5, 5) that ends at 50 and has no follow-up there, then two
    taps at (200, 200) that end at 150 and 250. *)
Definition tapThenDoubleTapElsewhere : list Input :=
  tapAt 0 5 5 0 ++ tapAt 1 200 200 100 ++ tapAt 1 200 200 200
  ++ [Timeout 350; Timeout 450; Timeout 550].

End TapScenarios.

(* ===================================================================== *)
(** * Further vocabulary *)
(* ===================================================================== *)

Module InputEdgeSpec.
Import Constants Input.

Local Open Scope Z_scope.

(** An input that lifts no finger. *)
Definition no_release (i : Input) : Prop :=
  match i with
  | TouchEnd _ _ => False
  | _ => True
  end.

(** None of the touches of [l] is tracked by [c]. *)
Definition untracked (l : list Touch) (c : InputController) : Prop :=
  Forall (fun touch => touchPoints c !! identifier touch = None) l.

(** The controller once a tracked contact has been forgotten. *)
Definition forget (touch : Touch) (c : InputController) : InputController :=
  set_touchPoints (delete (identifier touch) (touchPoints c)) c.

(** The controller after one tap at (5, 5) that ended at 50: its deferred
    callback is pending and due at 350. *)
Definition tapped : InputController :=
  run [TouchStart [mkTouch 0 5 5] 0; TouchEnd [mkTouch 0 5 5] 50] create.

(** A finger held at (5, 5) since 0. *)
Definition held : InputController := onTouchStart [mkTouch 0 5 5] 0 create.

End InputEdgeSpec.

Module CollabEdgeSpec.
Import Constants Collab.

(** Whether a call to the collaborators announces that a touch has been
    released. *)
Definition announces_release (e : Effect) : bool :=
  match e with
  | NetBroadcast (touch_event _ _ false) => true
  | NetSendTo _ (touch_event _ _ false) => true
  | _ => false
  end.

End CollabEdgeSpec.

Module LinkSpec.
Import Net.

Local Open Scope Z_scope.

(** A handler that writes the sender and the timestamp of the envelope to
    a log. *)
Definition logEnvelope (event : NetworkEvent unit) (log : list (string * Z))
  : list (string * Z) :=
  log ++ [(senderId event, timestamp event)].

(** A manager whose only handler logs the touch envelopes. *)
Definition loggingBus (localId : string)
  : NetworkManager unit (list (string * Z)) :=
  on TOUCH_EVENT logEnvelope (create localId).

Definition envelope (t : NetworkEventType) (sender : string) (stamp : Z)
  : NetworkEvent unit :=
  {| type := t; senderId := sender; timestamp := stamp; data := tt |}.

End LinkSpec.

Module QualitySpec.
Import Quality.

(** The rung of a preset on the ladder LOW, MEDIUM, HIGH. *)
Definition rung (q : QualityPreset) : Z :=
  match q with
  | LOW => 0
  | MEDIUM => 1
  | HIGH => 2
  | AUTO => 3
  end.

(** [autoAdjust] for each reading of the average frame rate, in order. *)
Definition autoAdjustAll (readings : list Q) (m : Monitor) : Monitor :=
  fold_left (fun m' avgFps => autoAdjust avgFps m') readings m.

End QualitySpec.

Module PortalsSpec.
Import Portals.

Local Open Scope Q_scope.

Definition radius_ok (p : Portal) : Prop :=
  MIN_RADIUS <= radius p /\ radius p <= MAX_RADIUS.

(** The invariant of the manager: the creation flag is set exactly while a
    portal is being created, the portal being created and the stored
    portals have a radius between [MIN_RADIUS] and [MAX_RADIUS], and the
    stored portals are active and valid. *)
Record inv (m : PortalManager) : Prop := mk_inv {
  inv_flag : isCreatingPortal m = bool_decide (is_Some (currentPortal m));
  inv_current : forall p, currentPortal m = Some p ->
                          radius_ok p /\ isActive p = false;
  inv_stored : forall i p, portals m !! i = Some p ->
                           radius_ok p /\ isActive p = true
                           /\ isValid p = true /\ id p = i
}.

End PortalsSpec.

(* ===================================================================== *)
(** * Facts about the collaboration system *)
(* ===================================================================== *)

Module CollabFacts.
Import Constants Collab CollabSpec.

Local Open Scope Z_scope.

(** ** Minimum and maximum *)

Lemma Math_min_lower t ts a : a ∈ t :: ts -> Math_min t ts <= a.
Proof.
  unfold Math_min. induction ts as [|u ts IH]; simpl.
  - intros ->%list_elem_of_singleton. lia.
  - rewrite !elem_of_cons. intros [Ha|[Ha|Ha]].
    + assert (fold_right Z.min t ts <= a)
        by (apply IH; rewrite elem_of_cons; left; exact Ha).
      lia.
    + lia.
    + assert (fold_right Z.min t ts <= a)
        by (apply IH; rewrite elem_of_cons; right; exact Ha).
      lia.
Qed.

Lemma Math_max_upper t ts a : a ∈ t :: ts -> a <= Math_max t ts.
Proof.
  unfold Math_max. induction ts as [|u ts IH]; simpl.
  - intros ->%list_elem_of_singleton. lia.
  - rewrite !elem_of_cons. intros [Ha|[Ha|Ha]].
    + assert (a <= fold_right Z.max t ts)
        by (apply IH; rewrite elem_of_cons; left; exact Ha).
      lia.
    + lia.
    + assert (a <= fold_right Z.max t ts)
        by (apply IH; rewrite elem_of_cons; right; exact Ha).
      lia.
Qed.

Lemma Math_min_elem t ts : Math_min t ts ∈ t :: ts.
Proof.
  unfold Math_min. induction ts as [|u ts IH]; simpl.
  - left.
  - destruct (Z.min_spec u (fold_right Z.min t ts)) as [[_ ->]|[_ ->]].
    + right; left.
    + rewrite !elem_of_cons in *. tauto.
Qed.

Lemma Math_max_elem t ts : Math_max t ts ∈ t :: ts.
Proof.
  unfold Math_max. induction ts as [|u ts IH]; simpl.
  - left.
  - destruct (Z.max_spec u (fold_right Z.max t ts)) as [[_ ->]|[_ ->]].
    + rewrite !elem_of_cons in *. tauto.
    + right; left.
Qed.

(** The skew is within [d] exactly when every two stamps are. *)
Lemma skew_pairwise stamps d :
  0 <= d ->
  skew stamps <= d <-> forall a b, a ∈ stamps -> b ∈ stamps -> a - b <= d.
Proof.
  intros Hd. destruct stamps as [|t ts]; simpl.
  - split; [intros _ a b Ha; inversion Ha | intros _; exact Hd].
  - split.
    + intros H a b Ha Hb.
      pose proof (Math_max_upper t ts a Ha).
      pose proof (Math_min_lower t ts b Hb). lia.
    + intros H. apply H; [apply Math_max_elem | apply Math_min_elem].
Qed.

(** ** checkTouchSynchronization on the touching participants *)

Lemma omap_lookup_filter (touches : gmap string Z) (l : list string) :
  omap (fun p => touches !! p)
       (filter (fun p => is_Some (touches !! p)) l)
  = omap (fun p => touches !! p) l.
Proof.
  induction l as [|p l IH]; [reflexivity|].
  rewrite filter_cons. destruct (decide (is_Some (touches !! p))) as [Hs|Hn].
  - simpl. destruct (touches !! p) eqn:E.
    + f_equal. exact IH.
    + destruct Hs as [? Hs]. discriminate Hs.
  - simpl. destruct (touches !! p) eqn:E; [|exact IH].
    exfalso. apply Hn. eauto.
Qed.

Lemma length_omap_filter (touches : gmap string Z) (l : list string) :
  length (omap (fun p => touches !! p) l)
  = length (filter (fun p => is_Some (touches !! p)) l).
Proof.
  induction l as [|p l IH]; [reflexivity|].
  rewrite filter_cons. destruct (decide (is_Some (touches !! p))) as [Hs|Hn].
  - simpl. destruct (touches !! p) eqn:E.
    + simpl. f_equal. exact IH.
    + destruct Hs as [? Hs]. discriminate Hs.
  - simpl. destruct (touches !! p) eqn:E; [|exact IH].
    exfalso. apply Hn. eauto.
Qed.

Lemma touchStamps_length touches c :
  length (touchStamps touches c) = length (touchingPlayers touches c).
Proof. apply length_omap_filter. Qed.

Lemma checkTouchSynchronization_touching touches c :
  checkTouchSynchronization touches (touchingPlayers touches c) = true
  <-> 2 <= Z.of_nat (length (touchingPlayers touches c))
      /\ skew (touchStamps touches c) <= COLLAB_CONFIG.MAX_SYNC_DELAY.
Proof.
  unfold checkTouchSynchronization.
  pose proof (touchStamps_length touches c) as Hlen.
  unfold touchingPlayers in *. rewrite omap_lookup_filter.
  fold (touchStamps touches c). rewrite <- Hlen.
  destruct (Nat.ltb_spec (length (touchStamps touches c)) 2) as [Hlt|Hge].
  - split; [discriminate | lia].
  - rewrite Nat.ltb_irrefl.
    destruct (touchStamps touches c) as [|t ts] eqn:E; [simpl in Hge; lia|].
    unfold skew. rewrite Z.leb_le. split; [intros H; split; [lia|exact H]|tauto].
Qed.

(** ** check_one, case by case *)

Lemma check_one_closed touches c :
  ~ open_sync c -> check_one touches c = (c, []).
Proof.
  unfold open_sync, check_one. intros H.
  destruct (ctype c), (isActive c), (isCompleted c); simpl; try reflexivity.
  exfalso. apply H. auto.
Qed.

Lemma check_one_open touches c :
  open_sync c ->
  (requiredPlayers c <= Z.of_nat (length (touchingPlayers touches c))
   /\ 2 <= Z.of_nat (length (touchingPlayers touches c))
   /\ skew (touchStamps touches c) <= COLLAB_CONFIG.MAX_SYNC_DELAY
   -> check_one touches c = completeChallenge c)
  /\ (~ (requiredPlayers c <= Z.of_nat (length (touchingPlayers touches c))
         /\ 2 <= Z.of_nat (length (touchingPlayers touches c))
         /\ skew (touchStamps touches c) <= COLLAB_CONFIG.MAX_SYNC_DELAY)
      -> check_one touches c = (c, [])).
Proof.
  intros (Ht & Ha & Hc). unfold check_one. rewrite Ht, Ha, Hc. simpl.
  pose proof (checkTouchSynchronization_touching touches c) as Hsync.
  destruct (Z.leb_spec (requiredPlayers c)
              (Z.of_nat (length (touchingPlayers touches c)))) as [Hr|Hr].
  - destruct (checkTouchSynchronization touches (touchingPlayers touches c)).
    + split; [reflexivity|]. intros Hn. exfalso. apply Hn.
      destruct Hsync as [Hs _]. specialize (Hs eq_refl). tauto.
    + split; [|reflexivity]. intros (_ & H2 & Hk).
      destruct Hsync as [_ Hs]. discriminate Hs. tauto.
  - split; [lia | reflexivity].
Qed.

Lemma check_one_keeps touches c :
  cid (fst (check_one touches c)) = cid c
  /\ participants (fst (check_one touches c)) = participants c
  /\ ctype (fst (check_one touches c)) = ctype c
  /\ requiredPlayers (fst (check_one touches c)) = requiredPlayers c.
Proof.
  unfold check_one.
  repeat match goal with |- context [if ?b then _ else _] => destruct b end;
    simpl; auto.
Qed.

Lemma check_one_completed touches c :
  isCompleted c = true -> check_one touches c = (c, []).
Proof.
  intros H. apply check_one_closed. unfold open_sync. rewrite H.
  intros (_ & _ & ?). discriminate.
Qed.

(** ** The fields after onPlayerTouch *)

Lemma onPlayerTouch_fields s playerId now player :
  activePlayers s !! playerId = Some player ->
  challenges (onPlayerTouch playerId now s)
    = map (fun c => fst (check_one (<[playerId := now]> (playerTouches s)) c))
          (challenges s)
  /\ activePlayers (onPlayerTouch playerId now s)
     = <[playerId := with_touch true (Some now) player]> (activePlayers s)
  /\ playerTouches (onPlayerTouch playerId now s)
     = <[playerId := now]> (playerTouches s)
  /\ relayChain (onPlayerTouch playerId now s) = relayChain s
  /\ relayMultiplier (onPlayerTouch playerId now s) = relayMultiplier s
  /\ outbox (onPlayerTouch playerId now s)
     = outbox s
       ++ concat (map (fun c =>
                         snd (check_one (<[playerId := now]> (playerTouches s)) c))
                      (challenges s))
       ++ [NetBroadcast (touch_event playerId now true)].
Proof.
  intros H. unfold onPlayerTouch. rewrite H. simpl.
  rewrite !map_map, <- app_assoc. repeat split; reflexivity.
Qed.

Lemma onPlayerTouch_unregistered s playerId now :
  activePlayers s !! playerId = None -> onPlayerTouch playerId now s = s.
Proof. intros H. unfold onPlayerTouch. now rewrite H. Qed.

(** ** Synchronized-touch completion *)

(** C1 (as amended).  On a touch of a registered player every challenge
    keeps its place, identifier and participants, and a synchronized-touch
    challenge that is active and not completed becomes completed exactly
    when the participants holding a touch timestamp are at least
    [requiredPlayers] and at least two, and their skew is at most
    [MAX_SYNC_DELAY] = 500.  With two required players, touches at 0 and
    400 complete the challenge and touches at 0 and 600 do not. *)
Theorem c1_synchronized_touch_completion :
  (forall s playerId now player,
      activePlayers s !! playerId = Some player ->
      let touches := <[playerId := now]> (playerTouches s) in
      forall i c,
        challenges s !! i = Some c ->
        exists c',
          challenges (onPlayerTouch playerId now s) !! i = Some c'
          /\ cid c' = cid c
          /\ participants c' = participants c
          /\ (open_sync c ->
              (isCompleted c' = true
               <-> requiredPlayers c
                     <= Z.of_nat (length (touchingPlayers touches c))
                   /\ 2 <= Z.of_nat (length (touchingPlayers touches c))
                   /\ skew (touchStamps touches c) <= 500)))
  /\ COLLAB_CONFIG.MAX_SYNC_DELAY = 500
  /\ completedFlags (run [OnPlayerTouch "a" 0; OnPlayerTouch "b" 400] (duo 2))
     = [true]
  /\ completedFlags (run [OnPlayerTouch "a" 0; OnPlayerTouch "b" 600] (duo 2))
     = [false].
Proof.
  split; [|repeat split; vm_compute; reflexivity].
  intros s playerId now player Hreg touches i c Hi.
  destruct (onPlayerTouch_fields s playerId now player Hreg) as (Hch & _).
  fold touches in Hch. rewrite Hch, list_lookup_fmap, Hi. simpl.
  eexists; split; [reflexivity|].
  destruct (check_one_keeps touches c) as (Hid & Hp & _).
  split; [exact Hid|]. split; [exact Hp|].
  intros Hopen. destruct (check_one_open touches c Hopen) as [Hyes Hno].
  change COLLAB_CONFIG.MAX_SYNC_DELAY with 500 in *.
  split.
  - intros Hdone.
    destruct (decide (requiredPlayers c
                        <= Z.of_nat (length (touchingPlayers touches c))
                      /\ 2 <= Z.of_nat (length (touchingPlayers touches c))
                      /\ skew (touchStamps touches c) <= 500)) as [H|H];
      [exact H|].
    rewrite (Hno H) in Hdone. simpl in Hdone.
    destruct Hopen as (_ & _ & Hc). congruence.
  - intros H. rewrite (Hyes H). reflexivity.
Qed.

(** C1, as stated, fails when one player is required: the lone participant
    holds a timestamp, the count reaches [requiredPlayers] and the skew is
    0, yet the challenge stays open because fewer than two players touch. *)
Lemma c1_single_player_not_completed :
  exists c c',
    challenges solo = [c]
    /\ challenges (onPlayerTouch "a" 50 solo) = [c']
    /\ activePlayers solo !! "a" = Some (newPlayer "a")
    /\ open_sync c
    /\ requiredPlayers c
         <= Z.of_nat (length (touchingPlayers
                                (<["a" := 50]> (playerTouches solo)) c))
    /\ skew (touchStamps (<["a" := 50]> (playerTouches solo)) c) <= 500
    /\ isCompleted c' = false.
Proof.
  eexists; eexists. unfold open_sync.
  repeat split; vm_compute; try reflexivity; discriminate.
Qed.

Lemma c1_synchronized_touch_completion_witness :
  activePlayers (duo 2) !! "a" = Some (newPlayer "a")
  /\ challenges (duo 2) !! 0%nat = Some duoChallenge
  /\ exists c',
      challenges (onPlayerTouch "a" 0 (duo 2)) !! 0%nat = Some c'
      /\ cid c' = "c1"
      /\ participants c' = {[ "a"; "b" ]}.
Proof.
  assert (Hreg : activePlayers (duo 2) !! "a" = Some (newPlayer "a"))
    by (vm_compute; reflexivity).
  assert (Hc : challenges (duo 2) !! 0%nat = Some duoChallenge)
    by (vm_compute; reflexivity).
  split; [exact Hreg|]. split; [exact Hc|].
  destruct (proj1 c1_synchronized_touch_completion
              (duo 2) "a" 0 (newPlayer "a") Hreg 0%nat duoChallenge Hc)
    as (c' & Hc' & Hid & Hp & _).
  exists c'. split; [exact Hc'|]. split; [exact Hid | exact Hp].
Defined.

(* --------------------------------------------------------------------- *)
(** ** The energy relay *)
(* --------------------------------------------------------------------- *)

Lemma initiateEnergyRelay_fields s fromId toId now pf pt :
  activePlayers s !! fromId = Some pf ->
  activePlayers s !! toId = Some pt ->
  challenges (initiateEnergyRelay fromId toId now s) = challenges s
  /\ activePlayers (initiateEnergyRelay fromId toId now s) = activePlayers s
  /\ relayChain (initiateEnergyRelay fromId toId now s)
     = relayChain s ++ [toId]
  /\ relayMultiplier (initiateEnergyRelay fromId toId now s)
     = snd (classifyRelay s now)
  /\ playerTouches (initiateEnergyRelay fromId toId now s)
     = <[toId := now]> (playerTouches s)
  /\ outbox (initiateEnergyRelay fromId toId now s)
     = outbox s
       ++ [ RelayEffect {| fromPlayerId := fromId; toPlayerId := toId;
                           timestamp := now;
                           timing := fst (classifyRelay s now) |};
            sendHapticToPlayer (localPlayerId s) toId
              (getRelayHapticPattern (fst (classifyRelay s now))) now ].
Proof.
  intros Hf Ht. unfold initiateEnergyRelay. rewrite Hf, Ht.
  destruct (classifyRelay s now) as [tm mult]. simpl.
  repeat split; reflexivity.
Qed.

Lemma initiateEnergyRelay_unregistered s fromId toId now :
  activePlayers s !! fromId = None \/ activePlayers s !! toId = None ->
  initiateEnergyRelay fromId toId now s = s.
Proof.
  unfold initiateEnergyRelay. intros [H|H]; rewrite H;
    [|destruct (activePlayers s !! fromId)]; reflexivity.
Qed.

Lemma classifyRelay_cases s now :
  match lastRelayTime s with
  | None => classifyRelay s now = (GOOD, relayMultiplier s)
  | Some t =>
      (now - t < 100 ->
       classifyRelay s now = (PERFECT, (relayMultiplier s + (1 # 2))%Q))
      /\ (100 <= now - t < 300 ->
          classifyRelay s now = (GOOD, relayMultiplier s))
      /\ (300 <= now - t -> classifyRelay s now = (MISS, 1%Q))
  end.
Proof.
  unfold classifyRelay. destruct (lastRelayTime s) as [t|]; [|reflexivity].
  change COLLAB_CONFIG.PERFECT_TIMING_THRESHOLD with 100.
  change COLLAB_CONFIG.GOOD_TIMING_THRESHOLD with 300.
  destruct (Z.ltb_spec (now - t) 100); destruct (Z.ltb_spec (now - t) 300);
    repeat split; intros; try reflexivity; lia.
Qed.

Lemma lastRelayTime_empty s : relayChain s = [] -> lastRelayTime s = None.
Proof. intros H. unfold lastRelayTime. now rewrite H. Qed.

Lemma lastRelayTime_after_relay s fromId toId t0 pf pt :
  activePlayers s !! fromId = Some pf ->
  activePlayers s !! toId = Some pt ->
  t0 <> 0 ->
  lastRelayTime (initiateEnergyRelay fromId toId t0 s) = Some t0.
Proof.
  intros Hf Ht H0.
  destruct (initiateEnergyRelay_fields s fromId toId t0 pf pt Hf Ht)
    as (_ & _ & Hchain & _ & Htouch & _).
  unfold lastRelayTime. rewrite Hchain, Htouch, last_snoc, lookup_insert_eq.
  destruct (Z.eqb_spec t0 0); [contradiction | reflexivity].
Qed.

Lemma classifyRelay_multiplier s now :
  (1 <= relayMultiplier s)%Q -> (1 <= snd (classifyRelay s now))%Q.
Proof.
  intros H. unfold classifyRelay.
  destruct (lastRelayTime s) as [t|]; [|exact H].
  destruct (now - t <? COLLAB_CONFIG.PERFECT_TIMING_THRESHOLD); simpl.
  - Lqa.lra.
  - destruct (now - t <? COLLAB_CONFIG.GOOD_TIMING_THRESHOLD); simpl;
      [exact H | Lqa.lra].
Qed.

Lemma step_multiplier o s :
  (1 <= relayMultiplier s)%Q -> (1 <= relayMultiplier (step o s))%Q.
Proof.
  intros H. destruct o; simpl; try exact H.
  - unfold onPlayerTouch. destruct (activePlayers s !! playerId); exact H.
  - unfold onPlayerTouchRelease.
    destruct (activePlayers s !! playerId); exact H.
  - unfold initiateEnergyRelay.
    destruct (activePlayers s !! fromId); [|exact H].
    destruct (activePlayers s !! toId); [|exact H].
    pose proof (classifyRelay_multiplier s now H) as Hc.
    destruct (classifyRelay s now). exact Hc.
  - Lqa.lra.
Qed.

Lemma run_multiplier ops s :
  (1 <= relayMultiplier s)%Q -> (1 <= relayMultiplier (run ops s))%Q.
Proof.
  revert s. induction ops as [|o ops IH]; intros s H; [exact H|].
  simpl. apply IH, step_multiplier, H.
Qed.

(** C2 (as amended).  A hand-off between two registered players appends
    the recipient to the chain in every case, a Miss included, and is
    classified against the touch-map timestamp of the last recipient on the
    chain: below 100 ms it is Perfect and the multiplier grows by 0.5,
    below 300 ms it is Good and the multiplier stays, otherwise it is Miss
    and the multiplier becomes 1.  Without such a timestamp, in particular
    on an empty chain, it is Good.  Right after a hand-off at a non-zero
    time that timestamp is the time of the hand-off.  The multiplier of
    every reachable state is at least 1. *)
Theorem c2_relay_hand_off :
  (forall s fromId toId now pf pt,
      activePlayers s !! fromId = Some pf ->
      activePlayers s !! toId = Some pt ->
      let s' := initiateEnergyRelay fromId toId now s in
      exists tm,
        outbox s'
        = outbox s
          ++ [ RelayEffect {| fromPlayerId := fromId; toPlayerId := toId;
                              timestamp := now; timing := tm |};
               sendHapticToPlayer (localPlayerId s) toId
                 (getRelayHapticPattern tm) now ]
        /\ relayChain s' = relayChain s ++ [toId]
        /\ match lastRelayTime s with
           | None => tm = GOOD /\ relayMultiplier s' = relayMultiplier s
           | Some t =>
               (now - t < 100 ->
                tm = PERFECT
                /\ relayMultiplier s' = (relayMultiplier s + (1 # 2))%Q)
               /\ (100 <= now - t < 300 ->
                   tm = GOOD /\ relayMultiplier s' = relayMultiplier s)
               /\ (300 <= now - t ->
                   tm = MISS /\ relayMultiplier s' = 1%Q)
           end)
  /\ (forall s, relayChain s = [] -> lastRelayTime s = None)
  /\ (forall s fromId toId t0 pf pt,
        activePlayers s !! fromId = Some pf ->
        activePlayers s !! toId = Some pt ->
        t0 <> 0 ->
        lastRelayTime (initiateEnergyRelay fromId toId t0 s) = Some t0)
  /\ (forall ops localId, (1 <= relayMultiplier (run ops (init localId)))%Q).
Proof.
  split; [|split; [|split]].
  - intros s fromId toId now pf pt Hf Ht s'.
    destruct (initiateEnergyRelay_fields s fromId toId now pf pt Hf Ht)
      as (_ & _ & Hchain & Hmult & _ & Hout).
    exists (fst (classifyRelay s now)).
    split; [exact Hout|]. split; [exact Hchain|].
    subst s'. rewrite Hmult.
    pose proof (classifyRelay_cases s now) as Hc.
    destruct (lastRelayTime s) as [t|].
    + destruct Hc as (H1 & H2 & H3).
      split; [|split]; intros Hd;
        [rewrite (H1 Hd) | rewrite (H2 Hd) | rewrite (H3 Hd)];
        split; reflexivity.
    + rewrite Hc. split; reflexivity.
  - exact lastRelayTime_empty.
  - exact lastRelayTime_after_relay.
  - intros ops localId. apply run_multiplier. simpl. Lqa.lra.
Qed.

(** C2, as stated, fails on a Miss: the hand-off 1000 ms after the previous
    one is a Miss and resets the multiplier, and the chain is not cleared;
    it holds both recipients. *)
Lemma c2_miss_keeps_chain :
  classifyRelay (initiateEnergyRelay "a" "b" 1000 (duo 2)) 2000 = (MISS, 1%Q)
  /\ relayChain (initiateEnergyRelay "b" "a" 2000
                   (initiateEnergyRelay "a" "b" 1000 (duo 2)))
     = ["b"; "a"]
  /\ relayChain (initiateEnergyRelay "b" "a" 2000
                   (initiateEnergyRelay "a" "b" 1000 (duo 2)))
     <> [].
Proof. repeat split; vm_compute; [reflexivity..|discriminate]. Qed.

Lemma c2_relay_hand_off_witness :
  activePlayers (duo 2) !! "a" = Some (newPlayer "a")
  /\ activePlayers (duo 2) !! "b" = Some (newPlayer "b")
  /\ 1000 <> 0
  /\ lastRelayTime (initiateEnergyRelay "a" "b" 1000 (duo 2)) = Some 1000
  /\ exists tm,
      relayChain (initiateEnergyRelay "a" "b" 1000 (duo 2)) = [] ++ ["b"]
      /\ tm = GOOD.
Proof.
  assert (Ha : activePlayers (duo 2) !! "a" = Some (newPlayer "a"))
    by (vm_compute; reflexivity).
  assert (Hb : activePlayers (duo 2) !! "b" = Some (newPlayer "b"))
    by (vm_compute; reflexivity).
  assert (H0 : 1000 <> 0) by lia.
  destruct c2_relay_hand_off as (Hstep & Hempty & Hnext & _).
  split; [exact Ha|]. split; [exact Hb|]. split; [exact H0|].
  split; [exact (Hnext (duo 2) "a" "b" 1000 _ _ Ha Hb H0)|].
  destruct (Hstep (duo 2) "a" "b" 1000 _ _ Ha Hb) as (tm & _ & Hchain & Hcase).
  exists tm. split; [exact Hchain|].
  rewrite (Hempty (duo 2) eq_refl) in Hcase. exact (proj1 Hcase).
Defined.

(* --------------------------------------------------------------------- *)
(** ** Lookups in the touch map *)
(* --------------------------------------------------------------------- *)

Lemma lastRelayTime_lookup s p :
  last (relayChain s) = Some p ->
  lastRelayTime s
  = match playerTouches s !! p with
    | Some t => if t =? 0 then None else Some t
    | None => None
    end.
Proof. intros H. unfold lastRelayTime. now rewrite H. Qed.

Lemma touchingPlayers_elem touches c p :
  p ∈ touchingPlayers touches c
  <-> p ∈ participants c /\ is_Some (touches !! p).
Proof.
  unfold touchingPlayers. rewrite list_elem_of_filter, elem_of_elements. tauto.
Qed.

(* --------------------------------------------------------------------- *)
(** ** The relay writes into the touch map *)
(* --------------------------------------------------------------------- *)

(** C10.  A hand-off between registered players stores its timestamp under
    the recipient in [playerTouches] and changes no player record, so the
    recipient need not have touched.  From then on the recipient is among
    the touching players of every challenge it participates in, and a
    non-zero timestamp is the reference time of the next hand-off.  In the
    scenario, [b] never touches: the hand-off at 1000 and the touch of [a]
    at 1200 complete the two-player challenge. *)
Theorem c10_relay_marks_recipient_touching :
  (forall s fromId toId now pf pt,
      activePlayers s !! fromId = Some pf ->
      activePlayers s !! toId = Some pt ->
      let s' := initiateEnergyRelay fromId toId now s in
      playerTouches s' = <[toId := now]> (playerTouches s)
      /\ activePlayers s' = activePlayers s
      /\ (forall c, toId ∈ participants c ->
                    toId ∈ touchingPlayers (playerTouches s') c)
      /\ (now <> 0 -> lastRelayTime s' = Some now)
      /\ (now <> 0 -> forall later,
            classifyRelay s' later
            = if later - now <? 100
              then (PERFECT, (relayMultiplier s' + (1 # 2))%Q)
              else if later - now <? 300 then (GOOD, relayMultiplier s')
              else (MISS, 1%Q)))
  /\ playerTouches (duo 2) !! "b" = None
  /\ (isTouching <$>
        activePlayers
          (onPlayerTouch "a" 1200 (initiateEnergyRelay "a" "b" 1000 (duo 2)))
        !! "b") = Some false
  /\ completedFlags
       (onPlayerTouch "a" 1200 (initiateEnergyRelay "a" "b" 1000 (duo 2)))
     = [true]
  /\ completedFlags (onPlayerTouch "a" 1200 (duo 2)) = [false].
Proof.
  split; [|repeat split; vm_compute; reflexivity].
  intros s fromId toId now pf pt Hf Ht s'.
  destruct (initiateEnergyRelay_fields s fromId toId now pf pt Hf Ht)
    as (_ & Hap & Hchain & _ & Hpt & _).
  assert (Hlast : now <> 0 -> lastRelayTime s' = Some now)
    by (intros H0; apply (lastRelayTime_after_relay s fromId toId now pf pt);
        assumption).
  subst s'. split; [exact Hpt|]. split; [exact Hap|].
  split; [|split; [exact Hlast|]].
  - intros c Hin. apply touchingPlayers_elem. split; [exact Hin|].
    rewrite Hpt, lookup_insert_eq. eauto.
  - intros H0 later. unfold classifyRelay. rewrite (Hlast H0). reflexivity.
Qed.

Lemma c10_relay_marks_recipient_touching_witness :
  activePlayers (duo 2) !! "a" = Some (newPlayer "a")
  /\ activePlayers (duo 2) !! "b" = Some (newPlayer "b")
  /\ "b" ∈ participants duoChallenge
  /\ 1000 <> 0
  /\ "b" ∈ touchingPlayers
             (playerTouches (initiateEnergyRelay "a" "b" 1000 (duo 2)))
             duoChallenge
  /\ lastRelayTime (initiateEnergyRelay "a" "b" 1000 (duo 2)) = Some 1000.
Proof.
  assert (Ha : activePlayers (duo 2) !! "a" = Some (newPlayer "a"))
    by (vm_compute; reflexivity).
  assert (Hb : activePlayers (duo 2) !! "b" = Some (newPlayer "b"))
    by (vm_compute; reflexivity).
  assert (Hin : "b" ∈ participants duoChallenge)
    by (simpl; rewrite elem_of_union, !elem_of_singleton; auto).
  assert (H0 : 1000 <> 0) by lia.
  split; [exact Ha|]. split; [exact Hb|]. split; [exact Hin|].
  split; [exact H0|].
  destruct (proj1 c10_relay_marks_recipient_touching
              (duo 2) "a" "b" 1000 _ _ Ha Hb) as (_ & _ & Htouch & Hlast & _).
  split; [exact (Htouch duoChallenge Hin) | exact (Hlast H0)].
Defined.

(* --------------------------------------------------------------------- *)
(** ** Completed challenges and the removal of a player *)
(* --------------------------------------------------------------------- *)

Lemma not_elem_of_removed (p : string) (X : gset string) : p ∉ X ∖ {[p]}.
Proof.
  intros [_ H]%elem_of_difference. apply H, elem_of_singleton. reflexivity.
Qed.

Lemma challenges_set_fresh c l :
  (forall d, d ∈ l -> cid d <> cid c) -> challenges_set c l = l ++ [c].
Proof.
  induction l as [|d l IH]; intros H; simpl; [reflexivity|].
  destruct (String.eqb_spec (cid d) (cid c)) as [E|E].
  - exfalso. apply (H d); [left | exact E].
  - f_equal. apply IH. intros d' Hd'. apply H. right. exact Hd'.
Qed.

Lemma proximity_one_completed players localId now c :
  isCompleted c = true -> proximity_one players localId now c = (c, []).
Proof. intros H. unfold proximity_one. now rewrite H. Qed.

Lemma completed_step o s i c :
  op_ok o s ->
  challenges s !! i = Some c ->
  isCompleted c = true ->
  challenges (step o s) !! i = Some (after_op o c).
Proof.
  intros Hok Hi Hc. destruct o; simpl in *.
  - exact Hi.
  - rewrite list_lookup_fmap, Hi. reflexivity.
  - rewrite challenges_set_fresh by exact Hok.
    rewrite lookup_app_l; [exact Hi | eapply lookup_lt_Some; exact Hi].
  - rewrite map_map, list_lookup_fmap, Hi. simpl.
    now rewrite proximity_one_completed.
  - destruct (activePlayers s !! playerId) as [player|] eqn:E.
    + destruct (onPlayerTouch_fields s playerId now player E) as (Hch & _).
      rewrite Hch, list_lookup_fmap, Hi. simpl.
      now rewrite check_one_completed.
    + now rewrite onPlayerTouch_unregistered.
  - unfold onPlayerTouchRelease.
    destruct (activePlayers s !! playerId); exact Hi.
  - unfold initiateEnergyRelay.
    destruct (activePlayers s !! fromId); [|exact Hi].
    destruct (activePlayers s !! toId); [|exact Hi].
    destruct (classifyRelay s now). exact Hi.
  - exact Hi.
Qed.

Lemma after_op_keeps o c :
  isCompleted (after_op o c) = isCompleted c
  /\ cid (after_op o c) = cid c
  /\ participants (after_op o c) ⊆ participants c.
Proof.
  destruct o; simpl; repeat split; try reflexivity.
  intros x [Hx _]%elem_of_difference. exact Hx.
Qed.

Lemma completed_run ops s i c :
  ops_ok ops s ->
  challenges s !! i = Some c ->
  isCompleted c = true ->
  exists c',
    challenges (run ops s) !! i = Some c'
    /\ isCompleted c' = true
    /\ cid c' = cid c
    /\ participants c' ⊆ participants c.
Proof.
  revert s c. induction ops as [|o ops IH]; intros s c Hok Hi Hc.
  - exists c. repeat split; [exact Hi | exact Hc | reflexivity].
  - destruct Hok as [Ho Hrest]. simpl.
    destruct (after_op_keeps o c) as (Hk1 & Hk2 & Hk3).
    destruct (IH (step o s) (after_op o c) Hrest
                (completed_step o s i c Ho Hi Hc))
      as (c' & Hl & Hd & Hid & Hsub); [congruence|].
    exists c'. repeat split; [exact Hl | exact Hd | congruence |].
    transitivity (participants (after_op o c)); assumption.
Qed.

Lemma players_keyed_unregister p s :
  players_keyed s -> players_keyed (unregisterPlayer p s).
Proof.
  intros H k pl. simpl. rewrite lookup_delete_Some. intros [_ Hk].
  exact (H k pl Hk).
Qed.

Lemma players_keyed_init localId : players_keyed (init localId).
Proof. intros k p. simpl. rewrite lookup_empty. discriminate. Qed.

Lemma players_keyed_step o s : players_keyed s -> players_keyed (step o s).
Proof.
  intros H. destruct o; simpl; try exact H.
  - intros k pl. simpl. rewrite lookup_insert_Some.
    intros [[<- <-]|[_ Hk]]; [reflexivity | exact (H k pl Hk)].
  - apply players_keyed_unregister, H.
  - unfold onPlayerTouch.
    destruct (activePlayers s !! playerId) as [player|] eqn:E; [|exact H].
    intros k pl. simpl. rewrite lookup_insert_Some.
    intros [[<- <-]|[_ Hk]]; [exact (H _ _ E) | exact (H k pl Hk)].
  - unfold onPlayerTouchRelease.
    destruct (activePlayers s !! playerId) as [player|] eqn:E; [|exact H].
    intros k pl. simpl. rewrite lookup_insert_Some.
    intros [[<- <-]|[_ Hk]]; [exact (H _ _ E) | exact (H k pl Hk)].
  - unfold initiateEnergyRelay.
    destruct (activePlayers s !! fromId); [|exact H].
    destruct (activePlayers s !! toId); [|exact H].
    destruct (classifyRelay s now). exact H.
Qed.

Lemma players_keyed_run ops s : players_keyed s -> players_keyed (run ops s).
Proof.
  revert s. induction ops as [|o ops IH]; intros s H; [exact H|].
  simpl. apply IH, players_keyed_step, H.
Qed.

Lemma nearby_registered players c p :
  p ∈ nearby players c -> exists k pl, players !! k = Some pl /\ id pl = p.
Proof.
  unfold nearby. rewrite elem_of_list_to_set.
  intros (pl & -> & Hin)%list_elem_of_fmap.
  apply list_elem_of_filter in Hin as [_ Hin].
  apply list_elem_of_fmap in Hin as ([k pl'] & -> & Hin).
  apply elem_of_map_to_list in Hin. exists k, pl'. split; [exact Hin|reflexivity].
Qed.

Lemma proximity_excludes_unregistered s p now c' :
  players_keyed s ->
  activePlayers s !! p = None ->
  (forall c, c ∈ challenges s -> isCompleted c = true -> p ∉ participants c) ->
  c' ∈ challenges (updatePlayerProximity now s) ->
  p ∉ participants c'.
Proof.
  intros Hkey Hnone Hdone. simpl. rewrite map_map.
  intros (c & -> & Hin)%list_elem_of_fmap.
  unfold proximity_one. destruct (isCompleted c) eqn:Ec.
  - simpl. exact (Hdone c Hin Ec).
  - assert (Hnear : p ∉ nearby (activePlayers s) c).
    { intros (k & pl & Hk & Hid)%nearby_registered.
      rewrite <- (Hkey k pl Hk), Hid in Hk. congruence. }
    destruct ((requiredPlayers (with_participants (nearby (activePlayers s) c) c)
               <=? Z.of_nat (size (participants
                      (with_participants (nearby (activePlayers s) c) c))))
              && negb (isActive (with_participants
                                   (nearby (activePlayers s) c) c)));
      simpl; exact Hnear.
Qed.

Lemma onPlayerTouchRelease_unregistered s p :
  activePlayers s !! p = None -> onPlayerTouchRelease p s = s.
Proof. intros H. unfold onPlayerTouchRelease. now rewrite H. Qed.

(** C6 (as amended).  A completed challenge stays completed, in its place
    and under its identifier, through every sequence of operations, and no
    operation changes its participant set except the removal of a player,
    which takes that player out of it.  Removing a player deletes the
    player and its touch entry and takes it out of the participant set of
    every challenge, completed or not, leaving all else as it was.  For a
    player that is not registered, touch, release and relay calls naming
    it return the state unchanged, and a proximity tick after the removal
    leaves it outside every participant set. *)
Theorem c6_completed_terminal_and_player_removal :
  (forall o s i c,
      op_ok o s -> challenges s !! i = Some c -> isCompleted c = true ->
      challenges (step o s) !! i
      = Some (match o with
              | UnregisterPlayer p =>
                  with_participants (participants c ∖ {[p]}) c
              | _ => c
              end))
  /\ (forall ops s i c,
        ops_ok ops s -> challenges s !! i = Some c -> isCompleted c = true ->
        exists c',
          challenges (run ops s) !! i = Some c'
          /\ isCompleted c' = true /\ cid c' = cid c
          /\ participants c' ⊆ participants c)
  /\ (forall p s,
        activePlayers (unregisterPlayer p s) = delete p (activePlayers s)
        /\ playerTouches (unregisterPlayer p s) = delete p (playerTouches s)
        /\ challenges (unregisterPlayer p s)
           = map (fun c => with_participants (participants c ∖ {[p]}) c)
                 (challenges s)
        /\ (forall c, c ∈ challenges (unregisterPlayer p s) ->
                      p ∉ participants c)
        /\ relayChain (unregisterPlayer p s) = relayChain s
        /\ relayMultiplier (unregisterPlayer p s) = relayMultiplier s
        /\ outbox (unregisterPlayer p s) = outbox s)
  /\ (forall p s now q,
        activePlayers s !! p = None ->
        onPlayerTouch p now s = s
        /\ onPlayerTouchRelease p s = s
        /\ initiateEnergyRelay p q now s = s
        /\ initiateEnergyRelay q p now s = s)
  /\ (forall p s now c,
        players_keyed s ->
        c ∈ challenges (updatePlayerProximity now (unregisterPlayer p s)) ->
        p ∉ participants c).
Proof.
  split; [|split; [|split; [|split]]].
  - intros o s i c Hok Hi Hc. rewrite (completed_step o s i c Hok Hi Hc).
    destruct o; reflexivity.
  - exact completed_run.
  - intros p s. simpl. repeat split.
    intros c (d & -> & _)%list_elem_of_fmap. simpl. apply not_elem_of_removed.
  - intros p s now q Hnone. repeat split.
    + apply onPlayerTouch_unregistered, Hnone.
    + apply onPlayerTouchRelease_unregistered, Hnone.
    + apply initiateEnergyRelay_unregistered. left. exact Hnone.
    + apply initiateEnergyRelay_unregistered. right. exact Hnone.
  - intros p s now c Hkey Hin.
    apply (proximity_excludes_unregistered (unregisterPlayer p s) p now c).
    + apply players_keyed_unregister, Hkey.
    + simpl. apply lookup_delete_eq.
    + intros d (e & -> & _)%list_elem_of_fmap _. simpl.
      apply not_elem_of_removed.
    + exact Hin.
Qed.

(** C6, as stated, fails: a completed challenge does accept a participant
    change, the one made by removing a player.  The completed challenge
    holds [a] and [b]; after [b] is removed it holds [a] only. *)
Lemma c6_removal_changes_completed_challenge :
  map isCompleted (challenges duoCompleted) = [true]
  /\ map (fun c => elements (participants c)) (challenges duoCompleted)
     = [["a"; "b"]]
  /\ map isCompleted (challenges (unregisterPlayer "b" duoCompleted))
     = [true]
  /\ map (fun c => elements (participants c))
         (challenges (unregisterPlayer "b" duoCompleted))
     = [["a"]].
Proof. repeat split; vm_compute; reflexivity. Qed.

Lemma c6_completed_terminal_and_player_removal_witness :
  op_ok (UnregisterPlayer "b") duoCompleted
  /\ ops_ok [UnregisterPlayer "b"; UpdatePlayerProximity 500] duoCompleted
  /\ players_keyed duoCompleted
  /\ activePlayers (unregisterPlayer "b" duoCompleted) !! "b" = None
  /\ onPlayerTouch "b" 900 (unregisterPlayer "b" duoCompleted)
     = unregisterPlayer "b" duoCompleted
  /\ (forall c,
        c ∈ challenges (updatePlayerProximity 500
                          (unregisterPlayer "b" duoCompleted)) ->
        "b" ∉ participants c)
  /\ exists c,
      challenges duoCompleted !! 0%nat = Some c
      /\ isCompleted c = true
      /\ challenges (step (UnregisterPlayer "b") duoCompleted) !! 0%nat
         = Some (with_participants (participants c ∖ {["b"]}) c)
      /\ exists c',
          challenges (run [UnregisterPlayer "b"; UpdatePlayerProximity 500]
                        duoCompleted) !! 0%nat = Some c'
          /\ isCompleted c' = true.
Proof.
  assert (Hok : op_ok (UnregisterPlayer "b") duoCompleted) by exact I.
  assert (Hoks : ops_ok [UnregisterPlayer "b"; UpdatePlayerProximity 500]
                   duoCompleted) by (simpl; auto).
  assert (Hkey : players_keyed duoCompleted)
    by (apply players_keyed_run, players_keyed_run, players_keyed_init).
  assert (Hnone : activePlayers (unregisterPlayer "b" duoCompleted) !! "b"
                  = None) by (vm_compute; reflexivity).
  destruct c6_completed_terminal_and_player_removal
    as (Hstep & Hrun & _ & Hnoop & Hprox).
  split; [exact Hok|]. split; [exact Hoks|]. split; [exact Hkey|].
  split; [exact Hnone|].
  split; [exact (proj1 (Hnoop "b" _ 900 "a" Hnone))|].
  split; [intros c; exact (Hprox "b" duoCompleted 500 c Hkey)|].
  destruct (challenges duoCompleted !! 0%nat) as [c|] eqn:E;
    [|vm_compute in E; discriminate].
  assert (Hc : isCompleted c = true).
  { vm_compute in E. injection E as <-. reflexivity. }
  exists c. split; [reflexivity|]. split; [exact Hc|].
  split; [exact (Hstep (UnregisterPlayer "b") duoCompleted 0%nat c Hok E Hc)|].
  destruct (Hrun _ duoCompleted 0%nat c Hoks E Hc) as (c' & Hl & Hd & _).
  exists c'. split; [exact Hl | exact Hd].
Defined.

(* --------------------------------------------------------------------- *)
(** ** Handling the same call twice *)
(* --------------------------------------------------------------------- *)

Lemma check_one_cases touches c :
  check_one touches c = (c, []) \/ check_one touches c = completeChallenge c.
Proof.
  unfold check_one.
  repeat match goal with |- context [if ?b then _ else _] => destruct b end;
    auto.
Qed.

Lemma check_one_idem touches c :
  check_one touches (fst (check_one touches c))
  = (fst (check_one touches c), []).
Proof.
  destruct (check_one_cases touches c) as [H|H]; rewrite H; simpl.
  - exact H.
  - apply check_one_completed. reflexivity.
Qed.

Lemma check_all_idem touches (l : list CollabChallenge) :
  map (fun c => fst (check_one touches c))
      (map (fun c => fst (check_one touches c)) l)
  = map (fun c => fst (check_one touches c)) l
  /\ concat (map (fun c => snd (check_one touches c))
                 (map (fun c => fst (check_one touches c)) l)) = [].
Proof.
  induction l as [|c l [IH1 IH2]]; [split; reflexivity|].
  simpl. rewrite (check_one_idem touches c). simpl.
  split; [f_equal; exact IH1 | exact IH2].
Qed.

Lemma onPlayerTouch_localPlayerId s playerId now :
  localPlayerId (onPlayerTouch playerId now s) = localPlayerId s.
Proof.
  unfold onPlayerTouch. destruct (activePlayers s !! playerId); reflexivity.
Qed.

Lemma system_ext (a b : CollaborationSystem) :
  challenges a = challenges b ->
  activePlayers a = activePlayers b ->
  relayChain a = relayChain b ->
  relayMultiplier a = relayMultiplier b ->
  playerTouches a = playerTouches b ->
  localPlayerId a = localPlayerId b ->
  outbox a = outbox b ->
  a = b.
Proof. destruct a, b; simpl; intros; subst; reflexivity. Qed.

(** A second [onPlayerTouch] for the same player at the same clock reading
    changes nothing but the outbox, which receives the broadcast again. *)
Lemma onPlayerTouch_twice s playerId now player :
  activePlayers s !! playerId = Some player ->
  onPlayerTouch playerId now (onPlayerTouch playerId now s)
  = sending [NetBroadcast (touch_event playerId now true)]
            (onPlayerTouch playerId now s).
Proof.
  intros Hreg.
  destruct (onPlayerTouch_fields s playerId now player Hreg)
    as (Hch & Hap & Hpt & Hrc & Hrm & Hout).
  assert (Hreg1 : activePlayers (onPlayerTouch playerId now s) !! playerId
                  = Some (with_touch true (Some now) player))
    by (rewrite Hap; apply lookup_insert_eq).
  destruct (onPlayerTouch_fields _ playerId now _ Hreg1)
    as (Hch2 & Hap2 & Hpt2 & Hrc2 & Hrm2 & Hout2).
  rewrite Hpt, insert_insert_eq in Hch2, Hpt2, Hout2.
  rewrite Hch in Hch2. rewrite Hch in Hout2.
  destruct (check_all_idem (<[playerId := now]> (playerTouches s))
              (challenges s)) as [Hidem Hnil].
  rewrite Hidem in Hch2. rewrite Hnil in Hout2. simpl in Hout2.
  apply system_ext; simpl.
  - rewrite Hch2, Hch. reflexivity.
  - rewrite Hap2, Hap, insert_insert_eq. reflexivity.
  - exact Hrc2.
  - exact Hrm2.
  - rewrite Hpt2, Hpt. reflexivity.
  - apply onPlayerTouch_localPlayerId.
  - exact Hout2.
Qed.

(** A second [initiateEnergyRelay] with the same arguments is one more
    hand-off: the recipient is on the chain twice. *)
Lemma initiateEnergyRelay_twice s fromId toId now pf pt :
  activePlayers s !! fromId = Some pf ->
  activePlayers s !! toId = Some pt ->
  relayChain (initiateEnergyRelay fromId toId now
                (initiateEnergyRelay fromId toId now s))
  = relayChain s ++ [toId; toId]
  /\ (now <> 0 ->
      relayMultiplier (initiateEnergyRelay fromId toId now
                         (initiateEnergyRelay fromId toId now s))
      = (relayMultiplier (initiateEnergyRelay fromId toId now s) + (1 # 2))%Q).
Proof.
  intros Hf Ht.
  destruct (initiateEnergyRelay_fields s fromId toId now pf pt Hf Ht)
    as (_ & Hap & Hchain & _ & _ & _).
  assert (Hf1 : activePlayers (initiateEnergyRelay fromId toId now s) !! fromId
                = Some pf) by (rewrite Hap; exact Hf).
  assert (Ht1 : activePlayers (initiateEnergyRelay fromId toId now s) !! toId
                = Some pt) by (rewrite Hap; exact Ht).
  destruct (initiateEnergyRelay_fields _ fromId toId now pf pt Hf1 Ht1)
    as (_ & _ & Hchain2 & Hmult2 & _ & _).
  split.
  - rewrite Hchain2, Hchain, <- app_assoc. reflexivity.
  - intros H0. rewrite Hmult2. unfold classifyRelay.
    rewrite (lastRelayTime_after_relay s fromId toId now pf pt Hf Ht H0).
    rewrite Z.sub_diag. reflexivity.
Qed.

End CollabFacts.

(* ===================================================================== *)
(** * Facts about the clock and the timestamps of the coordinator *)
(* ===================================================================== *)

Module GameFacts.
Import Constants Collab CollabSpec CollabFacts Game GameSpec.

Local Open Scope Z_scope.

Lemma step_same_but_event i j w : same_but_event i j -> step i w = step j w.
Proof.
  destruct i, j; simpl; intros H; try (inversion H; subst); reflexivity.
Qed.

Lemma run_same_but_event l1 l2 w :
  Forall2 same_but_event l1 l2 -> run l1 w = run l2 w.
Proof.
  intros H. revert w. induction H as [|i j l1 l2 Hij _ IH]; intros w.
  - reflexivity.
  - simpl. rewrite (step_same_but_event i j w Hij). apply IH.
Qed.

Lemma clock_call c w : clock (call c w) = clock w.
Proof. reflexivity. Qed.

Lemma clock_step i w : clock w <= clock (step i w).
Proof. destruct i; simpl; lia. Qed.

Lemma clock_run inputs w : clock w <= clock (run inputs w).
Proof.
  revert w. induction inputs as [|i inputs IH]; intros w; simpl; [lia|].
  pose proof (clock_step i w). pose proof (IH (step i w)).
  unfold run in *. lia.
Qed.

(** A call leaves a touch-map entry as it was or writes the reading of the
    clock. *)
Lemma touches_call c w p t :
  playerTouches (collaborationSystem (call c w)) !! p = Some t ->
  playerTouches (collaborationSystem w) !! p = Some t
  \/ (takes_reading (Invoke c) = true /\ t = clock w).
Proof.
  destruct c as [player|i|newId type pos required| |i|i|a b|]; simpl.
  - auto.
  - rewrite lookup_delete_Some. intros [_ H]. auto.
  - auto.
  - auto.
  - destruct (activePlayers (collaborationSystem w) !! i) as [player|] eqn:E.
    + destruct (onPlayerTouch_fields _ i (clock w) player E)
        as (_ & _ & Ht & _).
      rewrite Ht, lookup_insert_Some. intros [[_ <-]|[_ H]]; auto.
    + rewrite onPlayerTouch_unregistered by exact E. auto.
  - unfold onPlayerTouchRelease.
    destruct (activePlayers (collaborationSystem w) !! i); [|auto].
    simpl. rewrite lookup_delete_Some. intros [_ H]. auto.
  - destruct (activePlayers (collaborationSystem w) !! a) as [pf|] eqn:Ef;
      [|rewrite initiateEnergyRelay_unregistered by (left; exact Ef); auto].
    destruct (activePlayers (collaborationSystem w) !! b) as [pt|] eqn:Et;
      [|rewrite initiateEnergyRelay_unregistered by (right; exact Et); auto].
    destruct (initiateEnergyRelay_fields _ a b (clock w) pf pt Ef Et)
      as (_ & _ & _ & _ & Ht & _).
    rewrite Ht, lookup_insert_Some. intros [[_ <-]|[_ H]]; auto.
  - auto.
Qed.

Lemma touches_step i w p t :
  playerTouches (collaborationSystem (step i w)) !! p = Some t ->
  playerTouches (collaborationSystem w) !! p = Some t
  \/ (takes_reading i = true /\ t = clock w).
Proof.
  destruct i; simpl; auto.
  - intros H.
    destruct (touches_call (Touch (getLocalPlayerId w)) w p t H) as [|[_ ->]];
      auto.
  - apply touches_call.
Qed.

Lemma touches_run inputs w p t :
  playerTouches (collaborationSystem (run inputs w)) !! p = Some t ->
  playerTouches (collaborationSystem w) !! p = Some t
  \/ t ∈ readings inputs w.
Proof.
  revert w. induction inputs as [|i inputs IH]; intros w H.
  - left. exact H.
  - simpl in *. destruct (IH (step i w) H) as [H1|H1].
    + destruct (touches_step i w p t H1) as [H2|[H2 ->]].
      * left. exact H2.
      * right. rewrite H2. simpl. apply elem_of_cons. left. reflexivity.
    + right. apply elem_of_app. right. exact H1.
Qed.

Lemma readings_bounds inputs w t :
  t ∈ readings inputs w -> clock w <= t <= clock (run inputs w).
Proof.
  revert w. induction inputs as [|i inputs IH]; intros w.
  - simpl. intros H. inversion H.
  - simpl. rewrite elem_of_app. intros [H|H].
    + destruct (takes_reading i); [|inversion H].
      apply list_elem_of_singleton in H as ->.
      pose proof (clock_run (i :: inputs) w) as Hc. simpl in Hc. lia.
    + pose proof (IH (step i w) H). pose proof (clock_step i w). lia.
Qed.

Lemma lastRelayTime_stored s t :
  lastRelayTime s = Some t ->
  exists r, last (relayChain s) = Some r /\ playerTouches s !! r = Some t.
Proof.
  unfold lastRelayTime. destruct (last (relayChain s)) as [r|]; [|discriminate].
  destruct (playerTouches s !! r) as [u|] eqn:E; [|discriminate].
  destruct (u =? 0); [discriminate|]. intros [= ->]. exists r. auto.
Qed.

(** C3 (as amended).  The timestamps behind the synchronized-touch skew
    and the relay delta are readings of the local clock.  No public method
    of the coordinator takes a time, and the tap callback of the game
    controller ignores the gesture event it is given: two input streams
    that differ only in those events lead to the same world.  Every entry
    of the touch map is the clock reading at which a touch or a relay call
    of the run was handled, so it lies between the clock at the start and
    the clock at the end.  A touch call of a registered player stores the
    current reading and broadcasts it, and completes an open
    synchronized-touch challenge exactly when the stored readings of its
    participants are enough, at least two, and at most 500 apart.  A relay
    call stores the current reading under the recipient and is classified
    by the difference between that reading and the entry stored for the
    last recipient. *)
Theorem c3_decisions_use_clock_readings :
  (forall l1 l2 w, Forall2 same_but_event l1 l2 -> run l1 w = run l2 w)
  /\ (forall inputs w p t,
        playerTouches (collaborationSystem (run inputs w)) !! p = Some t ->
        playerTouches (collaborationSystem w) !! p = Some t
        \/ t ∈ readings inputs w)
  /\ (forall inputs w t,
        t ∈ readings inputs w -> clock w <= t <= clock (run inputs w))
  /\ (forall w p player,
        activePlayers (collaborationSystem w) !! p = Some player ->
        let touches := <[p := clock w]> (playerTouches (collaborationSystem w)) in
        let s' := collaborationSystem (call (Touch p) w) in
        playerTouches s' = touches
        /\ last (outbox s') = Some (NetBroadcast (touch_event p (clock w) true))
        /\ forall i c,
            challenges (collaborationSystem w) !! i = Some c ->
            open_sync c ->
            exists c',
              challenges s' !! i = Some c'
              /\ (isCompleted c' = true
                  <-> requiredPlayers c
                        <= Z.of_nat (length (touchingPlayers touches c))
                      /\ 2 <= Z.of_nat (length (touchingPlayers touches c))
                      /\ skew (touchStamps touches c) <= 500))
  /\ (forall w a b pa pb,
        activePlayers (collaborationSystem w) !! a = Some pa ->
        activePlayers (collaborationSystem w) !! b = Some pb ->
        let s := collaborationSystem w in
        let s' := collaborationSystem (call (Relay a b) w) in
        playerTouches s' = <[b := clock w]> (playerTouches s)
        /\ exists tm,
            outbox s'
            = outbox s
              ++ [ RelayEffect {| fromPlayerId := a; toPlayerId := b;
                                  timestamp := clock w; timing := tm |};
                   sendHapticToPlayer (localPlayerId s) b
                     (getRelayHapticPattern tm) (clock w) ]
            /\ match lastRelayTime s with
               | None => tm = GOOD
               | Some t =>
                   (exists r, last (relayChain s) = Some r
                              /\ playerTouches s !! r = Some t)
                   /\ (clock w - t < 100 -> tm = PERFECT)
                   /\ (100 <= clock w - t < 300 -> tm = GOOD)
                   /\ (300 <= clock w - t -> tm = MISS)
               end).
Proof.
  split; [exact run_same_but_event|].
  split; [exact touches_run|].
  split; [exact readings_bounds|].
  split.
  - intros w p player Hreg touches s'. subst s'. simpl.
    destruct (onPlayerTouch_fields _ p (clock w) player Hreg)
      as (Hch & _ & Ht & _ & _ & Hout).
    fold touches in Hch, Ht, Hout.
    split; [exact Ht|]. split.
    { rewrite Hout, app_assoc. apply last_snoc. }
    intros i c Hi Hopen.
    rewrite Hch, list_lookup_fmap, Hi. simpl.
    eexists; split; [reflexivity|].
    destruct (check_one_open touches c Hopen) as [Hyes Hno].
    change COLLAB_CONFIG.MAX_SYNC_DELAY with 500 in *.
    split.
    + intros Hdone.
      destruct (decide (requiredPlayers c
                          <= Z.of_nat (length (touchingPlayers touches c))
                        /\ 2 <= Z.of_nat (length (touchingPlayers touches c))
                        /\ skew (touchStamps touches c) <= 500)) as [H|H];
        [exact H|].
      rewrite (Hno H) in Hdone. simpl in Hdone.
      destruct Hopen as (_ & _ & Hc). congruence.
    + intros H. rewrite (Hyes H). reflexivity.
  - intros w a b pa pb Ha Hb s s'. subst s s'. simpl.
    destruct (initiateEnergyRelay_fields _ a b (clock w) pa pb Ha Hb)
      as (_ & _ & _ & _ & Ht & Hout).
    split; [exact Ht|].
    exists (fst (classifyRelay (collaborationSystem w) (clock w))).
    split; [exact Hout|].
    pose proof (classifyRelay_cases (collaborationSystem w) (clock w)) as Hc.
    destruct (lastRelayTime (collaborationSystem w)) as [t|] eqn:E.
    + destruct Hc as (H1 & H2 & H3).
      split; [exact (lastRelayTime_stored _ t E)|].
      split; [|split]; intros Hd;
        [rewrite (H1 Hd) | rewrite (H2 Hd) | rewrite (H3 Hd)]; reflexivity.
    + rewrite Hc. reflexivity.
Qed.

(** C3, as stated, fails.  The touch tracker emits a tap event for a
    contact that began at 1000 and ended at 1050; the event carries those
    times.  Player [a] has touched at 900.  When the callback handles the
    event at 1350 the touch of the local player is stamped 1350 and the
    challenge completes; when it handles the same event at 1450 the touch
    is stamped 1450 and the challenge stays open, although the contact
    ended 150 ms after the touch of [a].  An event that carries other
    times leads to the same world, and so does the call
    [onPlayerTouch(me)] without any event. *)
Lemma c3_tap_is_stamped_on_receipt :
  exists e,
    trackerEvents = [e]
    /\ Input.GestureEvent.type e = TAP
    /\ map (fun tp => (Input.TouchPoint.startTime tp,
                       Input.TouchPoint.timestamp tp,
                       Input.TouchPoint.duration tp))
           (Input.GestureEvent.touchPoints e) = [(1000, 1000, 50)]
    /\ playerTouches
         (collaborationSystem
            (run [Invoke (Touch "a"); Elapse 450; Tap e] arena)) !! "a"
       = Some 900
    /\ playerTouches
         (collaborationSystem
            (run [Invoke (Touch "a"); Elapse 450; Tap e] arena)) !! me
       = Some 1350
    /\ completedFlags
         (collaborationSystem
            (run [Invoke (Touch "a"); Elapse 450; Tap e] arena)) = [true]
    /\ playerTouches
         (collaborationSystem
            (run [Invoke (Touch "a"); Elapse 550; Tap e] arena)) !! me
       = Some 1450
    /\ completedFlags
         (collaborationSystem
            (run [Invoke (Touch "a"); Elapse 550; Tap e] arena)) = [false]
    /\ run [Invoke (Touch "a"); Elapse 550; Tap (tapStamped 0)] arena
       = run [Invoke (Touch "a"); Elapse 550; Tap e] arena
    /\ run [Invoke (Touch "a"); Elapse 550; Invoke (Touch me)] arena
       = run [Invoke (Touch "a"); Elapse 550; Tap e] arena.
Proof.
  exists (Input.discrete TAP
            (Input.endedAt 1050
               (InputSpec.freshPoint 0 0 (Input.mkVector2 5 5) 1000))).
  repeat split; vm_compute; reflexivity.
Qed.

Lemma c3_decisions_use_clock_readings_witness :
  activePlayers (collaborationSystem (call (Touch "a") arena)) !! me
  = Some (newPlayer me)
  /\ playerTouches
       (collaborationSystem (call (Touch me) (call (Touch "a") arena)))
     = <[me := 900]>
         (playerTouches (collaborationSystem (call (Touch "a") arena)))
  /\ Forall2 same_but_event
       [Elapse 450; Tap (tapStamped 0)] [Elapse 450; Tap (tapStamped 7)]
  /\ run [Elapse 450; Tap (tapStamped 0)] arena
     = run [Elapse 450; Tap (tapStamped 7)] arena
  /\ playerTouches
       (collaborationSystem (run [Elapse 450; Tap (tapStamped 0)] arena))
       !! me = Some 1350
  /\ (playerTouches (collaborationSystem arena) !! me = Some 1350
      \/ 1350 ∈ readings [Elapse 450; Tap (tapStamped 0)] arena)
  /\ 1350 ∈ readings [Elapse 450; Tap (tapStamped 0)] arena
  /\ clock arena <= 1350
       <= clock (run [Elapse 450; Tap (tapStamped 0)] arena)
  /\ activePlayers (collaborationSystem arena) !! "a" = Some (newPlayer "a")
  /\ activePlayers (collaborationSystem arena) !! me = Some (newPlayer me)
  /\ playerTouches (collaborationSystem (call (Relay "a" me) arena))
     = <[me := clock arena]> (playerTouches (collaborationSystem arena)).
Proof.
  assert (Hreg : activePlayers (collaborationSystem (call (Touch "a") arena))
                   !! me = Some (newPlayer me))
    by (vm_compute; reflexivity).
  assert (Hsame : Forall2 same_but_event
                    [Elapse 450; Tap (tapStamped 0)]
                    [Elapse 450; Tap (tapStamped 7)])
    by (repeat constructor).
  assert (Hb : playerTouches
                 (collaborationSystem
                    (run [Elapse 450; Tap (tapStamped 0)] arena)) !! me
               = Some 1350)
    by (vm_compute; reflexivity).
  assert (Hin : 1350 ∈ readings [Elapse 450; Tap (tapStamped 0)] arena)
    by (vm_compute; constructor).
  assert (Ha' : activePlayers (collaborationSystem arena) !! "a"
                = Some (newPlayer "a"))
    by (vm_compute; reflexivity).
  assert (Hb' : activePlayers (collaborationSystem arena) !! me
                = Some (newPlayer me))
    by (vm_compute; reflexivity).
  split; [exact Hreg|]. split; [|split; [exact Hsame|]].
  - exact (proj1 (proj1 (proj2 (proj2 (proj2 c3_decisions_use_clock_readings)))
                    (call (Touch "a") arena) me (newPlayer me) Hreg)).
  - split; [exact (proj1 c3_decisions_use_clock_readings _ _ arena Hsame)|].
    split; [exact Hb|].
    split; [exact (proj1 (proj2 c3_decisions_use_clock_readings)
                     _ arena me 1350 Hb)|].
    split; [exact Hin|].
    split; [exact (proj1 (proj2 (proj2 c3_decisions_use_clock_readings))
                     _ arena 1350 Hin)|].
    split; [exact Ha'|]. split; [exact Hb'|].
    exact (proj1 (proj2 (proj2 (proj2 (proj2 c3_decisions_use_clock_readings)))
                    arena "a" me (newPlayer "a") (newPlayer me) Ha' Hb')).
Defined.

End GameFacts.

(* ===================================================================== *)
(** * Facts about the event bus *)
(* ===================================================================== *)

Module NetFacts.
Import Net.

Local Open Scope Z_scope.

Section BusFacts.

Context {Data World : Type}.

Implicit Types (nm : NetworkManager Data World) (e : NetworkEvent Data).

Lemma receiveEvent_self e nm :
  senderId e = localPlayerId nm -> receiveEvent e nm = nm.
Proof.
  intros H. unfold receiveEvent. rewrite H, String.eqb_refl. reflexivity.
Qed.

Lemma receiveEvent_remote e nm :
  senderId e <> localPlayerId nm ->
  receiveEvent e nm
  = {| localPlayerId := localPlayerId nm;
       eventCallbacks := eventCallbacks nm;
       isConnected := isConnected nm;
       pendingEvents := pendingEvents nm ++ [e] |}.
Proof.
  intros H. unfold receiveEvent.
  destruct (String.eqb_spec (senderId e) (localPlayerId nm));
    [contradiction | reflexivity].
Qed.


Lemma update_after_duplicate e nm (w : World) :
  isConnected nm = true ->
  pendingEvents nm = [] ->
  senderId e <> localPlayerId nm ->
  snd (update (receiveEvent e (receiveEvent e nm)) w)
  = handleNetworkEvent nm e (handleNetworkEvent nm e w)
  /\ snd (update (receiveEvent e nm) w) = handleNetworkEvent nm e w.
Proof.
  intros Hc Hp H.
  rewrite (receiveEvent_remote e nm H).
  rewrite receiveEvent_remote by exact H.
  unfold update. simpl. rewrite Hc, Hp. simpl. split; reflexivity.
Qed.

Lemma handleNetworkEvent_single e nm (h : NetworkEventCallback Data World)
    (w : World) :
  eventCallbacks nm !! type e = Some [h] -> handleNetworkEvent nm e w = h e w.
Proof.
  intros H. unfold handleNetworkEvent, NetworkEventCallback in *.
  rewrite H. reflexivity.
Qed.

End BusFacts.

End NetFacts.

(* ===================================================================== *)
(** * Facts about duplicate envelopes *)
(* ===================================================================== *)

Module RemoteFacts.
Import Net NetFacts Remote RemoteSpec.

Local Open Scope Z_scope.

Section Queue.

Context {Data World : Type}.

Implicit Types (nm : NetworkManager Data World) (e : NetworkEvent Data).

Lemma receiveEvent_keeps e nm :
  localPlayerId (receiveEvent e nm) = localPlayerId nm
  /\ eventCallbacks (receiveEvent e nm) = eventCallbacks nm
  /\ isConnected (receiveEvent e nm) = isConnected nm
  /\ pendingEvents (receiveEvent e nm)
     = pendingEvents nm ++ (if from_elsewhere nm e then [e] else []).
Proof.
  unfold receiveEvent, from_elsewhere.
  destruct (String.eqb (senderId e) (localPlayerId nm)); simpl;
    repeat split; try reflexivity.
  now rewrite app_nil_r.
Qed.

Lemma receiveAll_keeps (es : list (NetworkEvent Data)) nm :
  localPlayerId (receiveAll es nm) = localPlayerId nm
  /\ eventCallbacks (receiveAll es nm) = eventCallbacks nm
  /\ isConnected (receiveAll es nm) = isConnected nm
  /\ pendingEvents (receiveAll es nm)
     = pendingEvents nm ++ List.filter (from_elsewhere nm) es.
Proof.
  revert nm. induction es as [|e es IH]; intros nm.
  - simpl. repeat split; try reflexivity. now rewrite app_nil_r.
  - simpl. destruct (IH (receiveEvent e nm)) as (H1 & H2 & H3 & H4).
    destruct (receiveEvent_keeps e nm) as (K1 & K2 & K3 & K4).
    unfold receiveAll in *. simpl.
    rewrite H1, H2, H3, H4, K1, K2, K3, K4.
    repeat split; try reflexivity.
    assert (Hf : List.filter (from_elsewhere (receiveEvent e nm)) es
                 = List.filter (from_elsewhere nm) es).
    { apply List.filter_ext. intros x. unfold from_elsewhere.
      now rewrite K1. }
    rewrite Hf. destruct (from_elsewhere nm e); simpl.
    + now rewrite <- app_assoc.
    + now rewrite app_nil_r.
Qed.




End Queue.

(** ** The consumer *)














End RemoteFacts.

(* ===================================================================== *)
(** * Facts about the discrete gestures *)
(* ===================================================================== *)

Module InputFacts.
Import Constants Input InputSpec TapScenarios.

Local Open Scope Z_scope.

(** ** Counting outcomes *)

Lemma fold_left_preserves {A B} (P : A -> Prop) (f : A -> B -> A) l a :
  (forall a' b, P a' -> P (f a' b)) -> P a -> P (fold_left f l a).
Proof.
  intros Hf. revert a. induction l as [|b l IH]; intros a Ha; [exact Ha|].
  simpl. apply IH, Hf, Ha.
Qed.

Lemma outcomes_ext o c1 c2 :
  timers c1 = timers c2 -> emitted c1 = emitted c2 ->
  outcomes o c1 = outcomes o c2.
Proof.
  intros Ht He. unfold outcomes, timers_of, taps_of, long_presses_of.
  now rewrite Ht, He.
Qed.

Lemma carries_discrete o g tp : carries o (discrete g tp) = own o tp.
Proof. unfold carries, own. simpl. apply orb_false_r. Qed.

Lemma outcomes_result o tp now c c1 :
  discrete_result tp now c c1 ->
  (outcomes o c1 <= outcomes o c + (if own o tp then 1 else 0))%nat.
Proof.
  unfold outcomes, timers_of, taps_of, long_presses_of.
  intros [Ht He|Ht He|g Hg Ht He]; rewrite Ht, He.
  - lia.
  - rewrite List.filter_app, length_app. simpl.
    destruct (own o tp); simpl; lia.
  - rewrite !List.filter_app, !length_app. simpl.
    rewrite carries_discrete.
    destruct Hg as [-> | ->]; simpl; destruct (own o tp); simpl; lia.
Qed.

Lemma recognizeTap_result tp now c :
  touchPoints (recognizeTap tp now c) = touchPoints c
  /\ nextObj (recognizeTap tp now c) = nextObj c
  /\ discrete_result tp now c (recognizeTap tp now c).
Proof.
  unfold recognizeTap.
  destruct (doubleTapCandidate (TouchPoint.position tp) now c).
  - destruct (tapCount c + 1 =? 2); simpl.
    + split; [reflexivity|]. split; [reflexivity|].
      apply (result_event _ _ _ _ DOUBLE_TAP); [left|..]; reflexivity.
    + split; [reflexivity|]. split; [reflexivity|].
      apply result_none; reflexivity.
  - simpl. split; [reflexivity|]. split; [reflexivity|].
    apply result_timer; reflexivity.
Qed.

Lemma recognizeDiscreteGestures_result tp now c :
  touchPoints (recognizeDiscreteGestures tp now c) = touchPoints c
  /\ nextObj (recognizeDiscreteGestures tp now c) = nextObj c
  /\ discrete_result tp now c (recognizeDiscreteGestures tp now c).
Proof.
  unfold recognizeDiscreteGestures.
  change GESTURE_THRESHOLDS.TAP_DURATION with 200.
  change GESTURE_THRESHOLDS.LONG_PRESS_DURATION with 500.
  destruct (Z.ltb_spec (TouchPoint.duration tp) 200) as [Hd|Hd].
  - destruct (Z.ltb_spec 500 (TouchPoint.duration tp)) as [Hl|_]; [lia|].
    destruct (distance_lt (TouchPoint.position tp)
                (TouchPoint.startPosition tp) 10).
    + apply recognizeTap_result.
    + split; [reflexivity|]. split; [reflexivity|].
      apply result_none; reflexivity.
  - destruct (500 <? TouchPoint.duration tp); simpl.
    + split; [reflexivity|]. split; [reflexivity|].
      apply (result_event _ _ _ _ LONG_PRESS); [right|..]; reflexivity.
    + split; [reflexivity|]. split; [reflexivity|].
      apply result_none; reflexivity.
Qed.

(** ** The invariant is kept by every handler *)

Lemma wf_create : wf create.
Proof.
  split; simpl.
  - intros k tp. rewrite lookup_empty. discriminate.
  - intros k1 k2 tp1 tp2. rewrite lookup_empty. discriminate.
  - intros o. unfold outcomes, timers_of, taps_of, long_presses_of. simpl. lia.
  - intros o _. reflexivity.
  - intros o _. reflexivity.
Qed.

Lemma wf_set_swipePoints l c : wf c -> wf (set_swipePoints l c).
Proof.
  intros [H1 H2 H3 H4 H5]. split; simpl; try assumption.
Qed.

Lemma wf_start_one now c touch : wf c -> wf (start_one now c touch).
Proof.
  intros [H1 H2 H3 H4 H5]. unfold start_one.
  split; unfold live; simpl.
  - intros k tp. rewrite lookup_insert_Some.
    intros [[_ <-]|[_ Hk]]; simpl; [lia|]. specialize (H1 k tp Hk). lia.
  - intros k1 k2 tp1 tp2. rewrite !lookup_insert_Some.
    intros [[<- <-]|[Hn1 Hk1]] [[<- <-]|[Hn2 Hk2]]; simpl; intros Ho.
    + reflexivity.
    + specialize (H1 _ _ Hk2). lia.
    + specialize (H1 _ _ Hk1). lia.
    + exact (H2 _ _ _ _ Hk1 Hk2 Ho).
  - exact H3.
  - intros o (k & tp & Hk & Ho). revert Hk. rewrite lookup_insert_Some.
    intros [[_ <-]|[_ Hk]].
    + simpl in Ho. subst o. apply (H5 (nextObj c)). lia.
    + apply H4. exists k, tp. split; assumption.
  - intros o Ho. apply (H5 o). lia.
Qed.

Lemma wf_move_one now c touch : wf c -> wf (move_one now c touch).
Proof.
  intros Hwf. unfold move_one.
  destruct (touchPoints c !! identifier touch) as [tp0|] eqn:E; [|exact Hwf].
  destruct Hwf as [H1 H2 H3 H4 H5].
  apply wf_set_swipePoints. split; unfold live; simpl.
  - intros k tp. rewrite lookup_insert_Some.
    intros [[_ <-]|[_ Hk]]; simpl; [exact (H1 _ _ E) | exact (H1 k tp Hk)].
  - intros k1 k2 tp1 tp2. rewrite !lookup_insert_Some.
    intros [[<- <-]|[Hn1 Hk1]] [[<- <-]|[Hn2 Hk2]]; simpl; intros Ho.
    + reflexivity.
    + exact (H2 _ _ _ _ E Hk2 Ho).
    + exact (H2 _ _ _ _ Hk1 E Ho).
    + exact (H2 _ _ _ _ Hk1 Hk2 Ho).
  - exact H3.
  - intros o (k & tp & Hk & Ho). revert Hk. rewrite lookup_insert_Some.
    intros [[_ <-]|[_ Hk]].
    + simpl in Ho. apply H4. exists (identifier touch), tp0.
      split; assumption.
    + apply H4. exists k, tp. split; assumption.
  - exact H5.
Qed.

Lemma wf_cancel_one c touch : wf c -> wf (cancel_one c touch).
Proof.
  intros [H1 H2 H3 H4 H5]. unfold cancel_one. split; unfold live; simpl.
  - intros k tp [_ Hk]%lookup_delete_Some. exact (H1 k tp Hk).
  - intros k1 k2 tp1 tp2 [_ Hk1]%lookup_delete_Some [_ Hk2]%lookup_delete_Some.
    exact (H2 _ _ _ _ Hk1 Hk2).
  - exact H3.
  - intros o (k & tp & [_ Hk]%lookup_delete_Some & Ho).
    apply H4. exists k, tp. split; assumption.
  - exact H5.
Qed.

Lemma wf_clear c : wf c -> wf (clear c).
Proof.
  intros [H1 H2 H3 H4 H5]. unfold clear. apply wf_set_swipePoints.
  split; unfold live; simpl.
  - intros k tp. rewrite lookup_empty. discriminate.
  - intros k1 k2 tp1 tp2. rewrite lookup_empty. discriminate.
  - exact H3.
  - intros o (k & tp & Hk & _). rewrite lookup_empty in Hk. discriminate.
  - exact H5.
Qed.

Lemma wf_end_one now c touch : wf c -> wf (end_one now c touch).
Proof.
  intros Hwf. unfold end_one.
  destruct (touchPoints c !! identifier touch) as [tp0|] eqn:E; [|exact Hwf].
  destruct Hwf as [H1 H2 H3 H4 H5].
  match goal with
  | |- context [recognizeDiscreteGestures ?tp now c] => set (ended := tp)
  end.
  destruct (recognizeDiscreteGestures_result ended now c) as (Htp & Hn & Hres).
  assert (Hown : forall o, own o ended = true -> o = TouchPoint.obj tp0)
    by (intros o Ho; apply Nat.eqb_eq in Ho; simpl in Ho; congruence).
  assert (Hother : forall o, o <> TouchPoint.obj tp0 ->
                             (outcomes o (recognizeDiscreteGestures ended now c)
                              <= outcomes o c)%nat).
  { intros o Ho. pose proof (outcomes_result o _ _ _ _ Hres) as Hle.
    destruct (own o ended) eqn:Eo; [apply Hown in Eo; contradiction | lia]. }
  assert (Hzero : outcomes (TouchPoint.obj tp0) c = 0%nat)
    by (apply H4; exists (identifier touch), tp0; split; [exact E|reflexivity]).
  split; unfold live; simpl; rewrite ?Htp, ?Hn.
  - intros k tp [_ Hk]%lookup_delete_Some. exact (H1 k tp Hk).
  - intros k1 k2 tp1 tp2 [_ Hk1]%lookup_delete_Some [_ Hk2]%lookup_delete_Some.
    exact (H2 _ _ _ _ Hk1 Hk2).
  - intros o.
    rewrite (outcomes_ext o _ (recognizeDiscreteGestures ended now c))
      by reflexivity.
    destruct (decide (o = TouchPoint.obj tp0)) as [->|Ho].
    + pose proof (outcomes_result (TouchPoint.obj tp0) _ _ _ _ Hres) as Hle.
      destruct (own (TouchPoint.obj tp0) ended); lia.
    + specialize (Hother o Ho). specialize (H3 o). lia.
  - intros o (k & tp & [Hne Hk]%lookup_delete_Some & Ho).
    rewrite (outcomes_ext o _ (recognizeDiscreteGestures ended now c))
      by reflexivity.
    assert (o <> TouchPoint.obj tp0).
    { intros ->. apply Hne. symmetry. exact (H2 _ _ _ _ Hk E Ho). }
    assert (outcomes o c = 0%nat)
      by (apply H4; exists k, tp; split; assumption).
    specialize (Hother o ltac:(assumption)). lia.
  - intros o Ho.
    rewrite (outcomes_ext o _ (recognizeDiscreteGestures ended now c))
      by reflexivity.
    assert (o <> TouchPoint.obj tp0) by (specialize (H1 _ _ E); lia).
    specialize (Hother o ltac:(assumption)). specialize (H5 o Ho). lia.
Qed.

(** ** The timer queue *)

Lemma tapTimeouts_fields (l : list (Z * TouchPoint.t)) c :
  let c1 := fold_left (fun c' entry => tapTimeout (snd entry) c') l c in
  touchPoints c1 = touchPoints c
  /\ nextObj c1 = nextObj c
  /\ timers c1 = timers c
  /\ tapCount c1 = tapCount c
  /\ lastTapTime c1 = lastTapTime c
  /\ lastTapPosition c1 = lastTapPosition c
  /\ emitted c1
     = emitted c
       ++ (if tapCount c =? 1
           then map (fun entry => discrete TAP (snd entry)) l
           else []).
Proof.
  revert c. induction l as [|entry l IH]; intros c; simpl.
  - repeat split; try reflexivity.
    destruct (tapCount c =? 1); now rewrite app_nil_r.
  - specialize (IH (tapTimeout (snd entry) c)). simpl in IH.
    destruct IH as (I1 & I2 & I3 & I4 & I5 & I6 & I7).
    rewrite I1, I2, I3, I4, I5, I6, I7. unfold tapTimeout.
    destruct (tapCount c =? 1) eqn:E; simpl.
    + rewrite E, <- app_assoc. repeat split; reflexivity.
    + rewrite E. repeat split; reflexivity.
Qed.

Lemma filter_split_length {A} (P Q : A -> bool) (l : list A) :
  (length (List.filter P (List.filter Q l))
   + length (List.filter P (List.filter (fun a => negb (Q a)) l)))%nat
  = length (List.filter P l).
Proof.
  induction l as [|a l IH]; [reflexivity|]. simpl.
  destruct (Q a), (P a) eqn:EP; simpl; rewrite ?EP; simpl; lia.
Qed.

Lemma taps_of_timeouts o (l : list (Z * TouchPoint.t)) :
  length (List.filter
            (fun e => is_tap_or_double (GestureEvent.type e) && carries o e)
            (map (fun entry => discrete TAP (snd entry)) l))
  = length (List.filter (fun entry => own o (snd entry)) l)
  /\ length (List.filter
               (fun e => is_long_press (GestureEvent.type e) && carries o e)
               (map (fun entry => discrete TAP (snd entry)) l))
     = 0%nat.
Proof.
  induction l as [|entry l [IH1 IH2]]; [split; reflexivity|]. simpl.
  rewrite carries_discrete.
  destruct (own o (snd entry)); simpl; rewrite IH1; auto.
Qed.

Lemma outcomes_runTimers o now c :
  (outcomes o (runTimers now c) <= outcomes o c)%nat.
Proof.
  unfold runTimers.
  destruct (tapTimeouts_fields (List.filter (is_due now) (timers c))
              (set_timers (List.filter (fun e => negb (is_due now e))
                             (timers c)) c))
    as (_ & _ & Ht & _ & _ & _ & He).
  simpl in Ht, He.
  unfold outcomes, timers_of, taps_of, long_presses_of. rewrite Ht, He.
  pose proof (filter_split_length (fun entry => own o (snd entry))
                (is_due now) (timers c)) as Hsplit.
  destruct (taps_of_timeouts o (List.filter (is_due now) (timers c)))
    as [Htap Hlp].
  destruct (tapCount c =? 1).
  - rewrite !List.filter_app, !length_app, Htap, Hlp. lia.
  - rewrite !app_nil_r. lia.
Qed.

Lemma wf_runTimers now c : wf c -> wf (runTimers now c).
Proof.
  intros [H1 H2 H3 H4 H5].
  assert (Hf : touchPoints (runTimers now c) = touchPoints c
               /\ nextObj (runTimers now c) = nextObj c).
  { unfold runTimers.
    destruct (tapTimeouts_fields (List.filter (is_due now) (timers c))
                (set_timers (List.filter (fun e => negb (is_due now e))
                               (timers c)) c))
      as (Ha & Hb & _). simpl in Ha, Hb. split; assumption. }
  destruct Hf as [Htp Hn].
  split; unfold live; rewrite ?Htp, ?Hn.
  - exact H1.
  - exact H2.
  - intros o. pose proof (outcomes_runTimers o now c). specialize (H3 o). lia.
  - intros o Hl. pose proof (outcomes_runTimers o now c).
    specialize (H4 o Hl). lia.
  - intros o Ho. pose proof (outcomes_runTimers o now c).
    specialize (H5 o Ho). lia.
Qed.

Lemma wf_step i c : wf c -> wf (step i c).
Proof.
  intros H. destruct i; unfold step.
  - unfold onTouchStart. apply wf_set_swipePoints.
    apply (fold_left_preserves wf); [intros; now apply wf_start_one | exact H].
  - apply (fold_left_preserves wf); [intros; now apply wf_move_one | exact H].
  - apply (fold_left_preserves wf); [intros; now apply wf_end_one | exact H].
  - apply (fold_left_preserves wf); [intros; now apply wf_cancel_one | exact H].
  - apply wf_clear, H.
  - apply wf_runTimers, H.
Qed.

Lemma wf_run inputs c : wf c -> wf (run inputs c).
Proof.
  intros H. apply (fold_left_preserves wf); [|exact H].
  intros c' i. apply wf_step.
Qed.

(** C5.  Whatever the input stream, for every contact at most one tap or
    double-tap and at most one long-press is emitted, and never one of each;
    the touch points being tracked are distinct contacts.
    The tap path needs a duration below [TAP_DURATION] = 200 and the
    long-press path one above [LONG_PRESS_DURATION] = 500, which no duration
    satisfies together, so one call of [recognizeDiscreteGestures] never
    takes both. *)
Theorem c5_one_discrete_gesture_per_contact :
  (forall inputs o,
      (taps_of o (run inputs create) <= 1)%nat
      /\ (long_presses_of o (run inputs create) <= 1)%nat
      /\ (taps_of o (run inputs create)
          + long_presses_of o (run inputs create) <= 1)%nat)
  /\ (forall inputs k1 k2 tp1 tp2,
        touchPoints (run inputs create) !! k1 = Some tp1 ->
        touchPoints (run inputs create) !! k2 = Some tp2 ->
        TouchPoint.obj tp1 = TouchPoint.obj tp2 -> k1 = k2)
  /\ GESTURE_THRESHOLDS.TAP_DURATION = 200
  /\ GESTURE_THRESHOLDS.LONG_PRESS_DURATION = 500
  /\ (forall tp now c,
        TouchPoint.duration tp < GESTURE_THRESHOLDS.TAP_DURATION ->
        recognizeDiscreteGestures tp now c
        = if distance_lt (TouchPoint.position tp)
                         (TouchPoint.startPosition tp) 10
          then recognizeTap tp now c else c)
  /\ (forall tp now c,
        GESTURE_THRESHOLDS.LONG_PRESS_DURATION < TouchPoint.duration tp ->
        recognizeDiscreteGestures tp now c
        = emitGesture (discrete LONG_PRESS tp) c).
Proof.
  split; [|split; [|split; [reflexivity|split; [reflexivity|split]]]].
  - intros inputs o.
    pose proof (wf_once _ (wf_run inputs create wf_create) o) as H.
    unfold outcomes in H. lia.
  - intros inputs. exact (wf_inj _ (wf_run inputs create wf_create)).
  - intros tp now c Hd. unfold recognizeDiscreteGestures.
    change GESTURE_THRESHOLDS.TAP_DURATION with 200 in *.
    change GESTURE_THRESHOLDS.LONG_PRESS_DURATION with 500.
    destruct (Z.ltb_spec (TouchPoint.duration tp) 200); [|lia].
    destruct (Z.ltb_spec 500 (TouchPoint.duration tp)); [lia|reflexivity].
  - intros tp now c Hd. unfold recognizeDiscreteGestures.
    change GESTURE_THRESHOLDS.TAP_DURATION with 200.
    change GESTURE_THRESHOLDS.LONG_PRESS_DURATION with 500 in *.
    destruct (Z.ltb_spec (TouchPoint.duration tp) 200); [lia|].
    destruct (Z.ltb_spec 500 (TouchPoint.duration tp)); [reflexivity|lia].
Qed.

Lemma c5_one_discrete_gesture_per_contact_witness :
  TouchPoint.duration (stillPoint 600) > 500
  /\ TouchPoint.duration (stillPoint 50) < 200
  /\ map GestureEvent.type
       (emitted (recognizeDiscreteGestures (stillPoint 600) 600 create))
     = [LONG_PRESS]
  /\ emitted (recognizeDiscreteGestures (stillPoint 50) 50 create) = []
  /\ map fst (timers (recognizeDiscreteGestures (stillPoint 50) 50 create))
     = [350].
Proof.
  assert (Hlong : GESTURE_THRESHOLDS.LONG_PRESS_DURATION
                  < TouchPoint.duration (stillPoint 600))
    by (vm_compute; reflexivity).
  assert (Hshort : TouchPoint.duration (stillPoint 50)
                   < GESTURE_THRESHOLDS.TAP_DURATION)
    by (vm_compute; reflexivity).
  split; [simpl; lia|]. split; [simpl; lia|].
  destruct c5_one_discrete_gesture_per_contact as (_ & _ & _ & _ & Htap & Hlp).
  rewrite (Hlp _ 600 create Hlong), !(Htap _ 50 create Hshort).
  repeat split; reflexivity.
Defined.

(* --------------------------------------------------------------------- *)
(** ** Tap and double-tap from a recognizer at rest *)
(* --------------------------------------------------------------------- *)

Lemma distance_lt_self p :
  distance_lt p p 10 = true /\ distance_lt p p 30 = true.
Proof.
  unfold distance_lt.
  assert (H : ((x p - x p) * (x p - x p) + (y p - y p) * (y p - y p) == 0)%Q)
    by ring.
  split.
  - destruct (Qle_bool (10 * 10)
                ((x p - x p) * (x p - x p) + (y p - y p) * (y p - y p)))
      eqn:E; [|reflexivity].
    apply Qle_bool_iff in E. rewrite H in E. exfalso. revert E.
    apply Qlt_not_le. reflexivity.
  - destruct (Qle_bool (30 * 30)
                ((x p - x p) * (x p - x p) + (y p - y p) * (y p - y p)))
      eqn:E; [|reflexivity].
    apply Qle_bool_iff in E. rewrite H in E. exfalso. revert E.
    apply Qlt_not_le. reflexivity.
Qed.

Lemma recognize_first_tap tp t c :
  TouchPoint.duration tp < 200 ->
  distance_lt (TouchPoint.position tp) (TouchPoint.startPosition tp) 10 = true ->
  doubleTapCandidate (TouchPoint.position tp) t c = false ->
  tapState (recognizeDiscreteGestures tp t c)
  = (timers c ++ [(t + 300, tp)], emitted c, 1, t,
     Some (TouchPoint.position tp)).
Proof.
  intros Hd Hm Hc. unfold recognizeDiscreteGestures.
  change GESTURE_THRESHOLDS.TAP_DURATION with 200.
  change GESTURE_THRESHOLDS.LONG_PRESS_DURATION with 500.
  destruct (Z.ltb_spec (TouchPoint.duration tp) 200); [|lia].
  destruct (Z.ltb_spec 500 (TouchPoint.duration tp)); [lia|].
  rewrite Hm. unfold recognizeTap. rewrite Hc. reflexivity.
Qed.

Lemma recognize_second_tap tp t c :
  TouchPoint.duration tp < 200 ->
  distance_lt (TouchPoint.position tp) (TouchPoint.startPosition tp) 10 = true ->
  tapCount c = 1 ->
  doubleTapCandidate (TouchPoint.position tp) t c = true ->
  tapState (recognizeDiscreteGestures tp t c)
  = (timers c, emitted c ++ [discrete DOUBLE_TAP tp], 0, t,
     Some (TouchPoint.position tp)).
Proof.
  intros Hd Hm Hn Hc. unfold recognizeDiscreteGestures.
  change GESTURE_THRESHOLDS.TAP_DURATION with 200.
  change GESTURE_THRESHOLDS.LONG_PRESS_DURATION with 500.
  destruct (Z.ltb_spec (TouchPoint.duration tp) 200); [|lia].
  destruct (Z.ltb_spec 500 (TouchPoint.duration tp)); [lia|].
  rewrite Hm. unfold recognizeTap. rewrite Hc, Hn.
  change (1 + 1 =? 2) with true. reflexivity.
Qed.

Lemma onTouchEnd_one e t c tp :
  touchPoints c !! identifier e = Some tp ->
  tapState (onTouchEnd [e] t c)
  = tapState (recognizeDiscreteGestures (endedAt t tp) t c).
Proof.
  intros H. unfold onTouchEnd, fold_left, end_one. rewrite H. reflexivity.
Qed.

Lemma end_first_tap c e tp t :
  touchPoints c !! identifier e = Some tp ->
  qualifies tp t ->
  doubleTapCandidate (TouchPoint.position tp) t c = false ->
  tapState (onTouchEnd [e] t c)
  = (timers c ++ [(t + 300, endedAt t tp)], emitted c, 1, t,
     Some (TouchPoint.position tp)).
Proof.
  intros H [Hd Hm] Hc. rewrite (onTouchEnd_one e t c tp H).
  apply (recognize_first_tap (endedAt t tp)); assumption.
Qed.

Lemma end_second_tap c e tp t :
  touchPoints c !! identifier e = Some tp ->
  qualifies tp t ->
  tapCount c = 1 ->
  doubleTapCandidate (TouchPoint.position tp) t c = true ->
  tapState (onTouchEnd [e] t c)
  = (timers c, emitted c ++ [discrete DOUBLE_TAP (endedAt t tp)], 0, t,
     Some (TouchPoint.position tp)).
Proof.
  intros H [Hd Hm] Hn Hc. rewrite (onTouchEnd_one e t c tp H).
  apply (recognize_second_tap (endedAt t tp)); assumption.
Qed.

Lemma filter_not_due u (l : list (Z * TouchPoint.t)) :
  Forall (fun entry => u < fst entry) l ->
  List.filter (is_due u) l = []
  /\ List.filter (fun e => negb (is_due u e)) l = l.
Proof.
  induction 1 as [|e l He _ [IH1 IH2]]; [split; reflexivity|].
  simpl. assert (Hf : is_due u e = false)
    by (unfold is_due; destruct (Z.leb_spec (fst e) u); [lia|reflexivity]).
  rewrite Hf. simpl. split; [exact IH1 | f_equal; exact IH2].
Qed.

Lemma filter_all_due u (l : list (Z * TouchPoint.t)) :
  Forall (fun entry => fst entry <= u) l ->
  List.filter (is_due u) l = l
  /\ List.filter (fun e => negb (is_due u e)) l = [].
Proof.
  induction 1 as [|e l He _ [IH1 IH2]]; [split; reflexivity|].
  simpl. assert (Hf : is_due u e = true)
    by (unfold is_due; destruct (Z.leb_spec (fst e) u); [reflexivity|lia]).
  rewrite Hf. simpl. split; [f_equal; exact IH1 | exact IH2].
Qed.

Lemma runTimers_not_due u c :
  Forall (fun entry => u < fst entry) (timers c) ->
  runTimers u c = c.
Proof.
  intros H. unfold runTimers.
  destruct (filter_not_due u (timers c) H) as [Hd Hr].
  rewrite Hd, Hr. destruct c; reflexivity.
Qed.

Lemma runTimers_all_due u c :
  Forall (fun entry => fst entry <= u) (timers c) ->
  tapState (runTimers u c)
  = ([],
     emitted c
     ++ (if tapCount c =? 1
         then map (fun entry => discrete TAP (snd entry)) (timers c)
         else []),
     tapCount c, lastTapTime c, lastTapPosition c).
Proof.
  intros H. unfold runTimers, tapState.
  destruct (filter_all_due u (timers c) H) as [Hd Hr]. rewrite Hd, Hr.
  destruct (tapTimeouts_fields (timers c) (set_timers [] c))
    as (_ & _ & Ht & Hn & Hl & Hp & He).
  simpl in Ht, Hn, Hl, Hp, He. rewrite Ht, Hn, Hl, Hp, He. reflexivity.
Qed.

Lemma tapState_fold {B} (f : InputController -> B -> InputController) l c :
  (forall c' b, tapState (f c' b) = tapState c') ->
  tapState (fold_left f l c) = tapState c.
Proof.
  intros Hf.
  apply (fold_left_preserves (fun c' => tapState c' = tapState c));
    [|reflexivity].
  intros c' b <-. apply Hf.
Qed.

Lemma quiet_step d i c :
  quiet d i -> not_before d c -> tapState (step i c) = tapState c.
Proof.
  intros Hq Hn. destruct i; simpl in Hq; unfold step.
  - unfold onTouchStart.
    transitivity (tapState (fold_left (start_one now) changedTouches c));
      [reflexivity|].
    apply tapState_fold. reflexivity.
  - apply tapState_fold. intros c' b. unfold move_one.
    destruct (touchPoints c' !! identifier b); reflexivity.
  - contradiction.
  - apply tapState_fold. reflexivity.
  - reflexivity.
  - rewrite runTimers_not_due; [reflexivity|].
    eapply Forall_impl; [exact Hn|]. intros entry He. simpl in He. lia.
Qed.

Lemma quiet_run d l c :
  Forall (quiet d) l -> not_before d c -> tapState (run l c) = tapState c.
Proof.
  intros Hl. revert c. induction Hl as [|i l Hi _ IH]; intros c Hn;
    [reflexivity|].
  change (run (i :: l) c) with (run l (step i c)).
  assert (Hs : tapState (step i c) = tapState c) by (eapply quiet_step; eauto).
  rewrite IH; [exact Hs|].
  unfold not_before. injection Hs as -> _ _ _ _. exact Hn.
Qed.

Lemma count_type_app g l1 l2 :
  count_type g (l1 ++ l2) = (count_type g l1 + count_type g l2)%nat.
Proof. unfold count_type. now rewrite List.filter_app, length_app. Qed.

Lemma count_type_discrete tp :
  count_type DOUBLE_TAP [discrete DOUBLE_TAP tp] = 1%nat
  /\ count_type TAP [discrete DOUBLE_TAP tp] = 0%nat
  /\ count_type TAP [discrete TAP tp] = 1%nat
  /\ count_type DOUBLE_TAP [discrete TAP tp] = 0%nat.
Proof. repeat split; reflexivity. Qed.

Lemma runTimers_idle u c :
  tapCount c = 0 -> emitted (runTimers u c) = emitted c.
Proof.
  intros H. unfold runTimers.
  destruct (tapTimeouts_fields (List.filter (is_due u) (timers c))
              (set_timers (List.filter (fun e => negb (is_due u e))
                             (timers c)) c))
    as (_ & _ & _ & _ & _ & _ & He).
  simpl in He. rewrite He, H. simpl. apply app_nil_r.
Qed.

Lemma run_app l1 l2 c : run (l1 ++ l2) c = run l2 (run l1 c).
Proof. unfold run. apply List.fold_left_app. Qed.

Lemma double_tap_general c e1 tp1 t1 mid e2 tp2 t2 u2 :
  timers c = [] ->
  touchPoints c !! identifier e1 = Some tp1 ->
  qualifies tp1 t1 ->
  doubleTapCandidate (TouchPoint.position tp1) t1 c = false ->
  Forall (quiet (t1 + 300)) mid ->
  touchPoints (run (TouchEnd [e1] t1 :: mid) c) !! identifier e2 = Some tp2 ->
  qualifies tp2 t2 ->
  distance_lt (TouchPoint.position tp2) (TouchPoint.position tp1) 30 = true ->
  t2 - t1 < 300 ->
  let c' := run (TouchEnd [e1] t1 :: mid ++ [TouchEnd [e2] t2; Timeout u2]) c in
  emitted c' = emitted c ++ [discrete DOUBLE_TAP (endedAt t2 tp2)]
  /\ tapCount c' = 0
  /\ (t1 + 300 <= u2 -> timers c' = []).
Proof.
  intros Ht H1 Hq1 Hc1 Hmid H2 Hq2 Hnear Hi c'.
  pose proof (end_first_tap c e1 tp1 t1 H1 Hq1 Hc1) as Hs1.
  rewrite Ht in Hs1. simpl app in Hs1.
  set (s1 := onTouchEnd [e1] t1 c) in *.
  assert (Hnb : not_before (t1 + 300) s1).
  { unfold not_before. injection Hs1 as -> _ _ _ _.
    apply List.Forall_cons; [simpl; lia | apply List.Forall_nil]. }
  change (run (TouchEnd [e1] t1 :: mid) c) with (run mid s1) in H2.
  pose proof (quiet_run _ mid s1 Hmid Hnb) as Hs.
  rewrite Hs1 in Hs. set (c1 := run mid s1) in *.
  injection Hs as Htm Hem Hn Hlt Hlp.
  assert (Hcand : doubleTapCandidate (TouchPoint.position tp2) t2 c1 = true).
  { unfold doubleTapCandidate. rewrite Hlp, Hlt, Hnear.
    change GESTURE_THRESHOLDS.DOUBLE_TAP_INTERVAL with 300.
    destruct (Z.ltb_spec (t2 - t1) 300); [reflexivity|lia]. }
  pose proof (end_second_tap c1 e2 tp2 t2 H2 Hq2 Hn Hcand) as Hs2.
  rewrite Htm, Hem in Hs2.
  assert (Hc' : c' = runTimers u2 (onTouchEnd [e2] t2 c1)).
  { subst c' c1 s1.
    change (TouchEnd [e1] t1 :: mid ++ [TouchEnd [e2] t2; Timeout u2])
      with ((TouchEnd [e1] t1 :: mid) ++ [TouchEnd [e2] t2; Timeout u2]).
    rewrite run_app. reflexivity. }
  set (s2 := onTouchEnd [e2] t2 c1) in *.
  injection Hs2 as Htm2 Hem2 Hn2 _ _.
  rewrite Hc'. split; [|split].
  - rewrite runTimers_idle by exact Hn2. exact Hem2.
  - destruct (tapTimeouts_fields (List.filter (is_due u2) (timers s2))
                (set_timers (List.filter (fun e => negb (is_due u2 e))
                               (timers s2)) s2))
      as (_ & _ & _ & Hn' & _).
    unfold runTimers. rewrite Hn'. exact Hn2.
  - intros Hu.
    assert (Hall : Forall (fun entry => fst entry <= u2) (timers s2))
      by (rewrite Htm2; apply List.Forall_cons;
          [simpl; lia | apply List.Forall_nil]).
    pose proof (runTimers_all_due u2 s2 Hall) as Hr.
    injection Hr as Hr _ _ _ _. exact Hr.
Qed.

Lemma single_tap_general c e tp t u :
  timers c = [] ->
  touchPoints c !! identifier e = Some tp ->
  qualifies tp t ->
  doubleTapCandidate (TouchPoint.position tp) t c = false ->
  let c' := run [TouchEnd [e] t; Timeout u] c in
  (u < t + 300 ->
   emitted c' = emitted c /\ timers c' = [(t + 300, endedAt t tp)])
  /\ (t + 300 <= u ->
      emitted c' = emitted c ++ [discrete TAP (endedAt t tp)]
      /\ timers c' = []).
Proof.
  intros Ht H Hq Hc c'.
  pose proof (end_first_tap c e tp t H Hq Hc) as Hs1.
  rewrite Ht in Hs1. simpl app in Hs1.
  assert (Hc' : c' = runTimers u (onTouchEnd [e] t c)) by reflexivity.
  set (s1 := onTouchEnd [e] t c) in *.
  injection Hs1 as Htm Hem Hn _ _.
  rewrite Hc'. split; intros Hu.
  - rewrite runTimers_not_due
      by (rewrite Htm; apply List.Forall_cons;
          [simpl; lia | apply List.Forall_nil]).
    split; assumption.
  - assert (Hall : Forall (fun entry => fst entry <= u) (timers s1))
      by (rewrite Htm; apply List.Forall_cons;
          [simpl; lia | apply List.Forall_nil]).
    pose proof (runTimers_all_due u s1 Hall) as Hr.
    rewrite Htm, Hem, Hn in Hr. simpl in Hr.
    injection Hr as Hr1 Hr2 _ _ _. split; assumption.
Qed.

Lemma onTouchStart_point c i px py a :
  touchPoints (onTouchStart [mkTouch i px py] a c) !! i
  = Some (freshPoint (nextObj c) i (mkVector2 px py) a)
  /\ tapState (onTouchStart [mkTouch i px py] a c) = tapState c
  /\ forall t, t - a < 200 ->
               qualifies (freshPoint (nextObj c) i (mkVector2 px py) a) t.
Proof.
  split; [|split].
  - unfold onTouchStart, fold_left, start_one. simpl.
    apply lookup_insert_eq.
  - reflexivity.
  - intros t Ht. split; [exact Ht|].
    apply (proj1 (distance_lt_self (mkVector2 px py))).
Qed.

Lemma onTouchMove_point c i qx qy m tp :
  touchPoints c !! i = Some tp ->
  exists tp',
    touchPoints (onTouchMove [mkTouch i qx qy] m c) !! i = Some tp'
    /\ TouchPoint.position tp' = mkVector2 qx qy
    /\ TouchPoint.startPosition tp' = TouchPoint.startPosition tp
    /\ TouchPoint.startTime tp' = TouchPoint.startTime tp
    /\ TouchPoint.obj tp' = TouchPoint.obj tp
    /\ tapState (onTouchMove [mkTouch i qx qy] m c) = tapState c.
Proof.
  intros H. unfold onTouchMove, fold_left, move_one. simpl. rewrite H.
  eexists. split; [simpl; apply lookup_insert_eq|].
  repeat split; reflexivity.
Qed.

(* --------------------------------------------------------------------- *)
(** ** The deferred tap callback and later taps *)
(* --------------------------------------------------------------------- *)

(** C4.  The claim: two qualifying taps at the same position, the second
    ending within 300 ms of the first, give exactly one DoubleTap and no
    Tap, and a single qualifying tap without a follow-up gives exactly one
    Tap once the interval has passed.  On two taps and on one tap alone
    the recognizer does so.  On three quick taps at one position it emits
    the DoubleTap for the second contact and then, when the callback of
    the first tap runs, a Tap for the first contact: the callback tests the
    counter shared by all taps, which the third tap has set to 1 again.
    For the same reason a tap of another finger between two taps at one
    position turns them into three Taps, and a tap without a follow-up at
    its position gets no Tap when a double tap elsewhere resets the
    counter before its callback runs.  Two taps at different positions
    alone get one Tap each. *)
Theorem c4_deferred_tap_reads_shared_counter :
  outcome (run twoTaps create) = [(DOUBLE_TAP, [1%nat])]
  /\ outcome (run (oneTap 349) create) = []
  /\ outcome (run (oneTap 350) create) = [(TAP, [0%nat])]
  /\ outcome (run threeQuickTaps create)
     = [(DOUBLE_TAP, [1%nat]); (TAP, [0%nat])]
  /\ outcome (run tapBetweenTaps create)
     = [(TAP, [0%nat]); (TAP, [1%nat]); (TAP, [2%nat])]
  /\ outcome (run tapThenDoubleTapElsewhere create)
     = [(DOUBLE_TAP, [2%nat])]
  /\ outcome (run twoTapsApart create) = [(TAP, [0%nat]); (TAP, [1%nat])].
Proof. repeat split; vm_compute; reflexivity. Qed.

End InputFacts.

(* ===================================================================== *)
(** * Facts about callback dispatch *)
(* ===================================================================== *)

Module DispatchFacts.
Import Constants Dispatch DispatchSpec.

Section Order.

Context {World : Type}.

Implicit Types (reg : gmap GestureType (list (GestureCallback World)))
         (cb : GestureCallback World) (l pre post : list (GestureCallback World))
         (w : World) (event : Input.GestureEvent.t).

Lemma on_same reg g cb :
  callbacksOf (on g cb reg) g = callbacksOf reg g ++ [cb].
Proof. unfold callbacksOf, on. now rewrite lookup_insert_eq. Qed.

Lemma on_other reg g g' cb :
  g <> g' -> callbacksOf (on g cb reg) g' = callbacksOf reg g'.
Proof. intros H. unfold callbacksOf, on. now rewrite lookup_insert_ne. Qed.

Lemma registerAll_order g l reg :
  callbacksOf (registerAll g l reg) g = callbacksOf reg g ++ l.
Proof.
  revert reg. induction l as [|cb l IH]; intros reg.
  - simpl. now rewrite app_nil_r.
  - change (registerAll g (cb :: l) reg) with (registerAll g l (on g cb reg)).
    rewrite IH, on_same, <- app_assoc. reflexivity.
Qed.

Lemma forEach_app pre post event w :
  forEach (pre ++ post) event w
  = match forEach pre event w with
    | Normal w1 => forEach post event w1
    | Throw error w1 => Throw error w1
    end.
Proof.
  revert w. induction pre as [|cb pre IH]; intros w; simpl; [reflexivity|].
  destruct (call cb event w); [apply IH | reflexivity].
Qed.

Lemma entered_app pre post event w :
  entered (pre ++ post) event w
  = entered pre event w
    ++ match forEach pre event w with
       | Normal w1 => entered post event w1
       | Throw _ _ => []
       end.
Proof.
  revert w. induction pre as [|cb pre IH]; intros w; simpl; [reflexivity|].
  destruct (call cb event w); [now rewrite IH | reflexivity].
Qed.

Lemma entered_normal l event w w' :
  forEach l event w = Normal w' -> entered l event w = map ref l.
Proof.
  revert w. induction l as [|cb l IH]; intros w; simpl; [reflexivity|].
  destruct (call cb event w); [|discriminate].
  intros H. now rewrite (IH _ H).
Qed.

End Order.

(** C9 (as amended).  [on] appends the callback to the list of its gesture
    type and leaves the other types alone, so the list is in registration
    order, and [emitGesture] calls the callbacks of the event's type in
    that order.  When all of them return, all of them have run.  When one
    throws, the dispatch ends there with that exception: the callbacks
    registered before it have run, those registered after it are not
    called. *)
Theorem c9_dispatch_in_registration_order :
  (forall (World : Type) (g : GestureType)
          (l : list (GestureCallback World))
          (reg : gmap GestureType (list (GestureCallback World))),
      callbacksOf (registerAll g l reg) g = callbacksOf reg g ++ l)
  /\ (forall (World : Type) (g g' : GestureType) (cb : GestureCallback World)
            (reg : gmap GestureType (list (GestureCallback World))),
        g <> g' -> callbacksOf (on g cb reg) g' = callbacksOf reg g')
  /\ (forall (World : Type)
            (reg : gmap GestureType (list (GestureCallback World)))
            (event : Input.GestureEvent.t) (w : World),
        emitGesture reg event w
        = forEach (callbacksOf reg (Input.GestureEvent.type event)) event w)
  /\ (forall (World : Type) (l : list (GestureCallback World))
            (event : Input.GestureEvent.t) (w w' : World),
        forEach l event w = Normal w' -> entered l event w = map ref l)
  /\ (forall (World : Type) (pre post : list (GestureCallback World))
            (cb : GestureCallback World) (event : Input.GestureEvent.t)
            (w w1 w2 : World) (error : string),
        forEach pre event w = Normal w1 ->
        call cb event w1 = Throw error w2 ->
        forEach (pre ++ cb :: post) event w = Throw error w2
        /\ entered (pre ++ cb :: post) event w = map ref pre ++ [ref cb]).
Proof.
  split; [|split; [|split; [|split]]].
  - intros World g l reg. apply registerAll_order.
  - intros World g g' cb reg. apply on_other.
  - reflexivity.
  - intros World l event w w'. apply entered_normal.
  - intros World pre post cb event w w1 w2 error Hpre Hcb.
    rewrite forEach_app, entered_app, Hpre, (entered_normal _ _ _ _ Hpre).
    simpl. rewrite Hcb. split; reflexivity.
Qed.

(** C9, as stated, fails: with a throwing callback registered first and a
    logging one second, the emission ends with the exception and the log
    holds the first callback only; the second was never called. *)
Lemma c9_throw_stops_dispatch :
  callbacksOf (on TAP (logging 2) (on TAP (failing 1) ∅)) TAP
  = [failing 1; logging 2]
  /\ emitGesture (on TAP (logging 2) (on TAP (failing 1) ∅)) aTap []
     = Throw "failed" [1%nat]
  /\ entered [failing 1; logging 2] aTap [] = [1%nat]
  /\ emitGesture (on TAP (logging 2) (on TAP (logging 1) ∅)) aTap []
     = Normal [1%nat; 2%nat].
Proof. repeat split; vm_compute; reflexivity. Qed.

Lemma c9_dispatch_in_registration_order_witness :
  forEach [logging 1] aTap [] = Normal [1%nat]
  /\ call (failing 2) aTap [1%nat] = Throw "failed" [1%nat; 2%nat]
  /\ forEach [logging 1; logging 2] aTap [] = Normal [1%nat; 2%nat]
  /\ TAP <> SWIPE
  /\ forEach ([logging 1] ++ failing 2 :: [logging 3]) aTap []
     = Throw "failed" [1%nat; 2%nat]
  /\ entered ([logging 1] ++ failing 2 :: [logging 3]) aTap []
     = [1%nat; 2%nat]
  /\ entered [logging 1; logging 2] aTap [] = [1%nat; 2%nat]
  /\ callbacksOf (on TAP (logging 1) ∅) SWIPE = [].
Proof.
  assert (H1 : forEach [logging 1] aTap [] = Normal [1%nat]) by reflexivity.
  assert (H2 : call (failing 2) aTap [1%nat] = Throw "failed" [1%nat; 2%nat])
    by reflexivity.
  assert (H3 : forEach [logging 1; logging 2] aTap [] = Normal [1%nat; 2%nat])
    by reflexivity.
  assert (H4 : TAP <> SWIPE) by discriminate.
  split; [exact H1|]. split; [exact H2|]. split; [exact H3|].
  split; [exact H4|].
  destruct c9_dispatch_in_registration_order
    as (_ & Hother & _ & Hall & Hthrow).
  destruct (Hthrow _ [logging 1] [logging 3] (failing 2) aTap [] _ _ _ H1 H2)
    as [Hf He].
  split; [exact Hf|]. split; [exact He|].
  split; [exact (Hall _ _ aTap _ _ H3)|].
  rewrite (Hother _ TAP SWIPE (logging 1) ∅ H4). reflexivity.
Defined.

End DispatchFacts.

(* ===================================================================== *)
(** * Facts about the rotation classifier *)
(* ===================================================================== *)

Module RotationFacts.
Import Rotation RotationSpec.

Local Open Scope R_scope.

Lemma atan_sign_neg r : r <= 0 -> atan r <= 0.
Proof.
  intros [H| ->].
  - left. rewrite <- atan_0. now apply atan_increasing.
  - rewrite atan_0. lra.
Qed.

Lemma atan_sign_pos r : 0 < r -> 0 < atan r.
Proof. intros H. rewrite <- atan_0. now apply atan_increasing. Qed.

Lemma atan2_range y x : - PI < atan2 y x <= PI.
Proof.
  pose proof PI_RGT_0 as Hpi. unfold atan2.
  destruct (Rlt_dec 0 x) as [Hx|Hx].
  - pose proof (atan_bound (y / x)). lra.
  - destruct (Rlt_dec x 0) as [Hx'|Hx'].
    + pose proof (atan_bound (y / x)) as Hb.
      destruct (Rle_dec 0 y) as [Hy|Hy].
      * assert (y / x <= 0).
        { unfold Rdiv. assert (/ x < 0) by now apply Rinv_lt_0_compat.
          nra. }
        pose proof (atan_sign_neg _ H). lra.
      * assert (0 < y / x).
        { unfold Rdiv. assert (/ x < 0) by now apply Rinv_lt_0_compat.
          nra. }
        pose proof (atan_sign_pos _ H). lra.
    + destruct (Rlt_dec 0 y); [lra|]. destruct (Rlt_dec y 0); lra.
Qed.

Lemma degrees_range a : - PI < a <= PI -> -180 < a * (180 / PI) <= 180.
Proof.
  intros [Hl Hu]. pose proof PI_RGT_0 as Hpi.
  assert (Hk : 0 < 180 / PI) by (apply Rdiv_lt_0_compat; lra).
  assert (He : PI * (180 / PI) = 180) by (field; lra).
  split; nra.
Qed.

Lemma calculateAngle_range p q : -180 < calculateAngle p q <= 180.
Proof. unfold calculateAngle. apply degrees_range, atan2_range. Qed.

Lemma normalize_cases d :
  normalize d
  = if Rgt_dec d 180 then
      if Rlt_dec (d - 360) (-180) then d else d - 360
    else if Rlt_dec d (-180) then d + 360 else d.
Proof.
  unfold normalize. destruct (Rgt_dec d 180).
  - destruct (Rlt_dec (d - 360) (-180)); lra.
  - reflexivity.
Qed.

Lemma normalize_range d :
  -360 <= d <= 360 ->
  -180 <= normalize d <= 180
  /\ (normalize d = d \/ normalize d = d - 360 \/ normalize d = d + 360)
  /\ (normalize d = -180 -> d = -180).
Proof.
  intros Hd. unfold normalize.
  destruct (Rgt_dec d 180) as [H1|H1].
  - destruct (Rlt_dec (d - 360) (-180)) as [H2|H2]; [lra|].
    repeat split; lra.
  - destruct (Rlt_dec d (-180)) as [H2|H2]; repeat split; lra.
Qed.

Lemma normalize_wrap : normalize (-170 - 170) = 20.
Proof.
  unfold normalize.
  destruct (Rgt_dec (-170 - 170) 180); [lra|].
  destruct (Rlt_dec (-170 - 170) (-180)); lra.
Qed.

Lemma atan2_west : atan2 0 (-1) = PI.
Proof.
  unfold atan2.
  destruct (Rlt_dec 0 (-1)); [lra|].
  destruct (Rlt_dec (-1) 0); [|lra].
  destruct (Rle_dec 0 0); [|lra].
  replace (0 / -1) with 0 by (field; lra). rewrite atan_0. lra.
Qed.

Lemma atan2_east : atan2 0 1 = 0.
Proof.
  unfold atan2. destruct (Rlt_dec 0 1); [|lra].
  replace (0 / 1) with 0 by field. apply atan_0.
Qed.

Lemma angle_west : calculateAngle (mkVector2 1 0) (mkVector2 0 0) = 180.
Proof.
  unfold calculateAngle. simpl.
  replace (0 - 0) with 0 by lra. replace (0 - 1) with (-1) by lra.
  rewrite atan2_west. field. apply PI_neq0.
Qed.

Lemma angle_east : calculateAngle (mkVector2 0 0) (mkVector2 1 0) = 0.
Proof.
  unfold calculateAngle. simpl.
  replace (0 - 0) with 0 by lra. replace (1 - 0) with 1 by lra.
  rewrite atan2_east. lra.
Qed.

Lemma recognize_emits touchArray s s' ev :
  -180 <= initialRotationAngle s <= 180 ->
  recognizeRotationGesture touchArray s = (s', Some ev) ->
  exists p0 p1,
    touchArray = [p0; p1]
    /\ rotation ev = normalize (calculateAngle p0 p1 - initialRotationAngle s)
    /\ position ev = midpoint p0 p1
    /\ -180 <= rotation ev <= 180
    /\ 5 < Rabs (rotation ev)
    /\ (rotation ev = -180 ->
        calculateAngle p0 p1 - initialRotationAngle s = -180).
Proof.
  intros Hb. unfold recognizeRotationGesture.
  destruct touchArray as [|p0 [|p1 [|p2 l]]]; try discriminate.
  destruct (Rgt_dec _ _) as [Hgt|Hgt]; [|discriminate].
  intros [= <- <-]. exists p0, p1. simpl.
  pose proof (calculateAngle_range p0 p1) as Hc.
  destruct (normalize_range (calculateAngle p0 p1 - initialRotationAngle s))
    as (Hr & _ & Hm); [lra|].
  repeat split; tauto.
Qed.

Lemma baseline_ok_create : baseline_ok create.
Proof. unfold baseline_ok. simpl. lra. Qed.

Lemma baseline_ok_initialize l s :
  baseline_ok s -> baseline_ok (initializeRotationGesture l s).
Proof.
  intros H. unfold initializeRotationGesture.
  destruct l as [|p0 [|p1 [|p2 l]]]; try exact H.
  unfold baseline_ok. simpl. pose proof (calculateAngle_range p0 p1). lra.
Qed.

Lemma baseline_ok_reset s : baseline_ok (resetRotation s).
Proof. unfold baseline_ok. simpl. lra. Qed.

Lemma baseline_ok_recognize l s :
  baseline_ok s -> baseline_ok (fst (recognizeRotationGesture l s)).
Proof.
  intros H. unfold recognizeRotationGesture.
  destruct l as [|p0 [|p1 [|p2 l]]]; try exact H.
  destruct (Rgt_dec _ _); exact H.
Qed.

Lemma normalize_once d :
  (180 < d -> normalize d = d - 360)
  /\ (d < -180 -> normalize d = d + 360)
  /\ (-180 <= d <= 180 -> normalize d = d).
Proof.
  unfold normalize. repeat split; intros H.
  - destruct (Rgt_dec d 180); [|lra].
    destruct (Rlt_dec (d - 360) (-180)); lra.
  - destruct (Rgt_dec d 180); [lra|].
    destruct (Rlt_dec d (-180)); lra.
  - destruct (Rgt_dec d 180); [lra|].
    destruct (Rlt_dec d (-180)); lra.
Qed.

(** After half a turn from a westward baseline the classifier emits a
    rotation of exactly -180 degrees. *)
Lemma half_turn_emits :
  recognizeRotationGesture eastward (initializeRotationGesture westward create)
  = ({| initialRotationAngle := 180; _currentRotationAngle := -180 |},
     Some {| position := midpoint (mkVector2 0 0) (mkVector2 1 0);
             rotation := -180 |}).
Proof.
  unfold recognizeRotationGesture, initializeRotationGesture, eastward,
    westward.
  cbn [initialRotationAngle]. rewrite angle_east, angle_west.
  assert (Hn : normalize (0 - 180) = -180).
  { replace (0 - 180) with (-180) by lra.
    apply (proj2 (proj2 (normalize_once (-180)))). lra. }
  rewrite Hn.
  destruct (Rgt_dec (Rabs (-180)) ROTATION_THRESHOLD) as [_|Hn'];
    [reflexivity|].
  exfalso. apply Hn'. unfold ROTATION_THRESHOLD.
  change (IZR Constants.GESTURE_THRESHOLDS.ROTATION_THRESHOLD) with 5.
  rewrite Rabs_left; lra.
Qed.

(** In binary64 arithmetic too, a westward baseline is 180 degrees and the
    half turn is reported as -180; 170 to -170 is reported as 20. *)
Example half_turn_binary64 :
  RotationBinary64.toDegrees RotationBinary64.Math_PI = 180%float
  /\ RotationBinary64.emittedRotation
       (RotationBinary64.toDegrees 0)
       (RotationBinary64.toDegrees RotationBinary64.Math_PI)
     = Some (-180)%float
  /\ RotationBinary64.emittedRotation (-170) 170 = Some 20%float.
Proof. repeat split; vm_compute; reflexivity. Qed.

(** C7 (as amended).  Every emitted Rotate event reports
    [currentAngle - baselineAngle], less 360 when that exceeds 180 and plus
    360 when it is below -180, a value in the closed interval from -180 to
    180 whose magnitude exceeds the threshold of 5 degrees; -180 itself is
    reported exactly when the current angle lies 180 degrees below the
    baseline.  Going from 170 to -170 gives 20.  The baseline of every
    state the classifier reaches lies between -180 and 180. *)
Theorem c7_rotation_delta_range :
  (forall touchArray s s' ev,
      baseline_ok s ->
      recognizeRotationGesture touchArray s = (s', Some ev) ->
      exists p0 p1,
        touchArray = [p0; p1]
        /\ rotation ev
           = normalize (calculateAngle p0 p1 - initialRotationAngle s)
        /\ -180 <= rotation ev <= 180
        /\ 5 < Rabs (rotation ev)
        /\ (rotation ev = -180 <->
            calculateAngle p0 p1 - initialRotationAngle s = -180))
  /\ (forall d,
        (180 < d -> normalize d = d - 360)
        /\ (d < -180 -> normalize d = d + 360)
        /\ (-180 <= d <= 180 -> normalize d = d))
  /\ normalize (-170 - 170) = 20
  /\ Rotation.ROTATION_THRESHOLD = 5
  /\ baseline_ok create
  /\ (forall l s, baseline_ok s ->
                  baseline_ok (initializeRotationGesture l s)
                  /\ baseline_ok (resetRotation s)
                  /\ baseline_ok (fst (recognizeRotationGesture l s))).
Proof.
  split; [|split; [|split; [|split; [|split]]]].
  - intros touchArray s s' ev Hb He.
    destruct (recognize_emits touchArray s s' ev Hb He)
      as (p0 & p1 & Hl & Hr & _ & Hrange & Habs & Hm).
    exists p0, p1. split; [exact Hl|]. split; [exact Hr|].
    split; [exact Hrange|]. split; [exact Habs|].
    split; [exact Hm|].
    intros Hd. rewrite Hr, Hd.
    apply (proj2 (proj2 (normalize_once (-180)))). lra.
  - exact normalize_once.
  - exact normalize_wrap.
  - unfold ROTATION_THRESHOLD. simpl. reflexivity.
  - exact baseline_ok_create.
  - intros l s H. split; [apply baseline_ok_initialize, H|].
    split; [apply baseline_ok_reset | apply baseline_ok_recognize, H].
Qed.

(** C7, as stated, fails at the lower end of the interval: with the
    baseline taken on two fingers lying westward (180 degrees) and the
    fingers then lying eastward (0 degrees), the emitted angle is -180,
    which is not in the half-open interval from -180 (excluded) to 180. *)
Lemma c7_minus_180_is_reported :
  exists s' ev,
    recognizeRotationGesture eastward
      (initializeRotationGesture westward create) = (s', Some ev)
    /\ initialRotationAngle (initializeRotationGesture westward create) = 180
    /\ calculateAngle (mkVector2 0 0) (mkVector2 1 0) = 0
    /\ rotation ev = -180
    /\ ~ (-180 < rotation ev <= 180).
Proof.
  eexists; eexists. split; [exact half_turn_emits|].
  split; [exact angle_west|]. split; [exact angle_east|].
  simpl. split; [reflexivity | lra].
Qed.

Lemma c7_rotation_delta_range_witness :
  baseline_ok (initializeRotationGesture westward create)
  /\ exists s' ev,
      recognizeRotationGesture eastward
        (initializeRotationGesture westward create) = (s', Some ev)
      /\ -180 <= rotation ev <= 180
      /\ 5 < Rabs (rotation ev).
Proof.
  assert (Hb : baseline_ok (initializeRotationGesture westward create))
    by (apply baseline_ok_initialize, baseline_ok_create).
  split; [exact Hb|].
  eexists; eexists. split; [exact half_turn_emits|].
  destruct (proj1 c7_rotation_delta_range _ _ _ _ Hb half_turn_emits)
    as (p0 & p1 & _ & _ & Hrange & Habs & _).
  split; [exact Hrange | exact Habs].
Defined.

End RotationFacts.

(* ===================================================================== *)
(** * Further facts about the touch tracker *)
(* ===================================================================== *)

Module InputEdgeFacts.
Import Constants Input InputSpec InputEdgeSpec InputFacts.

Local Open Scope Z_scope.

(** ** The swipe trail *)

Lemma recognizeDiscreteGestures_swipePoints tp now c :
  swipePoints (recognizeDiscreteGestures tp now c) = swipePoints c.
Proof.
  unfold recognizeDiscreteGestures, recognizeTap.
  repeat match goal with
         | |- context [if ?b then _ else _] => destruct b
         end; reflexivity.
Qed.

Lemma tapTimeouts_swipePoints (l : list (Z * TouchPoint.t)) c :
  swipePoints (fold_left (fun c' entry => tapTimeout (snd entry) c') l c)
  = swipePoints c.
Proof.
  revert c. induction l as [|e l IH]; intros c; [reflexivity|].
  simpl. rewrite IH. unfold tapTimeout.
  destruct (tapCount c =? 1); reflexivity.
Qed.

Lemma move_one_trail now c touch :
  (length (swipePoints c) <= 50)%nat ->
  (length (swipePoints (move_one now c touch)) <= 50)%nat.
Proof.
  intros H. unfold move_one.
  destruct (touchPoints c !! identifier touch) as [tp|]; [|exact H].
  simpl. rewrite length_app. simpl.
  destruct (50 <? length (swipePoints c) + 1)%nat eqn:E.
  - destruct (swipePoints c) as [|p l]; simpl in *.
    + lia.
    + rewrite length_app. simpl. lia.
  - apply Nat.ltb_ge in E. rewrite length_app. simpl. lia.
Qed.

Lemma step_trail i c :
  (length (swipePoints c) <= 50)%nat ->
  (length (swipePoints (step i c)) <= 50)%nat.
Proof.
  intros H. destruct i; simpl.
  - lia.
  - unfold onTouchMove.
    apply (fold_left_preserves
             (fun c' => (length (swipePoints c') <= 50)%nat)); [|exact H].
    intros c' t. apply move_one_trail.
  - unfold onTouchEnd.
    apply (fold_left_preserves
             (fun c' => (length (swipePoints c') <= 50)%nat)); [|exact H].
    intros c' t Hc'. unfold end_one.
    destruct (touchPoints c' !! identifier t); [|exact Hc'].
    simpl. now rewrite recognizeDiscreteGestures_swipePoints.
  - unfold onTouchCancel.
    apply (fold_left_preserves
             (fun c' => (length (swipePoints c') <= 50)%nat)); [|exact H].
    intros c' t Hc'. exact Hc'.
  - lia.
  - unfold runTimers. rewrite tapTimeouts_swipePoints. exact H.
Qed.

(** The swipe trail never holds more than 50 points: from a state whose
    trail is within the bound, every input stream leaves it within the
    bound.  A move of a tracked contact puts its new position at the end
    of the trail, and a touch start of any finger and [clear] empty it. *)
Theorem swipe_trail_bounded :
  (forall inputs c,
      (length (swipePoints c) <= 50)%nat ->
      (length (swipePoints (run inputs c)) <= 50)%nat)
  /\ (forall c touch now tp,
        touchPoints c !! identifier touch = Some tp ->
        last (swipePoints (onTouchMove [touch] now c))
        = Some (mkVector2 (clientX touch) (clientY touch)))
  /\ (forall c l now, swipePoints (onTouchStart l now c) = [])
  /\ (forall c, swipePoints (clear c) = []).
Proof.
  split; [|split; [|split]].
  - intros inputs. induction inputs as [|i inputs IH]; intros c H.
    + exact H.
    + simpl. apply IH. apply step_trail, H.
  - intros c touch now tp Htp. unfold onTouchMove. simpl.
    unfold move_one. rewrite Htp. simpl.
    destruct (50 <? length (swipePoints c ++ [_]))%nat eqn:E.
    + destruct (swipePoints c) as [|p l]; simpl in *.
      * discriminate.
      * apply last_snoc.
    + apply last_snoc.
  - reflexivity.
  - reflexivity.
Qed.

Lemma swipe_trail_bounded_witness :
  (length (swipePoints held) <= 50)%nat
  /\ (length (swipePoints
                (run (repeat (TouchMove [mkTouch 0 6 6] 10) 60) held))
      <= 50)%nat
  /\ touchPoints held !! identifier (mkTouch 0 6 6)
     = Some (freshPoint 0 0 (mkVector2 5 5) 0)
  /\ last (swipePoints (onTouchMove [mkTouch 0 6 6] 10 held))
     = Some (mkVector2 (clientX (mkTouch 0 6 6)) (clientY (mkTouch 0 6 6))).
Proof.
  assert (H0 : (length (swipePoints held) <= 50)%nat) by (simpl; lia).
  assert (H1 : touchPoints held !! identifier (mkTouch 0 6 6)
               = Some (freshPoint 0 0 (mkVector2 5 5) 0))
    by (vm_compute; reflexivity).
  split; [exact H0|].
  split; [exact (proj1 swipe_trail_bounded _ held H0)|].
  split; [exact H1|].
  exact (proj1 (proj2 swipe_trail_bounded) held (mkTouch 0 6 6) 10 _ H1).
Defined.

(** ** Gestures are reported on release *)

Lemma no_release_step i c :
  no_release i -> timers c = [] -> tapState (step i c) = tapState c.
Proof.
  intros Hi Ht.
  assert (Hnb : forall d, not_before d c)
    by (intros d; unfold not_before; rewrite Ht; apply List.Forall_nil).
  destruct i as [l n|l n|l n|l| |u]; try contradiction.
  - apply (quiet_step 0); [exact I | apply Hnb].
  - apply (quiet_step 0); [exact I | apply Hnb].
  - apply (quiet_step 0); [exact I | apply Hnb].
  - apply (quiet_step 0); [exact I | apply Hnb].
  - apply (quiet_step (u + 1)); [simpl; lia | apply Hnb].
Qed.

Lemma no_release_run inputs c :
  Forall no_release inputs -> timers c = [] ->
  tapState (run inputs c) = tapState c.
Proof.
  revert c. induction inputs as [|i inputs IH]; intros c Hall Ht.
  - reflexivity.
  - apply Forall_cons in Hall as [Hi Hall]. simpl.
    pose proof (no_release_step i c Hi Ht) as Hs.
    rewrite IH; [exact Hs | exact Hall |].
    injection Hs as -> _ _ _ _. exact Ht.
Qed.

Lemma end_one_tracked now c touch tp :
  touchPoints c !! identifier touch = Some tp ->
  onTouchEnd [touch] now c
  = forget touch (recognizeDiscreteGestures (endedAt now tp) now c).
Proof.
  intros H. unfold onTouchEnd, forget. simpl. unfold end_one. now rewrite H.
Qed.

(** A long press is reported when the finger is lifted and not before.
    While no touch ends and no tap callback is pending, no Tap, DoubleTap
    or LongPress is emitted and none is scheduled, however long the
    contacts are held and whatever starts, moves, cancellations, [clear]
    calls and timer runs occur.  When a tracked contact ends more than
    [LONG_PRESS_DURATION] = 500 ms after it began, exactly one LongPress
    for it is emitted and no tap callback is scheduled. *)
Theorem long_press_on_release_only :
  (forall inputs c,
      timers c = [] -> Forall no_release inputs ->
      emitted (run inputs c) = emitted c /\ timers (run inputs c) = [])
  /\ (forall c e tp t,
        touchPoints c !! identifier e = Some tp ->
        GESTURE_THRESHOLDS.LONG_PRESS_DURATION < t - TouchPoint.startTime tp ->
        emitted (onTouchEnd [e] t c)
        = emitted c ++ [discrete LONG_PRESS (endedAt t tp)]
        /\ timers (onTouchEnd [e] t c) = timers c).
Proof.
  split.
  - intros inputs c Ht Hall.
    pose proof (no_release_run inputs c Hall Ht) as Hs.
    injection Hs as H1 H2 _ _ _. split; congruence.
  - intros c e tp t H Hd. rewrite (end_one_tracked t c e tp H).
    unfold forget, recognizeDiscreteGestures. simpl.
    change GESTURE_THRESHOLDS.LONG_PRESS_DURATION with 500 in *.
    change GESTURE_THRESHOLDS.TAP_DURATION with 200.
    destruct (Z.ltb_spec (t - TouchPoint.startTime tp) 200); [lia|].
    destruct (Z.ltb_spec 500 (t - TouchPoint.startTime tp)); [|lia].
    split; reflexivity.
Qed.

Lemma long_press_on_release_only_witness :
  timers create = []
  /\ Forall no_release
       [TouchStart [mkTouch 0 5 5] 0; TouchMove [mkTouch 0 6 5] 400;
        Timeout 5000; Clear]
  /\ emitted (run [TouchStart [mkTouch 0 5 5] 0; TouchMove [mkTouch 0 6 5] 400;
                   Timeout 5000; Clear] create) = emitted create
  /\ touchPoints held !! identifier (mkTouch 0 5 5)
     = Some (freshPoint 0 0 (mkVector2 5 5) 0)
  /\ GESTURE_THRESHOLDS.LONG_PRESS_DURATION
     < 501 - TouchPoint.startTime (freshPoint 0 0 (mkVector2 5 5) 0)
  /\ emitted (onTouchEnd [mkTouch 0 5 5] 501 held)
     = emitted held
       ++ [discrete LONG_PRESS
             (endedAt 501 (freshPoint 0 0 (mkVector2 5 5) 0))].
Proof.
  assert (H0 : timers create = []) by reflexivity.
  assert (H1 : Forall no_release
                 [TouchStart [mkTouch 0 5 5] 0;
                  TouchMove [mkTouch 0 6 5] 400; Timeout 5000; Clear])
    by (repeat apply List.Forall_cons; try apply List.Forall_nil; exact I).
  assert (H2 : touchPoints held !! identifier (mkTouch 0 5 5)
               = Some (freshPoint 0 0 (mkVector2 5 5) 0))
    by (vm_compute; reflexivity).
  assert (H3 : GESTURE_THRESHOLDS.LONG_PRESS_DURATION
               < 501 - TouchPoint.startTime (freshPoint 0 0 (mkVector2 5 5) 0))
    by (vm_compute; reflexivity).
  split; [exact H0|]. split; [exact H1|].
  split; [exact (proj1 (proj1 long_press_on_release_only _ create H0 H1))|].
  split; [exact H2|]. split; [exact H3|].
  exact (proj1 (proj2 long_press_on_release_only held (mkTouch 0 5 5) _ 501
                  H2 H3)).
Defined.



(** ** A scheduled tap cannot be withdrawn *)

(** Neither [clear] nor a touch cancel removes a scheduled tap callback
    or resets the tap counter.  With one callback pending and the counter
    at 1, touch starts, moves, cancellations, [clear] calls and timer runs
    before the callback is due leave it pending, and when it is due the
    Tap is emitted for its contact, which [clear] had discarded. *)
Theorem scheduled_tap_survives_clear :
  (forall c,
      timers (clear c) = timers c /\ tapCount (clear c) = tapCount c
      /\ emitted (clear c) = emitted c /\ touchPoints (clear c) = ∅)
  /\ (forall c l,
        timers (onTouchCancel l c) = timers c
        /\ tapCount (onTouchCancel l c) = tapCount c
        /\ emitted (onTouchCancel l c) = emitted c)
  /\ (forall c d tp mid u,
        timers c = [(d, tp)] ->
        tapCount c = 1 ->
        Forall (quiet d) mid ->
        d <= u ->
        emitted (run (mid ++ [Timeout u]) c)
        = emitted c ++ [discrete TAP tp]
        /\ timers (run (mid ++ [Timeout u]) c) = []).
Proof.
  split; [|split].
  - intros c. repeat split; reflexivity.
  - intros c l.
    assert (Hs : tapState (onTouchCancel l c) = tapState c)
      by (unfold onTouchCancel; apply tapState_fold; reflexivity).
    injection Hs as H1 H2 H3 _ _. repeat split; assumption.
  - intros c d tp mid u Ht Hn Hmid Hu.
    assert (Hnb : not_before d c).
    { unfold not_before. rewrite Ht.
      apply List.Forall_cons; [simpl; lia | apply List.Forall_nil]. }
    pose proof (quiet_run d mid c Hmid Hnb) as Hs.
    rewrite run_app.
    set (c1 := run mid c) in *.
    injection Hs as Htm Hem Hnn _ _.
    assert (Hall : Forall (fun entry => fst entry <= u) (timers c1)).
    { rewrite Htm, Ht.
      apply List.Forall_cons; [simpl; lia | apply List.Forall_nil]. }
    pose proof (runTimers_all_due u c1 Hall) as Hr.
    rewrite Htm, Hem, Hnn, Ht, Hn in Hr. simpl in Hr.
    injection Hr as Hr1 Hr2 _ _ _. split; assumption.
Qed.

Lemma scheduled_tap_survives_clear_witness :
  timers tapped = [(350, endedAt 50 (freshPoint 0 0 (mkVector2 5 5) 0))]
  /\ tapCount tapped = 1
  /\ Forall (quiet 350) [Clear; TouchCancel [mkTouch 0 5 5]; Timeout 349]
  /\ emitted (run ([Clear; TouchCancel [mkTouch 0 5 5]; Timeout 349]
                   ++ [Timeout 350]) tapped)
     = emitted tapped
       ++ [discrete TAP (endedAt 50 (freshPoint 0 0 (mkVector2 5 5) 0))].
Proof.
  assert (H1 : timers tapped
               = [(350, endedAt 50 (freshPoint 0 0 (mkVector2 5 5) 0))])
    by (vm_compute; reflexivity).
  assert (H2 : tapCount tapped = 1) by (vm_compute; reflexivity).
  assert (H3 : Forall (quiet 350)
                 [Clear; TouchCancel [mkTouch 0 5 5]; Timeout 349])
    by (repeat apply List.Forall_cons; try apply List.Forall_nil;
        simpl; try exact I; lia).
  assert (H4 : 350 <= 350) by lia.
  split; [exact H1|]. split; [exact H2|]. split; [exact H3|].
  exact (proj1 (proj2 (proj2 scheduled_tap_survives_clear)
                  tapped 350 _ _ 350 H1 H2 H3 H4)).
Defined.

(** ** Touches that are not tracked *)

Lemma untracked_fold (f : InputController -> Touch -> InputController) l c :
  (forall c' touch,
      touchPoints c' !! identifier touch = None -> f c' touch = c') ->
  untracked l c -> fold_left f l c = c.
Proof.
  intros Hf. unfold untracked. induction 1 as [|touch l Ht Hl IH].
  - reflexivity.
  - simpl. rewrite (Hf c touch Ht). exact IH.
Qed.

(** Move, end and cancel events that name only identifiers the
    controller does not track change nothing of what this module keeps:
    no touch point is created or changed, the trail is not extended, and
    no Tap, DoubleTap or LongPress is emitted or scheduled. *)
Theorem untracked_touches_are_ignored c l now :
  untracked l c ->
  onTouchMove l now c = c
  /\ onTouchEnd l now c = c
  /\ onTouchCancel l c = c.
Proof.
  intros H. split; [|split].
  - apply untracked_fold; [|exact H].
    intros c' touch Hn. unfold move_one. now rewrite Hn.
  - apply untracked_fold; [|exact H].
    intros c' touch Hn. unfold end_one. now rewrite Hn.
  - apply untracked_fold; [|exact H].
    intros c' touch Hn. unfold cancel_one, set_touchPoints.
    rewrite delete_id by exact Hn. now destruct c'.
Qed.

Lemma untracked_touches_are_ignored_witness :
  untracked [mkTouch 7 1 1; mkTouch 8 2 2] held
  /\ onTouchMove [mkTouch 7 1 1; mkTouch 8 2 2] 50 held = held
  /\ onTouchEnd [mkTouch 7 1 1; mkTouch 8 2 2] 50 held = held
  /\ onTouchCancel [mkTouch 7 1 1; mkTouch 8 2 2] held = held.
Proof.
  assert (H : untracked [mkTouch 7 1 1; mkTouch 8 2 2] held)
    by (repeat apply List.Forall_cons; try apply List.Forall_nil;
        vm_compute; reflexivity).
  split; [exact H|].
  exact (untracked_touches_are_ignored held _ 50 H).
Defined.

End InputEdgeFacts.

(* ===================================================================== *)
(** * Facts about unregistering a gesture callback *)
(* ===================================================================== *)

Module UnregisterFacts.
Import Constants Dispatch DispatchSpec DispatchFacts.

Section Splice.

Context {World : Type}.

Implicit Types (reg : gmap GestureType (list (GestureCallback World)))
         (cb : GestureCallback World)
         (l pre rest : list (GestureCallback World)).





End Splice.



End UnregisterFacts.

(* ===================================================================== *)
(** * Further facts about the collaboration system *)
(* ===================================================================== *)

Module CollabEdgeFacts.
Import Constants Collab CollabSpec CollabEdgeSpec CollabFacts.

Local Open Scope Z_scope.

(** ** The proximity tick *)

Lemma nearby_with players c c' :
  cposition c' = cposition c -> proximityRadius c' = proximityRadius c ->
  nearby players c' = nearby players c.
Proof. intros H1 H2. unfold nearby. now rewrite H1, H2. Qed.

Lemma proximity_one_cases players localId now c :
  isCompleted c = false ->
  let c1 := with_participants (nearby players c) c in
  (proximity_one players localId now c = activateChallenge localId now c1
   /\ isActive c = false)
  \/ (proximity_one players localId now c = (c1, [])
      /\ (requiredPlayers c <=? Z.of_nat (size (nearby players c)))
         && negb (isActive c) = false).
Proof.
  intros Ec c1. unfold proximity_one. rewrite Ec. fold c1. simpl.
  destruct ((requiredPlayers c <=? Z.of_nat (size (nearby players c)))
            && negb (isActive c)) eqn:Eb.
  - left. split; [reflexivity|].
    apply andb_true_iff in Eb as [_ Eb]. now destruct (isActive c).
  - right. split; reflexivity.
Qed.

Lemma proximity_one_again players localId now now' c :
  proximity_one players localId now'
    (fst (proximity_one players localId now c))
  = (fst (proximity_one players localId now c), []).
Proof.
  destruct (isCompleted c) eqn:Ec.
  - unfold proximity_one at 2 3. rewrite Ec. simpl.
    unfold proximity_one. now rewrite Ec.
  - destruct (proximity_one_cases players localId now c Ec) as [[H _]|[H Hb]];
      rewrite H; simpl.
    + unfold proximity_one. simpl. rewrite Ec, andb_false_r. reflexivity.
    + unfold proximity_one. simpl. rewrite Ec.
      rewrite (nearby_with players c
                 (with_participants (nearby players c) c)) by reflexivity.
      rewrite Hb. reflexivity.
Qed.

Lemma proximity_all_again players localId now now' (l : list CollabChallenge) :
  map fst (map (proximity_one players localId now')
               (map fst (map (proximity_one players localId now) l)))
  = map fst (map (proximity_one players localId now) l)
  /\ concat (map snd (map (proximity_one players localId now')
                          (map fst (map (proximity_one players localId now)
                                        l)))) = [].
Proof.
  induction l as [|c l [IH1 IH2]]; [split; reflexivity|].
  simpl. rewrite (proximity_one_again players localId now now' c). simpl.
  split; [f_equal; exact IH1 | exact IH2].
Qed.

(** A proximity tick that follows another with no call in between changes
    nothing, whatever the clock reads: participants are recomputed to the
    same sets, a challenge the first tick activated is not activated
    again, so its start time stays and no second activation message or
    haptic is sent, and a challenge the first tick left inactive stays
    inactive. *)
Theorem proximity_tick_is_idempotent s now now' :
  updatePlayerProximity now' (updatePlayerProximity now s)
  = updatePlayerProximity now s.
Proof.
  destruct (proximity_all_again (activePlayers s) (localPlayerId s) now now'
              (challenges s)) as [H1 H2].
  apply system_ext; simpl; try reflexivity.
  - exact H1.
  - rewrite H2. now rewrite app_nil_r.
Qed.

(** The game loop's ticks at the challenge of [duo 2]: the tick at 10
    activated the challenge, later ticks leave start time and outbox as
    they were. *)
Example proximity_ticks_at_duo :
  run [UpdatePlayerProximity 27; UpdatePlayerProximity 43] (duo 2) = duo 2
  /\ map startTime (challenges (duo 2)) = [Some 10]
  /\ length (outbox (duo 2)) = 3%nat.
Proof. repeat split; vm_compute; reflexivity. Qed.

(** ** Releasing a touch *)

(** [onPlayerTouchRelease] for a registered player removes the player's
    entry from the touch map and clears the player's touch fields; the
    challenges, the relay state and the outbox stay as they were, so the
    release is not sent to anyone.  The player no longer counts as
    touching at any challenge, and a release after a touch of a player
    that had no entry restores the touch map. *)
Theorem release_clears_touch s p player :
  activePlayers s !! p = Some player ->
  let s' := onPlayerTouchRelease p s in
  playerTouches s' = delete p (playerTouches s)
  /\ activePlayers s' = <[p := with_touch false None player]> (activePlayers s)
  /\ challenges s' = challenges s
  /\ relayChain s' = relayChain s
  /\ relayMultiplier s' = relayMultiplier s
  /\ outbox s' = outbox s
  /\ (forall c, p ∉ touchingPlayers (playerTouches s') c)
  /\ (forall now,
        playerTouches s !! p = None ->
        playerTouches (onPlayerTouchRelease p (onPlayerTouch p now s))
        = playerTouches s).
Proof.
  intros Hreg s'. subst s'. unfold onPlayerTouchRelease at 1 2 3 4 5 6 7.
  rewrite Hreg. simpl.
  repeat (split; [reflexivity|]). split.
  - intros c Hin. apply touchingPlayers_elem in Hin as [_ [t Ht]].
    rewrite lookup_delete_eq in Ht. discriminate.
  - intros now Hnone.
    destruct (onPlayerTouch_fields s p now player Hreg)
      as (_ & Hap & Hpt & _).
    unfold onPlayerTouchRelease. rewrite Hap, lookup_insert_eq. simpl.
    rewrite Hpt. rewrite delete_insert_eq. now apply delete_id.
Qed.

Lemma release_clears_touch_witness :
  activePlayers (onPlayerTouch "a" 900 (duo 2)) !! "a"
  = Some (with_touch true (Some 900) (newPlayer "a"))
  /\ playerTouches (onPlayerTouchRelease "a" (onPlayerTouch "a" 900 (duo 2)))
     = delete "a" (playerTouches (onPlayerTouch "a" 900 (duo 2)))
  /\ completedFlags
       (run [OnPlayerTouch "a" 900; OnPlayerTouchRelease "a";
             OnPlayerTouch "b" 950] (duo 2)) = [false]
  /\ completedFlags
       (run [OnPlayerTouch "a" 900; OnPlayerTouch "b" 950] (duo 2)) = [true].
Proof.
  assert (H : activePlayers (onPlayerTouch "a" 900 (duo 2)) !! "a"
              = Some (with_touch true (Some 900) (newPlayer "a")))
    by (vm_compute; reflexivity).
  split; [exact H|].
  split; [exact (proj1 (release_clears_touch _ "a" _ H))|].
  split; vm_compute; reflexivity.
Defined.

(** ** What is sent about touches *)

Lemma sendHapticToPlayer_quiet localId p pattern now :
  announces_release (sendHapticToPlayer localId p pattern now) = false.
Proof.
  unfold sendHapticToPlayer. destruct (String.eqb p localId); reflexivity.
Qed.

Lemma proximity_one_quiet players localId now c :
  forallb (fun e => negb (announces_release e))
          (snd (proximity_one players localId now c)) = true.
Proof.
  unfold proximity_one. destruct (isCompleted c); [reflexivity|].
  match goal with |- context [if ?b then _ else _] => destruct b end;
    [|reflexivity].
  unfold activateChallenge. simpl.
  induction (elements (nearby players c)) as [|p l IH]; [reflexivity|].
  simpl. rewrite sendHapticToPlayer_quiet. exact IH.
Qed.

Lemma check_one_quiet touches c :
  forallb (fun e => negb (announces_release e)) (snd (check_one touches c))
  = true.
Proof.
  destruct (check_one_cases touches c) as [H|H]; rewrite H; reflexivity.
Qed.

Lemma concat_quiet {A} (f : A -> list Effect) (l : list A) :
  (forall a, forallb (fun e => negb (announces_release e)) (f a) = true) ->
  forallb (fun e => negb (announces_release e)) (concat (map f l)) = true.
Proof.
  intros Hf. induction l as [|a l IH]; [reflexivity|].
  simpl. rewrite forallb_app, Hf, IH. reflexivity.
Qed.

Lemma step_quiet o s :
  forallb (fun e => negb (announces_release e)) (outbox s) = true ->
  forallb (fun e => negb (announces_release e)) (outbox (step o s)) = true.
Proof.
  intros H. destruct o as [pl|i|i t pos r|now|i now|i|a b now|]; simpl;
    try exact H.
  - rewrite forallb_app, H. simpl. rewrite map_map.
    apply concat_quiet. intros c. apply proximity_one_quiet.
  - destruct (activePlayers s !! i) as [player|] eqn:E.
    + destruct (onPlayerTouch_fields s i now player E)
        as (_ & _ & _ & _ & _ & Hout).
      rewrite Hout, !forallb_app, H. simpl.
      rewrite concat_quiet; [reflexivity|].
      intros c. apply check_one_quiet.
    + rewrite onPlayerTouch_unregistered by exact E. exact H.
  - unfold onPlayerTouchRelease. destruct (activePlayers s !! i); exact H.
  - destruct (activePlayers s !! a) as [pf|] eqn:Ea;
      [|rewrite initiateEnergyRelay_unregistered by (left; exact Ea);
        exact H].
    destruct (activePlayers s !! b) as [pt|] eqn:Eb;
      [|rewrite initiateEnergyRelay_unregistered by (right; exact Eb);
        exact H].
    destruct (initiateEnergyRelay_fields s a b now pf pt Ea Eb)
      as (_ & _ & _ & _ & _ & Hout).
    rewrite Hout, forallb_app, H. simpl.
    rewrite sendHapticToPlayer_quiet. reflexivity.
Qed.

(** The coordinator never tells the other players that a touch has been
    released: over every run of its public methods from a new system,
    every touch message handed to the network says [isTouching: true]. *)
Theorem release_is_never_announced ops localId :
  forallb (fun e => negb (announces_release e))
          (outbox (run ops (init localId))) = true.
Proof.
  assert (H : forallb (fun e => negb (announces_release e))
                (outbox (init localId)) = true) by reflexivity.
  revert H. generalize (init localId).
  induction ops as [|o ops IH]; intros s H; [exact H|].
  simpl. apply IH, step_quiet, H.
Qed.

(** ** Starting the relay again *)

(** [resetRelayChain] empties the chain and sets the multiplier to 1 and
    leaves everything else, the touch map included.  The first hand-off
    after it is rated Good whatever the clock reads and whatever the touch
    map holds, and leaves the multiplier at 1 with the recipient alone on
    the chain. *)
Theorem reset_restarts_relay_scoring :
  (forall s,
      relayChain (resetRelayChain s) = []
      /\ relayMultiplier (resetRelayChain s) = 1%Q
      /\ playerTouches (resetRelayChain s) = playerTouches s
      /\ activePlayers (resetRelayChain s) = activePlayers s
      /\ challenges (resetRelayChain s) = challenges s
      /\ outbox (resetRelayChain s) = outbox s)
  /\ (forall s a b now pa pb,
        activePlayers s !! a = Some pa ->
        activePlayers s !! b = Some pb ->
        let s' := initiateEnergyRelay a b now (resetRelayChain s) in
        relayChain s' = [b]
        /\ relayMultiplier s' = 1%Q
        /\ outbox s'
           = outbox s
             ++ [ RelayEffect {| fromPlayerId := a; toPlayerId := b;
                                 timestamp := now; timing := GOOD |};
                  sendHapticToPlayer (localPlayerId s) b RELAY_GOOD now ]).
Proof.
  split.
  - intros s. repeat split; reflexivity.
  - intros s a b now pa pb Ha Hb s'. subst s'.
    destruct (initiateEnergyRelay_fields (resetRelayChain s) a b now pa pb
                Ha Hb) as (_ & _ & Hch & Hm & _ & Hout).
    assert (Hc : classifyRelay (resetRelayChain s) now = (GOOD, 1%Q)).
    { pose proof (classifyRelay_cases (resetRelayChain s) now) as H.
      rewrite lastRelayTime_empty in H by reflexivity. exact H. }
    rewrite Hc in Hm, Hout. simpl in *.
    split; [exact Hch|]. split; [exact Hm|]. exact Hout.
Qed.

Lemma reset_restarts_relay_scoring_witness :
  activePlayers (run [InitiateEnergyRelay "a" "b" 1000;
                      InitiateEnergyRelay "b" "a" 1050] (duo 2)) !! "a"
  = Some (newPlayer "a")
  /\ activePlayers (run [InitiateEnergyRelay "a" "b" 1000;
                         InitiateEnergyRelay "b" "a" 1050] (duo 2)) !! "b"
     = Some (newPlayer "b")
  /\ relayMultiplier (run [InitiateEnergyRelay "a" "b" 1000;
                           InitiateEnergyRelay "b" "a" 1050] (duo 2))
     = (1 + (1 # 2))%Q
  /\ relayMultiplier
       (initiateEnergyRelay "a" "b" 9000
          (resetRelayChain
             (run [InitiateEnergyRelay "a" "b" 1000;
                   InitiateEnergyRelay "b" "a" 1050] (duo 2))))
     = 1%Q.
Proof.
  assert (Ha : activePlayers (run [InitiateEnergyRelay "a" "b" 1000;
                                   InitiateEnergyRelay "b" "a" 1050] (duo 2))
               !! "a" = Some (newPlayer "a"))
    by (vm_compute; reflexivity).
  assert (Hb : activePlayers (run [InitiateEnergyRelay "a" "b" 1000;
                                   InitiateEnergyRelay "b" "a" 1050] (duo 2))
               !! "b" = Some (newPlayer "b"))
    by (vm_compute; reflexivity).
  split; [exact Ha|]. split; [exact Hb|].
  split; [vm_compute; reflexivity|].
  exact (proj1 (proj2 (proj2 reset_restarts_relay_scoring _ "a" "b" 9000
                         _ _ Ha Hb))).
Defined.

(** ** Calls that are repeated *)

Lemma repeated_touch_witness :
  activePlayers duoCompleted !! "b"
  = Some (with_touch true (Some 400) (newPlayer "b"))
  /\ onPlayerTouch "b" 400 (onPlayerTouch "b" 400 duoCompleted)
     = sending [NetBroadcast (touch_event "b" 400 true)]
               (onPlayerTouch "b" 400 duoCompleted).
Proof.
  assert (H : activePlayers duoCompleted !! "b"
              = Some (with_touch true (Some 400) (newPlayer "b")))
    by (vm_compute; reflexivity).
  split; [exact H|].
  exact (onPlayerTouch_twice duoCompleted "b" 400 _ H).
Defined.

Lemma repeated_relay_witness :
  activePlayers (duo 2) !! "a" = Some (newPlayer "a")
  /\ activePlayers (duo 2) !! "b" = Some (newPlayer "b")
  /\ relayChain (initiateEnergyRelay "a" "b" 1000
                   (initiateEnergyRelay "a" "b" 1000 (duo 2)))
     = relayChain (duo 2) ++ ["b"; "b"].
Proof.
  assert (Ha : activePlayers (duo 2) !! "a" = Some (newPlayer "a"))
    by (vm_compute; reflexivity).
  assert (Hb : activePlayers (duo 2) !! "b" = Some (newPlayer "b"))
    by (vm_compute; reflexivity).
  split; [exact Ha|]. split; [exact Hb|].
  exact (proj1 (initiateEnergyRelay_twice (duo 2) "a" "b" 1000 _ _ Ha Hb)).
Defined.

End CollabEdgeFacts.

(* ===================================================================== *)
(** * Further facts about the event bus *)
(* ===================================================================== *)

Module LinkFacts.
Import Net NetFacts Remote RemoteSpec RemoteFacts Link LinkSpec.

Local Open Scope Z_scope.

Section Bus.

Context {Data World : Type}.

Implicit Types (nm : NetworkManager Data World) (e : NetworkEvent Data)
         (w : World) (st : NetworkManager Data World * World)
         (actions : list (Action Data World)).

Lemma update_localPlayerId nm w :
  localPlayerId (fst (update nm w)) = localPlayerId nm.
Proof. unfold update. destruct (isConnected nm); reflexivity. Qed.

Lemma step_localPlayerId a st :
  localPlayerId (fst (step a st)) = localPlayerId (fst st).
Proof.
  destruct a as [e| |t cb|]; simpl.
  - apply (proj1 (receiveEvent_keeps e (fst st))).
  - apply update_localPlayerId.
  - reflexivity.
  - reflexivity.
Qed.

Lemma run_localPlayerId actions st :
  localPlayerId (fst (run actions st)) = localPlayerId (fst st).
Proof.
  revert st. induction actions as [|a actions IH]; intros st; [reflexivity|].
  change (run (a :: actions) st) with (run actions (step a st)).
  rewrite IH. apply step_localPlayerId.
Qed.

Lemma step_disconnected a st :
  isConnected (fst st) = false ->
  isConnected (fst (step a st)) = false /\ snd (step a st) = snd st.
Proof.
  intros H. destruct a as [e| |t cb|]; simpl.
  - split; [|reflexivity].
    rewrite (proj1 (proj2 (proj2 (receiveEvent_keeps e (fst st))))).
    exact H.
  - unfold update. rewrite H. split; [exact H | reflexivity].
  - split; [exact H | reflexivity].
  - split; reflexivity.
Qed.

Lemma run_disconnected actions st :
  isConnected (fst st) = false ->
  isConnected (fst (run actions st)) = false
  /\ snd (run actions st) = snd st.
Proof.
  revert st. induction actions as [|a actions IH]; intros st H.
  - split; [exact H | reflexivity].
  - change (run (a :: actions) st) with (run actions (step a st)).
    destruct (step_disconnected a st H) as [H1 H2].
    destruct (IH (step a st) H1) as [H3 H4].
    split; [exact H3 | now rewrite H4].
Qed.

Lemma receive_all_disconnected (es : list (NetworkEvent Data)) st :
  isConnected (fst st) = false ->
  pendingEvents (fst (run (map Receive es ++ [Tick]) st))
  = pendingEvents (fst st) ++ List.filter (from_elsewhere (fst st)) es.
Proof.
  intros H. unfold run. rewrite fold_left_app. simpl.
  assert (Hall : forall st0,
             fold_left (fun st' a => step a st') (map Receive es) st0
             = (receiveAll es (fst st0), snd st0)).
  { clear. induction es as [|e es IH]; intros st0; simpl.
    - now destruct st0.
    - rewrite IH. reflexivity. }
  rewrite Hall. simpl.
  destruct (receiveAll_keeps es (fst st)) as (_ & _ & Hc & Hp).
  unfold update. rewrite Hc, H. simpl. exact Hp.
Qed.


End Bus.

(** An envelope the manager has built with [sendEvent] never reaches its
    own handlers: whatever the manager receives, handles and registers
    afterwards, and whether or not it is disconnected, [receiveEvent] drops
    the envelope when the simulated transmission hands it back. *)
Theorem own_envelopes_never_return :
  forall (Data World : Type) (actions : list (Link.Action Data World))
         (st : NetworkManager Data World * World)
         (t : NetworkEventType) (d : Data) (now : Z),
    receiveEvent (sendEvent t d now (fst st)) (fst (Link.run actions st))
    = fst (Link.run actions st).
Proof.
  intros Data World actions st t d now.
  apply receiveEvent_self. simpl. symmetry. apply run_localPlayerId.
Qed.

(** After [disconnect] no handler runs again: the class has no method
    that connects, so over every sequence of deliveries, ticks,
    registrations and further disconnects the world of the handlers stays
    as it was.  [disconnect] empties the queue, but [receiveEvent] does not
    look at the connection: the envelopes of other senders that arrive
    afterwards are queued, and a tick does not take them off. *)
Theorem disconnected_bus_handles_nothing :
  (forall (Data World : Type) (actions : list (Link.Action Data World))
          (st : NetworkManager Data World * World),
      snd (Link.run (Disconnect :: actions) st) = snd st
      /\ isConnected (fst (Link.run (Disconnect :: actions) st)) = false)
  /\ (forall (Data World : Type) (es : list (NetworkEvent Data))
            (st : NetworkManager Data World * World),
        pendingEvents
          (fst (Link.run (Disconnect :: map Receive es ++ [Tick]) st))
        = List.filter (from_elsewhere (fst st)) es).
Proof.
  split.
  - intros Data World actions st.
    change (Link.run (Disconnect :: actions) st)
      with (Link.run actions (disconnect (fst st), snd st)).
    destruct (run_disconnected actions (disconnect (fst st), snd st)
                eq_refl) as [H1 H2].
    split; [exact H2 | exact H1].
  - intros Data World es st.
    change (Link.run (Disconnect :: map Receive es ++ [Tick]) st)
      with (Link.run (map Receive es ++ [Tick])
              (disconnect (fst st), snd st)).
    rewrite receive_all_disconnected by reflexivity. reflexivity.
Qed.

(** A logging manager after a disconnect: the touch envelope of [b] is
    queued and never handled; on the connected manager the next tick hands
    it to the handler. *)
Example disconnected_logging_bus :
  Link.run [Disconnect; Receive (envelope TOUCH_EVENT "b" 1050); Tick; Tick]
           (loggingBus "me", [])
  = ({| localPlayerId := "me";
        eventCallbacks := eventCallbacks (loggingBus "me");
        isConnected := false;
        pendingEvents := [envelope TOUCH_EVENT "b" 1050] |}, [])
  /\ snd (Link.run [Receive (envelope TOUCH_EVENT "b" 1050); Tick]
                   (loggingBus "me", []))
     = [("b", 1050)].
Proof. split; reflexivity. Qed.



End LinkFacts.

(* ===================================================================== *)
(** * Facts about the rotation baseline *)
(* ===================================================================== *)

Module RotationEdgeFacts.
Import Rotation RotationSpec.

Local Open Scope R_scope.

Lemma normalize_zero : normalize 0 = 0.
Proof.
  unfold normalize.
  destruct (Rgt_dec 0 180) as [H|_]; [lra|].
  destruct (Rlt_dec 0 (-180)) as [H|_]; [lra|]. reflexivity.
Qed.

Lemma threshold_positive : 0 < ROTATION_THRESHOLD.
Proof.
  unfold ROTATION_THRESHOLD, Constants.GESTURE_THRESHOLDS.ROTATION_THRESHOLD.
  apply IZR_lt. reflexivity.
Qed.

(** Two fingers that have not moved since the gesture began report no
    rotation, wherever they are.  The recognizer never moves the
    baseline, so the rotation it reports is the turn since the gesture
    began, and for the same finger positions it reports the same again.
    With one finger or with three it does nothing. *)
Theorem rotation_is_measured_from_the_baseline :
  (forall p0 p1 s,
      recognizeRotationGesture [p0; p1]
        (initializeRotationGesture [p0; p1] s)
      = (initializeRotationGesture [p0; p1] s, None))
  /\ (forall l s,
        initialRotationAngle (fst (recognizeRotationGesture l s))
        = initialRotationAngle s)
  /\ (forall l s,
        snd (recognizeRotationGesture l (fst (recognizeRotationGesture l s)))
        = snd (recognizeRotationGesture l s))
  /\ (forall l s,
        length l <> 2%nat ->
        recognizeRotationGesture l s = (s, None)
        /\ initializeRotationGesture l s = s).
Proof.
  assert (Hbase : forall l s,
             initialRotationAngle (fst (recognizeRotationGesture l s))
             = initialRotationAngle s).
  { intros l s. unfold recognizeRotationGesture.
    destruct l as [|p0 [|p1 [|p2 l]]]; try reflexivity.
    destruct (Rgt_dec _ _); reflexivity. }
  split; [|split; [exact Hbase|split]].
  - intros p0 p1 s. unfold recognizeRotationGesture. simpl.
    unfold Rminus. rewrite Rplus_opp_r, normalize_zero, Rabs_R0.
    pose proof threshold_positive.
    destruct (Rgt_dec 0 ROTATION_THRESHOLD) as [H0|_]; [lra|]. reflexivity.
  - intros l s. pose proof (Hbase l s) as Hb.
    unfold recognizeRotationGesture in *.
    destruct l as [|p0 [|p1 [|p2 l]]]; try reflexivity.
    rewrite Hb. destruct (Rgt_dec _ _); reflexivity.
  - intros l s Hl.
    destruct l as [|p0 [|p1 [|p2 l]]]; try (split; reflexivity).
    simpl in Hl. contradiction.
Qed.

Lemma rotation_is_measured_from_the_baseline_witness :
  length [mkVector2 0 0] <> 2%nat
  /\ recognizeRotationGesture [mkVector2 0 0] create = (create, None)
  /\ recognizeRotationGesture westward
       (initializeRotationGesture westward create)
     = (initializeRotationGesture westward create, None).
Proof.
  assert (H : length [mkVector2 0 0] <> 2%nat) by (simpl; lia).
  split; [exact H|].
  split; [exact (proj1 (proj2 (proj2 (proj2
                   rotation_is_measured_from_the_baseline)) _ create H))|].
  exact (proj1 rotation_is_measured_from_the_baseline _ _ create).
Defined.

End RotationEdgeFacts.

(* ===================================================================== *)
(** * Facts about the automatic quality adjustment *)
(* ===================================================================== *)

Module QualityFacts.
Import Quality QualitySpec.

Local Open Scope Q_scope.

Lemma below (a b : Q) : negb (Qle_bool a b) = true <-> b < a.
Proof.
  rewrite negb_true_iff. split.
  - intros H. apply Qnot_le_lt. intros Hle.
    apply Qle_bool_iff in Hle. congruence.
  - intros H. destruct (Qle_bool a b) eqn:E; [|reflexivity].
    apply Qle_bool_iff in E. apply Qlt_not_le in H. contradiction.
Qed.

Lemma not_below (a b : Q) : negb (Qle_bool a b) = false <-> a <= b.
Proof. rewrite negb_false_iff. apply Qle_bool_iff. Qed.

Lemma adjustQuality_auto f m : autoQualityEnabled (adjustQuality f m)
                               = autoQualityEnabled m.
Proof.
  unfold adjustQuality.
  repeat match goal with |- context [if ?b then _ else _] => destruct b end;
    reflexivity.
Qed.

Lemma adjustQuality_quality f m :
  currentQuality (adjustQuality f m)
  = if negb (Qle_bool 45 f) && negb (bool_decide (currentQuality m = LOW))
    then lowerQuality (currentQuality m)
    else if negb (Qle_bool f 58)
            && negb (bool_decide (currentQuality m = HIGH))
    then raiseQuality (currentQuality m)
    else currentQuality m.
Proof.
  unfold adjustQuality, setQuality.
  destruct (negb (Qle_bool 45 f)), (negb (Qle_bool f 58)),
    (currentQuality m) eqn:E; simpl; try rewrite E; reflexivity.
Qed.

Lemma adjustQuality_not_auto f m :
  currentQuality m <> AUTO -> currentQuality (adjustQuality f m) <> AUTO.
Proof.
  intros H. rewrite adjustQuality_quality.
  destruct (negb (Qle_bool 45 f)), (negb (Qle_bool f 58)),
    (currentQuality m); simpl; congruence.
Qed.

Lemma readings_low f :
  f < 45 -> negb (Qle_bool 45 f) = true /\ negb (Qle_bool f 58) = false.
Proof.
  intros H. split; [now apply below|]. apply not_below. Lqa.lra.
Qed.

Lemma readings_high f :
  58 < f -> negb (Qle_bool 45 f) = false /\ negb (Qle_bool f 58) = true.
Proof.
  intros H. split; [|now apply below]. apply not_below. Lqa.lra.
Qed.

(** The automatic adjustment treats the initial preset AUTO as a rung of
    its own next to LOW, MEDIUM and HIGH.  With an average between 45
    and 58 frames per second nothing changes.  From AUTO the first average
    below 45 sets LOW and the first above 58 sets HIGH, without passing
    MEDIUM; from the other presets the quality moves by at most one rung,
    down below 45 and up above 58.  The adjustment never sets AUTO: once
    the preset is LOW, MEDIUM or HIGH it stays one of them over every
    sequence of frames.  With the adjustment switched off a frame changes
    nothing. *)
Theorem auto_quality_never_returns_to_auto :
  (forall f m, 45 <= f -> f <= 58 -> adjustQuality f m = m)
  /\ (forall f, f < 45 -> currentQuality (adjustQuality f create) = LOW)
  /\ (forall f, 58 < f -> currentQuality (adjustQuality f create) = HIGH)
  /\ (forall f m,
        currentQuality m <> AUTO ->
        (f < 45 ->
         rung (currentQuality (adjustQuality f m))
         = Z.max 0 (rung (currentQuality m) - 1))
        /\ (58 < f ->
            rung (currentQuality (adjustQuality f m))
            = Z.min 2 (rung (currentQuality m) + 1)))
  /\ (forall f m,
        currentQuality (adjustQuality f m) = AUTO ->
        currentQuality m = AUTO /\ 45 <= f /\ f <= 58)
  /\ (forall readings m,
        currentQuality m <> AUTO ->
        currentQuality (autoAdjustAll readings m) <> AUTO)
  /\ (forall f m, autoQualityEnabled m = false -> autoAdjust f m = m).
Proof.
  split; [|split; [|split; [|split; [|split; [|split]]]]].
  - intros f m H1 H2. unfold adjustQuality.
    apply not_below in H1. apply not_below in H2. rewrite H1, H2.
    reflexivity.
  - intros f H. rewrite adjustQuality_quality.
    destruct (readings_low f H) as [-> ->]. reflexivity.
  - intros f H. rewrite adjustQuality_quality.
    destruct (readings_high f H) as [-> ->]. reflexivity.
  - intros f m Hq. split; intros H; rewrite adjustQuality_quality.
    + destruct (readings_low f H) as [-> ->].
      destruct (currentQuality m); try reflexivity; congruence.
    + destruct (readings_high f H) as [-> ->].
      destruct (currentQuality m); try reflexivity; congruence.
  - intros f m. rewrite adjustQuality_quality.
    destruct (negb (Qle_bool 45 f)) eqn:E1, (negb (Qle_bool f 58)) eqn:E2,
      (currentQuality m); simpl; try discriminate.
    intros _. apply not_below in E1. apply not_below in E2. auto.
  - intros readings. induction readings as [|f readings IH]; intros m H.
    + exact H.
    + simpl. apply IH. unfold autoAdjust.
      destruct (autoQualityEnabled m); [|exact H].
      now apply adjustQuality_not_auto.
  - intros f m H. unfold autoAdjust. now rewrite H.
Qed.

Lemma auto_quality_never_returns_to_auto_witness :
  45 <= 50
  /\ 50 <= 58
  /\ adjustQuality 50 create = create
  /\ 30 < 45
  /\ currentQuality (adjustQuality 30 create) = LOW
  /\ currentQuality (setQuality MEDIUM create) <> AUTO
  /\ currentQuality (autoAdjustAll [30; 60; 50] (setQuality MEDIUM create))
     <> AUTO.
Proof.
  assert (H1 : 45 <= 50) by Lqa.lra.
  assert (H2 : 50 <= 58) by Lqa.lra.
  assert (H3 : 30 < 45) by Lqa.lra.
  assert (H4 : currentQuality (setQuality MEDIUM create) <> AUTO)
    by discriminate.
  split; [exact H1|]. split; [exact H2|].
  split; [exact (proj1 auto_quality_never_returns_to_auto 50 create H1 H2)|].
  split; [exact H3|].
  split; [exact (proj1 (proj2 auto_quality_never_returns_to_auto) 30 H3)|].
  split; [exact H4|].
  exact (proj1 (proj2 (proj2 (proj2 (proj2 (proj2
           auto_quality_never_returns_to_auto)))))
           [30; 60; 50] (setQuality MEDIUM create) H4).
Defined.

(** A session: the average drops to 30, recovers to 60 for three frames,
    settles at 50 and drops again. *)
Example quality_over_a_session :
  map (fun n => currentQuality
                  (autoAdjustAll (firstn n [30; 60; 60; 60; 50; 30]) create))
      (seq 0 7)
  = [AUTO; LOW; MEDIUM; HIGH; HIGH; HIGH; MEDIUM].
Proof. reflexivity. Qed.

End QualityFacts.

(* ===================================================================== *)
(** * Facts about portal creation *)
(* ===================================================================== *)

Module PortalsFacts.
Import Constants Portals PortalsSpec.

Local Open Scope Q_scope.

Lemma clamp_ok (x : Q) :
  MIN_RADIUS <= Math_max MIN_RADIUS (Math_min MAX_RADIUS x)
  /\ Math_max MIN_RADIUS (Math_min MAX_RADIUS x) <= MAX_RADIUS.
Proof.
  unfold Math_max, Math_min, MIN_RADIUS, MAX_RADIUS.
  destruct (Qle_bool 5 x) eqn:E1.
  - simpl. split; Lqa.lra.
  - destruct (Qle_bool (1 # 2) x) eqn:E2.
    + apply Qle_bool_iff in E2. split; [exact E2|].
      apply Qlt_le_weak, Qnot_le_lt. intros H.
      apply Qle_bool_iff in H. congruence.
    + split; Lqa.lra.
Qed.

Lemma inv_create : inv create.
Proof.
  split.
  - reflexivity.
  - intros p H. discriminate.
  - intros i p H. simpl in H. rewrite lookup_empty in H. discriminate.
Qed.

Lemma inv_step c m : inv m -> inv (step c m).
Proof.
  intros [Hf Hc Hs].
  destruct c as [newId playerId|scale|angle| |valid|]; simpl.
  - split; simpl.
    + reflexivity.
    + intros p [= <-]. simpl. split; [|reflexivity].
      unfold radius_ok, MIN_RADIUS, MAX_RADIUS, BASE_RADIUS. simpl.
      split; Lqa.lra.
    + exact Hs.
  - unfold onPinchGesture.
    destruct (currentPortal m) as [p|] eqn:E; [|split; rewrite ?E; auto].
    destruct (Hc p eq_refl) as [_ Ha].
    split; simpl.
    + rewrite Hf. reflexivity.
    + intros q [= <-]. simpl. split; [apply clamp_ok | exact Ha].
    + exact Hs.
  - unfold onRotateGesture.
    destruct (currentPortal m) as [p|] eqn:E; [|split; rewrite ?E; auto].
    destruct (Hc p eq_refl) as [Hr Ha].
    split; simpl.
    + rewrite Hf. reflexivity.
    + intros q [= <-]. simpl. split; [exact Hr | exact Ha].
    + exact Hs.
  - unfold onSwipeGesture.
    destruct (currentPortal m) as [p|] eqn:E; [|split; rewrite ?E; auto].
    split; simpl; rewrite ?E; auto.
  - unfold onDoubleTap.
    destruct (currentPortal m) as [p|] eqn:E; [|split; rewrite ?E; auto].
    destruct (Hc p eq_refl) as [Hr Ha].
    destruct valid.
    + split; simpl.
      * reflexivity.
      * intros q H. discriminate.
      * intros i q H. apply lookup_insert_Some in H as [[<- <-]|[_ H]].
        -- simpl. auto.
        -- now apply Hs.
    + split; simpl; rewrite ?E; auto.
  - unfold cancelPortalCreation.
    destruct (currentPortal m) as [p|] eqn:E; [|split; rewrite ?E; auto].
    split; simpl.
    + reflexivity.
    + intros q H. discriminate.
    + exact Hs.
Qed.

Lemma inv_run calls m : inv m -> inv (run calls m).
Proof.
  revert m. induction calls as [|c calls IH]; intros m H; [exact H|].
  simpl. apply IH, inv_step, H.
Qed.

(** Over every sequence of calls from a new manager the creation flag is
    set exactly while a portal is being created, and the radius of the
    portal being created and of every stored portal lies between 0.5 and
    5, whatever scales the pinches carry; the stored portals are the
    activated ones.  A pinch sets the radius to twice its scale, cut off
    at those bounds: the scale is applied to the base radius and not to
    the radius of the last pinch, so only the last pinch counts.  A double
    tap on a placement that is not valid keeps the portal in creation and
    plays the failure pattern. *)
Theorem portal_radius_is_clamped :
  (forall calls, inv (run calls create))
  /\ (forall m p scale,
        currentPortal m = Some p ->
        option_map radius (currentPortal (onPinchGesture scale m))
        = Some (Math_max MIN_RADIUS (Math_min MAX_RADIUS (BASE_RADIUS * scale))))
  /\ (forall m p s1 s2,
        currentPortal m = Some p ->
        currentPortal (onPinchGesture s2 (onPinchGesture s1 m))
        = currentPortal (onPinchGesture s2 m))
  /\ (forall m p,
        currentPortal m = Some p ->
        onDoubleTap false m = play FAILURE m)
  /\ (forall m scale angle valid,
        currentPortal m = None ->
        onPinchGesture scale m = m /\ onRotateGesture angle m = m
        /\ onSwipeGesture m = m /\ onDoubleTap valid m = m
        /\ cancelPortalCreation m = m).
Proof.
  split; [|split; [|split; [|split]]].
  - intros calls. apply inv_run, inv_create.
  - intros m p scale H. unfold onPinchGesture. rewrite H. reflexivity.
  - intros m p s1 s2 H. unfold onPinchGesture at 2. rewrite H.
    unfold onPinchGesture. simpl. rewrite H. reflexivity.
  - intros m p H. unfold onDoubleTap. rewrite H. reflexivity.
  - intros m scale angle valid H.
    unfold onPinchGesture, onRotateGesture, onSwipeGesture, onDoubleTap,
      cancelPortalCreation.
    rewrite H. repeat split; reflexivity.
Qed.

Lemma portal_radius_is_clamped_witness :
  currentPortal (startPortalCreation "p1" "a" create)
  = Some {| id := "p1"; creatorId := "a"; rotation := None;
            radius := BASE_RADIUS; isActive := false; isValid := false |}
  /\ option_map radius
       (currentPortal
          (onPinchGesture 40 (startPortalCreation "p1" "a" create)))
     = Some (Math_max MIN_RADIUS (Math_min MAX_RADIUS (BASE_RADIUS * 40)))
  /\ Math_max MIN_RADIUS (Math_min MAX_RADIUS (BASE_RADIUS * 40)) = 5
  /\ Math_max MIN_RADIUS (Math_min MAX_RADIUS (BASE_RADIUS * (1 # 100))) = 1 # 2
  /\ currentPortal create = None
  /\ onPinchGesture 40 create = create.
Proof.
  assert (H : currentPortal (startPortalCreation "p1" "a" create)
              = Some {| id := "p1"; creatorId := "a"; rotation := None;
                        radius := BASE_RADIUS; isActive := false;
                        isValid := false |})
    by reflexivity.
  assert (H0 : currentPortal create = None) by reflexivity.
  split; [exact H|].
  split; [exact (proj1 (proj2 portal_radius_is_clamped) _ _ 40 H)|].
  split; [reflexivity|]. split; [reflexivity|].
  split; [exact H0|].
  exact (proj1 (proj2 (proj2 (proj2 (proj2 portal_radius_is_clamped)))
                  create 40 0 true H0)).
Defined.

End PortalsFacts.
